(** * ResNet backbone graph construction (paddlex/cv/nets/resnet.py)

    A shallow embedding of the [ResNet] class: the constructor's checks, the
    builder methods ([_conv_norm], [_shortcut], [bottleneck], [basicblock],
    [layer_warp], [c1_stage], [__call__]) and the [ResNetC5] subclass.

    The methods only declare graph nodes through the host framework
    ([fluid.layers.*]).  The embedding therefore runs every method in a
    small monad that
    - threads the one attribute the methods mutate ([self.curr_stage]) and a
      counter for fresh tensor handles,
    - logs every framework call, with its arguments and the handle it
      returns, in call order, and
    - stops at the first Python exception. *)

From stdpp Require Import base option list strings pretty gmap sorting.

From Stdlib Require Import ZArith QArith Lia.

Local Open Scope string_scope.

Local Open Scope list_scope.

Local Open Scope Z_scope.

(** ** Python values and exceptions *)

Inductive exn :=
| AssertionError
| IndexError
| KeyError
| ValueError
| NameError (name : string)
| UnboundLocalError (name : string).

Inductive result (A : Type) :=
| Ok (a : A)
| Raise (e : exn).

Arguments Ok {A} a.

Arguments Raise {A} e.

(** [l[i]] for a Python list: negative indices count from the end. *)
Definition getitem {A} (l : list A) (i : Z) : result A :=
  let n := Z.of_nat (length l) in
  let j := if i <? 0 then i + n else i in
  if j <? 0 then Raise IndexError
  else match l !! Z.to_nat j with
       | Some x => Ok x
       | None => Raise IndexError
       end.

(** [range(lo, hi)] *)
Definition range (lo hi : Z) : list Z :=
  (λ k : nat, lo + Z.of_nat k) <$> seq 0 (Z.to_nat (hi - lo)).

(** [max(l)] of a list of integers; [ValueError] on the empty list. *)
Definition py_max (l : list Z) : result Z :=
  match l with
  | [] => Raise ValueError
  | x :: l' => Ok (foldl Z.max x l')
  end.

(** ['res{}_sum'.format(i)] *)
Definition res_sum_key (i : Z) : string := "res" +:+ pretty i +:+ "_sum".

(** [OrderedDict(pairs)]: a later pair with a key already present replaces
    the value and keeps the key's first position. *)
Fixpoint od_set {V} (d : list (string * V)) (k : string) (v : V)
  : list (string * V) :=
  match d with
  | [] => [(k, v)]
  | (k', v') :: d' =>
      if String.eqb k' k then (k', v) :: d' else (k', v') :: od_set d' k v
  end.

Definition OrderedDict {V} (pairs : list (string * V)) : list (string * V) :=
  foldl (λ d kv, od_set d kv.1 kv.2) [] pairs.

(** ** Framework objects *)

(** A tensor handle ([fluid.framework.Variable]); the builder reads only
    [shape[1]], the channel count. *)
Record TensorVar := { var_id : nat; shape1 : Z }.

(** [UniformInvSqrt fan] is [Uniform(-stdv, stdv)] with
    [stdv = 1.0 / math.sqrt(fan * 1.0)]. *)
Inductive Initializer :=
| Constant (value : Q)
| UniformInvSqrt (fan : Z).

(** [ParamAttr(name, initializer, learning_rate, regularizer)];
    [regularizer = Some c] is [L2Decay(c)].  The framework's default
    learning rate is 1.0. *)
Record ParamAttr := {
  pa_name : option string;
  pa_initializer : option Initializer;
  learning_rate : Q;
  regularizer : option Q
}.

Record conv_args := {
  c_input : TensorVar;
  c_num_filters : Z;
  c_filter_size : Z;
  c_stride : Z;
  c_padding : Z;
  c_groups : option Z;            (* [None]: not passed *)
  c_act : option string;
  c_param_attr : ParamAttr;
  c_bias_attr : option ParamAttr;   (* [None] is [bias_attr=False] *)
  c_name : string
}.

Record pool_args := {
  p_input : TensorVar;
  p_pool_size : option Z;
  p_pool_stride : option Z;
  p_pool_padding : option Z;
  p_ceil_mode : bool;
  p_pool_type : string;
  p_global_pooling : bool
}.

Record bn_args := {
  bn_input : TensorVar;
  bn_act : option string;
  bn_name : string;
  bn_param_attr : ParamAttr;
  bn_bias_attr : ParamAttr;
  bn_moving_mean_name : string;
  bn_moving_variance_name : string;
  bn_use_global_stats : bool
}.

(** What [x.stop_gradient = True] is assigned on: a tensor handle, or a
    parameter, which the builder creates and fetches by the name in its
    [ParamAttr]. *)
Inductive target :=
| OfVar (v : TensorVar)
| OfParam (attr : ParamAttr).

(** One constructor per framework call the module makes. *)
Inductive event :=
| conv2d (a : conv_args) (out : TensorVar)
| split (input : TensorVar) (num_or_sections : list Z) (dim : Z)
        (out1 out2 : TensorVar)
| sigmoid (x out : TensorVar)
| deformable_conv (a : conv_args) (offset mask : TensorVar)
                  (deformable_groups im2col_step : Z) (out : TensorVar)
| batch_norm (a : bn_args) (out : TensorVar)
| create_parameter (shape : list Z) (attr : ParamAttr)
                   (default_initializer : Initializer)
| affine_channel (x : TensorVar) (scale bias : ParamAttr)
                 (act : option string) (out : TensorVar)
| set_stop_gradient (t : target)
| pool2d (a : pool_args) (out : TensorVar)
| elementwise_add (x y : TensorVar) (act : option string)
                  (name : option string) (out : TensorVar)
| fc (input : TensorVar) (size : Z) (param_attr : ParamAttr)
     (out : TensorVar).

(** ** The builder monad *)

Record state := { curr_stage : nat; next_var : nat }.

Definition M (A : Type) : Type := state → result (A * state * list event).

Definition ret {A} (a : A) : M A := λ st, Ok (a, st, []).

Definition bind {A B} (m : M A) (f : A → M B) : M B :=
  λ st, match m st with
        | Raise e => Raise e
        | Ok (a, st1, ev1) =>
            match f a st1 with
            | Raise e => Raise e
            | Ok (b, st2, ev2) => Ok (b, st2, ev1 ++ ev2)
            end
        end.

Definition raise {A} (e : exn) : M A := λ _, Raise e.

Definition lift {A} (r : result A) : M A :=
  λ st, match r with Ok a => Ok (a, st, []) | Raise e => Raise e end.

Definition assert (b : bool) : M unit :=
  if b then ret tt else raise AssertionError.

Definition emit (e : event) : M unit := λ st, Ok (tt, st, [e]).

(** A framework call that returns a new handle with [ch] channels. *)
Definition fresh (ch : Z) : M TensorVar :=
  λ st, Ok ({| var_id := next_var st; shape1 := ch |},
            {| curr_stage := curr_stage st; next_var := S (next_var st) |},
            []).

Definition get_curr_stage : M nat := λ st, Ok (curr_stage st, st, []).

(** [self.curr_stage += 1] *)
Definition incr_curr_stage : M unit :=
  λ st, Ok (tt, {| curr_stage := S (curr_stage st); next_var := next_var st |},
            []).

#[global] Instance M_ret : MRet M := @ret.

#[global] Instance M_bind : MBind M := λ A B f m, bind m f.

(** [for x in l: acc = body(x, acc)] *)
Fixpoint for_each {A B} (l : list A) (body : A → B → M B) (acc : B) : M B :=
  match l with
  | [] => mret acc
  | x :: l' => acc' ← body x acc; for_each l' body acc'
  end.

(** [for idx, x in enumerate(l)] *)
Definition enumerate {A} (l : list A) : list (Z * A) :=
  imap (λ i x, (Z.of_nat i, x)) l.

(** [d[k]] for a dict *)
Definition dict_getitem {V} (d : gmap Z V) (k : Z) : result V :=
  match d !! k with
  | Some v => Ok v
  | None => Raise KeyError
  end.

(** ** Framework calls

    Each call logs itself and returns a new handle; the channel count of
    the handle is the one the operator produces. *)

Definition fluid_conv2d (a : conv_args) : M TensorVar :=
  out ← fresh (c_num_filters a);
  emit (conv2d a out);;
  mret out.

Definition fluid_split (input : TensorVar) (n1 n2 : Z) (dim : Z)
  : M (TensorVar * TensorVar) :=
  out1 ← fresh n1;
  out2 ← fresh n2;
  emit (split input [n1; n2] dim out1 out2);;
  mret (out1, out2).

Definition fluid_sigmoid (x : TensorVar) : M TensorVar :=
  out ← fresh (shape1 x);
  emit (sigmoid x out);;
  mret out.

Definition fluid_deformable_conv (a : conv_args) (offset mask : TensorVar)
    (deformable_groups im2col_step : Z) : M TensorVar :=
  out ← fresh (c_num_filters a);
  emit (deformable_conv a offset mask deformable_groups im2col_step out);;
  mret out.

Definition fluid_batch_norm (a : bn_args) : M TensorVar :=
  out ← fresh (shape1 (bn_input a));
  emit (batch_norm a out);;
  mret out.

(** The parameter is identified by its attribute (which carries its name). *)
Definition fluid_create_parameter (shape : list Z) (attr : ParamAttr)
    (default_initializer : Initializer) : M ParamAttr :=
  emit (create_parameter shape attr default_initializer);;
  mret attr.

Definition fluid_affine_channel (x : TensorVar) (scale bias : ParamAttr)
    (act : option string) : M TensorVar :=
  out ← fresh (shape1 x);
  emit (affine_channel x scale bias act out);;
  mret out.

Definition fluid_pool2d (a : pool_args) : M TensorVar :=
  out ← fresh (shape1 (p_input a));
  emit (pool2d a out);;
  mret out.

Definition fluid_elementwise_add (x y : TensorVar) (act : option string)
    (name : option string) : M TensorVar :=
  out ← fresh (shape1 x);
  emit (elementwise_add x y act name out);;
  mret out.

Definition fluid_fc (input : TensorVar) (size : Z) (param_attr : ParamAttr)
  : M TensorVar :=
  out ← fresh size;
  emit (fc input size param_attr out);;
  mret out.

(** [add_gc_block] and [add_space_nonlocal] are called by the module, which
    neither defines nor imports them (its imports are [math], [OrderedDict],
    [paddle], [fluid], [ParamAttr], [Variable], [L2Decay], [Constant],
    [Integral] and [NameAdapter]): evaluating either name raises. *)
Definition add_gc_block {A} : M A := raise (NameError "add_gc_block").

Definition add_space_nonlocal {A} : M A :=
  raise (NameError "add_space_nonlocal").

(** ** The instance *)

(** [backbone_utils.NameAdapter] is outside this module; the adapter built
    by [NameAdapter(self)] is taken as a parameter. *)
Record NameAdapter := {
  fix_conv_norm_name : string → string;
  fix_shortcut_name : string → string;
  fix_bottleneck_name : string → string * string * string * string;
  fix_layer_warp_name : Z → Z → Z → string;
  fix_c1_stage_name : string
}.

(** The bound methods stored in [layers_cfg]. *)
Inductive block_func := self_basicblock | self_bottleneck.

Inductive int_or_list :=
| AnInt (n : Z)
| AList (l : list Z).

(** The arguments of [ResNet.__init__]. *)
Record Args := {
  a_layers : Z;
  a_freeze_at : Z;
  a_norm_type : string;
  a_freeze_norm : bool;
  a_norm_decay : Q;
  a_variant : string;
  a_feature_maps : int_or_list;
  a_dcn_v2_stages : list Z;
  a_weight_prefix_name : string;
  a_nonlocal_stages : list Z;
  a_gcb_stages : list Z;
  a_gcb_params : list (string * string);
  a_num_classes : option Z;
  a_lr_mult_list : list Q
}.

(** The attributes of an instance.  The last five are read through
    [getattr] with a default and are not set by [ResNet.__init__]; [None]
    is an absent attribute. *)
Record ResNet := {
  layers : Z;
  freeze_at : Z;
  norm_type : string;
  norm_decay : Q;
  freeze_norm : bool;
  variant : string;
  _model_type : string;
  feature_maps : list Z;
  dcn_v2_stages : list Z;
  layers_cfg : gmap Z (list Z * block_func);
  stage_filters : list Z;
  _c1_out_chan_num : Z;
  na : NameAdapter;
  prefix_name : string;
  nonlocal_stages : list Z;
  nonlocal_mod_cfg : gmap Z Z;
  gcb_stages : list Z;
  gcb_params : list (string * string);
  num_classes : option Z;
  lr_mult_list : list Q;
  groups : option Z;
  group_width : option Z;
  std_senet : option bool;
  _squeeze_excitation : option (TensorVar → Z → string → M TensorVar);
  severed_head : option bool
}.

(** [x in l] *)
Definition py_in `{EqDecision A} (x : A) (l : list A) : bool :=
  bool_decide (x ∈ l).

Definition the_layers_cfg : gmap Z (list Z * block_func) :=
  <[18 := ([2; 2; 2; 2], self_basicblock)]>
  (<[34 := ([3; 4; 6; 3], self_basicblock)]>
  (<[50 := ([3; 4; 6; 3], self_bottleneck)]>
  (<[101 := ([3; 4; 23; 3], self_bottleneck)]>
  (<[152 := ([3; 8; 36; 3], self_bottleneck)]>
  (<[200 := ([3; 12; 48; 3], self_bottleneck)]> ∅))))).

Definition the_nonlocal_mod_cfg : gmap Z Z :=
  <[50 := 2]> (<[101 := 5]> (<[152 := 8]> (<[200 := 12]> ∅))).

Definition assert_r (b : bool) : result unit :=
  if b then Ok tt else Raise AssertionError.

(** The attribute assignments of [ResNet.__init__], which follow its
    checks. *)
Definition init_attributes (adapter : NameAdapter) (a : Args)
    (feature_maps : list Z) : ResNet :=
  {| layers := a_layers a;
     freeze_at := a_freeze_at a;
     norm_type := a_norm_type a;
     norm_decay := a_norm_decay a;
     freeze_norm := a_freeze_norm a;
     variant := a_variant a;
     _model_type := "ResNet";
     feature_maps := feature_maps;
     dcn_v2_stages := a_dcn_v2_stages a;
     layers_cfg := the_layers_cfg;
     stage_filters := [64; 128; 256; 512];
     _c1_out_chan_num := 64;
     na := adapter;
     prefix_name := a_weight_prefix_name a;
     nonlocal_stages := a_nonlocal_stages a;
     nonlocal_mod_cfg := the_nonlocal_mod_cfg;
     gcb_stages := a_gcb_stages a;
     gcb_params := a_gcb_params a;
     num_classes := a_num_classes a;
     lr_mult_list := a_lr_mult_list a;
     groups := None;
     group_width := None;
     std_senet := None;
     _squeeze_excitation := None;
     severed_head := None |}.

(** [ResNet.__init__] *)
Definition ResNet__init__ (adapter : NameAdapter) (a : Args) : result ResNet :=
  let feature_maps :=
    match a_feature_maps a with
    | AnInt n => [n]
    | AList l => l
    end in
  match assert_r (py_in (a_layers a) [18; 34; 50; 101; 152; 200]) with
  | Raise e => Raise e | Ok _ =>
  match assert_r (py_in (a_variant a) ["a"; "b"; "c"; "d"]) with
  | Raise e => Raise e | Ok _ =>
  match assert_r ((0 <=? a_freeze_at a) && (a_freeze_at a <=? 5)) with
  | Raise e => Raise e | Ok _ =>
  match assert_r (0 <? Z.of_nat (length feature_maps)) with
  | Raise e => Raise e | Ok _ =>
  match assert_r (py_in (a_norm_type a) ["bn"; "sync_bn"; "affine_channel"]) with
  | Raise e => Raise e | Ok _ =>
  match assert_r (negb ((0 <? Z.of_nat (length (a_nonlocal_stages a)))
                        && (a_layers a <? 50))) with
  | Raise e => Raise e | Ok _ =>
  match assert_r (Z.of_nat (length (a_lr_mult_list a)) =? 5) with
  | Raise e => Raise e | Ok _ =>
  Ok (init_attributes adapter a feature_maps)
  end end end end end end end.

(** The instance starts with [self.curr_stage = 0]. *)
Definition new_instance_state (next : nat) : state :=
  {| curr_stage := 0; next_var := next |}.

(** ** The builder methods *)

Definition with_prefix (self : ResNet) (name : string) : string :=
  if negb (String.eqb (prefix_name self) "")
  then prefix_name self +:+ name else name.

Definition _conv_offset (input : TensorVar)
    (filter_size stride padding : Z) (act : option string) (name : string)
  : M TensorVar :=
  let out_channel := filter_size * filter_size * 3 in
  fluid_conv2d
    {| c_input := input;
       c_num_filters := out_channel;
       c_filter_size := filter_size;
       c_stride := stride;
       c_padding := padding;
       c_groups := None;
       c_param_attr := {| pa_name := Some (name +:+ ".w_0");
                          pa_initializer := Some (Constant 0%Q);
                          learning_rate := 1%Q;
                          regularizer := None |};
       c_bias_attr := Some {| pa_name := Some (name +:+ ".b_0");
                              pa_initializer := Some (Constant 0%Q);
                              learning_rate := 1%Q;
                              regularizer := None |};
       c_act := act;
       c_name := name |}.

Definition _conv_norm (self : ResNet) (input : TensorVar)
    (num_filters filter_size stride groups : Z) (act : option string)
    (name : string) (dcn_v2 : bool) : M TensorVar :=
  stage ← get_curr_stage;
  lr_mult ← lift (getitem (lr_mult_list self) (Z.of_nat stage));
  let _name := with_prefix self name in
  conv ←
    (if negb dcn_v2 then
       fluid_conv2d
         {| c_input := input;
            c_num_filters := num_filters;
            c_filter_size := filter_size;
            c_stride := stride;
            c_padding := (filter_size - 1) `div` 2;
            c_groups := Some groups;
            c_act := None;
            c_param_attr := {| pa_name := Some (_name +:+ "_weights");
                               pa_initializer := None;
                               learning_rate := lr_mult;
                               regularizer := None |};
            c_bias_attr := None;
            c_name := _name +:+ ".conv2d.output.1" |}
     else
       offset_mask ← _conv_offset input filter_size stride
                       ((filter_size - 1) `div` 2) None
                       (_name +:+ "_conv_offset");
       let offset_channel := filter_size ^ 2 * 2 in
       let mask_channel := filter_size ^ 2 in
       '(offset, mask) ← fluid_split offset_mask offset_channel mask_channel 1;
       mask ← fluid_sigmoid mask;
       fluid_deformable_conv
         {| c_input := input;
            c_num_filters := num_filters;
            c_filter_size := filter_size;
            c_stride := stride;
            c_padding := (filter_size - 1) `div` 2;
            c_groups := Some groups;
            c_act := None;
            c_param_attr := {| pa_name := Some (_name +:+ "_weights");
                               pa_initializer := None;
                               learning_rate := 1%Q;
                               regularizer := None |};
            c_bias_attr := None;
            c_name := _name +:+ ".conv2d.output.1" |}
         offset mask 1 1);
  let bn_name := fix_conv_norm_name (na self) name in
  let bn_name := with_prefix self bn_name in
  let norm_lr := if freeze_norm self then 0%Q else lr_mult in
  let norm_decay := norm_decay self in
  let regularizer :=
    match num_classes self with
    | Some n => if n =? 0 then Some norm_decay else None
    | None => Some norm_decay
    end in
  let pattr := {| pa_name := Some (bn_name +:+ "_scale");
                  pa_initializer := None;
                  learning_rate := norm_lr;
                  regularizer := regularizer |} in
  let battr := {| pa_name := Some (bn_name +:+ "_offset");
                  pa_initializer := None;
                  learning_rate := norm_lr;
                  regularizer := regularizer |} in
  '(out, scale, bias) ←
    (if py_in (norm_type self) ["bn"; "sync_bn"] then
       let global_stats := if freeze_norm self then true else false in
       out ← fluid_batch_norm
               {| bn_input := conv;
                  bn_act := act;
                  bn_name := bn_name +:+ ".output.1";
                  bn_param_attr := pattr;
                  bn_bias_attr := battr;
                  bn_moving_mean_name := bn_name +:+ "_mean";
                  bn_moving_variance_name := bn_name +:+ "_variance";
                  bn_use_global_stats := global_stats |};
       (* [_get_var(pattr.name)], [_get_var(battr.name)] *)
       mret (out, pattr, battr)
     else if String.eqb (norm_type self) "affine_channel" then
       scale ← fluid_create_parameter [shape1 conv] pattr (Constant 1%Q);
       bias ← fluid_create_parameter [shape1 conv] battr (Constant 0%Q);
       out ← fluid_affine_channel conv scale bias act;
       mret (out, scale, bias)
     else
       raise (UnboundLocalError (if freeze_norm self then "scale" else "out")));
  (if freeze_norm self then
     emit (set_stop_gradient (OfParam scale));;
     emit (set_stop_gradient (OfParam bias))
   else mret tt);;
  mret out.

Definition getattr {A} (attribute : option A) (default : A) : A :=
  match attribute with
  | Some v => v
  | None => default
  end.

Definition _shortcut (self : ResNet) (input : TensorVar) (ch_out stride : Z)
    (is_first : bool) (name : string) : M TensorVar :=
  let max_pooling_in_short_cut := String.eqb (variant self) "d" in
  let ch_in := shape1 input in
  let name := fix_shortcut_name (na self) name in
  let std_senet := getattr (std_senet self) false in
  if negb (ch_in =? ch_out) || negb (stride =? 1)
     || ((layers self <? 50) && is_first) then
    if std_senet then
      if is_first then _conv_norm self input ch_out 1 stride 1 None name false
      else _conv_norm self input ch_out 3 stride 1 None name false
    else if max_pooling_in_short_cut && negb is_first then
      input ← fluid_pool2d {| p_input := input;
                              p_pool_size := Some 2;
                              p_pool_stride := Some 2;
                              p_pool_padding := Some 0;
                              p_ceil_mode := true;
                              p_pool_type := "avg";
                              p_global_pooling := false |};
      _conv_norm self input ch_out 1 1 1 None name false
    else _conv_norm self input ch_out 1 stride 1 None name false
  else mret input.

Definition bottleneck (self : ResNet) (input : TensorVar)
    (num_filters stride : Z) (is_first : bool) (name : string)
    (dcn_v2 gcb : bool) (gcb_name : string) : M TensorVar :=
  let '(stride1, stride2) :=
    if String.eqb (variant self) "a" then (stride, 1) else (1, stride) in
  let groups := getattr (groups self) 1 in
  let group_width := getattr (group_width self) (-1) in
  let '(num_filters, expand) :=
    if groups =? 1 then (num_filters, 4)
    else if groups * group_width =? 256 then (num_filters, 1)
    else (num_filters `div` 2, 2) in
  let '(conv_name1, conv_name2, conv_name3, shortcut_name) :=
    fix_bottleneck_name (na self) name in
  let std_senet := getattr (std_senet self) false in
  let conv_def :=
    if std_senet then
      [(num_filters `quot` 2, 1, stride1, Some "relu", 1, conv_name1);
       (num_filters, 3, stride2, Some "relu", groups, conv_name2);
       (num_filters * expand, 1, 1, None, 1, conv_name3)]
    else
      [(num_filters, 1, stride1, Some "relu", 1, conv_name1);
       (num_filters, 3, stride2, Some "relu", groups, conv_name2);
       (num_filters * expand, 1, 1, None, 1, conv_name3)] in
  residual ← for_each (enumerate conv_def)
    (λ '(i, (c, k, s, act, g, _name)) residual,
       _conv_norm self residual c k s g act _name ((i =? 1) && dcn_v2))
    input;
  short ← _shortcut self input (num_filters * expand) stride is_first
            shortcut_name;
  residual ←
    match _squeeze_excitation self with
    | Some se => se residual num_filters ("fc" +:+ name)
    | None => mret residual
    end;
  residual ← (if gcb then add_gc_block else mret residual);
  fluid_elementwise_add short residual (Some "relu")
    (Some (name +:+ ".add.output.5")).

Definition basicblock (self : ResNet) (input : TensorVar)
    (num_filters stride : Z) (is_first : bool) (name : string)
    (dcn_v2 gcb : bool) (gcb_name : string) : M TensorVar :=
  assert (negb dcn_v2);;
  assert (negb gcb);;
  conv0 ← _conv_norm self input num_filters 3 stride 1 (Some "relu")
            (name +:+ "_branch2a") false;
  conv1 ← _conv_norm self conv0 num_filters 3 1 1 None
            (name +:+ "_branch2b") false;
  short ← _shortcut self input num_filters stride is_first
            (name +:+ "_branch1");
  fluid_elementwise_add short conv1 (Some "relu") None.

Definition call_block (f : block_func) :=
  match f with
  | self_basicblock => basicblock
  | self_bottleneck => bottleneck
  end.

Definition layer_warp (self : ResNet) (input : TensorVar) (stage_num : Z)
  : M TensorVar :=
  assert (py_in stage_num [2; 3; 4; 5]);;
  '(stages, block_func) ← lift (dict_getitem (layers_cfg self) (layers self));
  count ← lift (getitem stages (stage_num - 2));
  ch_out ← lift (getitem (stage_filters self) (stage_num - 2));
  let is_first := if negb (stage_num =? 2) then false else true in
  let dcn_v2 := if py_in stage_num (dcn_v2_stages self) then true else false in
  nonlocal_mod ←
    (if py_in stage_num (nonlocal_stages self) then
       if stage_num =? 4
       then lift (dict_getitem (nonlocal_mod_cfg self) (layers self))
       else mret 2
     else mret 1000);
  '(conv, _) ← for_each (range 0 count)
    (λ i '(conv, is_first),
       let conv_name := fix_layer_warp_name (na self) stage_num count i in
       let is_first :=
         if layers self <? 50
         then (if (i =? 0) && (stage_num =? 2) then true else false)
         else is_first in
       let gcb := py_in stage_num (gcb_stages self) in
       let gcb_name := "gcb_res" +:+ pretty stage_num +:+ "_b" +:+ pretty i in
       conv ← call_block block_func self conv ch_out
                (if (i =? 0) && negb (stage_num =? 2) then 2 else 1)
                is_first conv_name dcn_v2 gcb gcb_name;
       let dim_in := shape1 conv in
       let nonlocal_name := "nonlocal_conv" +:+ pretty stage_num in
       conv ← (if i `mod` nonlocal_mod =? nonlocal_mod - 1
               then add_space_nonlocal
               else mret conv);
       mret (conv, is_first))
    (input, is_first);
  mret conv.

Definition c1_stage (self : ResNet) (input : TensorVar) : M TensorVar :=
  let out_chan := _c1_out_chan_num self in
  let conv1_name := fix_c1_stage_name (na self) in
  let conv_def :=
    if py_in (variant self) ["c"; "d"] then
      [(out_chan `div` 2, 3, 2, "conv1_1");
       (out_chan `div` 2, 3, 1, "conv1_2");
       (out_chan, 3, 1, "conv1_3")]
    else [(out_chan, 7, 2, conv1_name)] in
  input ← for_each conv_def
    (λ '(c, k, s, _name) input,
       _conv_norm self input c k s 1 (Some "relu") _name false)
    input;
  fluid_pool2d {| p_input := input;
                  p_pool_size := Some 3;
                  p_pool_stride := Some 2;
                  p_pool_padding := Some 1;
                  p_ceil_mode := false;
                  p_pool_type := "max";
                  p_global_pooling := false |}.

(** What [__call__] returns: the [OrderedDict] of endpoints, or the output
    of the classification head. *)
Inductive call_result :=
| Endpoints (d : list (string * TensorVar))
| HeadOutput (out : TensorVar).

(** The body of the loop over stages in [__call__]. *)
Definition build_stage (self : ResNet) (i : Z)
    (acc : TensorVar * list TensorVar) : M (TensorVar * list TensorVar) :=
  let '(res, res_endpoints) := acc in
  incr_curr_stage;;
  res ← layer_warp self res i;
  let res_endpoints :=
    if py_in i (feature_maps self) then res_endpoints ++ [res]
    else res_endpoints in
  (if freeze_at self >=? i
   then emit (set_stop_gradient (OfVar res)) else mret tt);;
  mret (res, res_endpoints).

Definition __call__ (self : ResNet) (input : TensorVar) : M call_result :=
  assert (forallb (λ x, py_in x [1; 2; 3; 4; 5]) (feature_maps self));;
  let res_endpoints := [] in
  let res := input in
  let severed_head := getattr (severed_head self) false in
  '(res, feature_maps') ←
    (if negb severed_head then
       res ← c1_stage self res;
       m ← lift (py_max (feature_maps self));
       mret (res, range 2 (m + 1))
     else mret (res, feature_maps self));
  '(res, res_endpoints) ←
    for_each feature_maps' (build_stage self) (res, res_endpoints);
  match num_classes self with
  | Some n =>
      pool ← fluid_pool2d {| p_input := res;
                             p_pool_size := None;
                             p_pool_stride := None;
                             p_pool_padding := None;
                             p_ceil_mode := false;
                             p_pool_type := "avg";
                             p_global_pooling := true |};
      out ← fluid_fc pool n {| pa_name := None;
                               pa_initializer :=
                                 Some (UniformInvSqrt (shape1 pool));
                               learning_rate := 1%Q;
                               regularizer := None |};
      mret (HeadOutput out)
  | None =>
      pairs ← for_each (enumerate res_endpoints)
        (λ '(idx, feat) pairs,
           fm ← lift (getitem (feature_maps self) idx);
           mret (pairs ++ [(res_sum_key fm, feat)]))
        [];
      mret (Endpoints (OrderedDict pairs))
  end.

(** [self.severed_head = v] *)
Definition set_severed_head (self : ResNet) (v : bool) : ResNet :=
  {| layers := layers self;
     freeze_at := freeze_at self;
     norm_type := norm_type self;
     norm_decay := norm_decay self;
     freeze_norm := freeze_norm self;
     variant := variant self;
     _model_type := _model_type self;
     feature_maps := feature_maps self;
     dcn_v2_stages := dcn_v2_stages self;
     layers_cfg := layers_cfg self;
     stage_filters := stage_filters self;
     _c1_out_chan_num := _c1_out_chan_num self;
     na := na self;
     prefix_name := prefix_name self;
     nonlocal_stages := nonlocal_stages self;
     nonlocal_mod_cfg := nonlocal_mod_cfg self;
     gcb_stages := gcb_stages self;
     gcb_params := gcb_params self;
     num_classes := num_classes self;
     lr_mult_list := lr_mult_list self;
     groups := groups self;
     group_width := group_width self;
     std_senet := std_senet self;
     _squeeze_excitation := _squeeze_excitation self;
     severed_head := Some v |}.

(** [ResNetC5.__init__]: the parent's constructor with seven positional
    arguments, then [self.severed_head = True]. *)
Definition ResNetC5__init__ (adapter : NameAdapter) (layers freeze_at : Z)
    (norm_type : string) (freeze_norm : bool) (norm_decay : Q)
    (variant : string) (feature_maps : int_or_list)
    (weight_prefix_name : string) : result ResNet :=
  match ResNet__init__ adapter
          {| a_layers := layers;
             a_freeze_at := freeze_at;
             a_norm_type := norm_type;
             a_freeze_norm := freeze_norm;
             a_norm_decay := norm_decay;
             a_variant := variant;
             a_feature_maps := feature_maps;
             a_dcn_v2_stages := [];
             a_weight_prefix_name := "";
             a_nonlocal_stages := [];
             a_gcb_stages := [];
             a_gcb_params := [];
             a_num_classes := None;
             a_lr_mult_list := [1; 1; 1; 1; 1]%Q |} with
  | Raise e => Raise e
  | Ok self => Ok (set_severed_head self true)
  end.

(** ** Views of the call log *)

(** The convolutions of the backbone proper: [conv2d] without bias and
    [deformable_conv] (flag [true]), each with its arguments and output.
    The only [conv2d] with a bias is the offset predictor of
    [_conv_offset]. *)
Definition convs (evs : list event) : list (bool * conv_args * TensorVar) :=
  omap (λ e, match e with
             | conv2d a out =>
                 match c_bias_attr a with
                 | None => Some (false, a, out)
                 | Some _ => None
                 end
             | deformable_conv a _ _ _ _ out => Some (true, a, out)
             | _ => None
             end) evs.

(** The offset predictors ([conv2d] with a bias). *)
Definition offset_convs (evs : list event) : list (conv_args * TensorVar) :=
  omap (λ e, match e with
             | conv2d a out =>
                 match c_bias_attr a with
                 | None => None
                 | Some _ => Some (a, out)
                 end
             | _ => None
             end) evs.

(** The normalization layers: input, scale and bias attributes, output. *)
Definition norms (evs : list event)
  : list (TensorVar * ParamAttr * ParamAttr * TensorVar) :=
  omap (λ e, match e with
             | batch_norm a out =>
                 Some (bn_input a, bn_param_attr a, bn_bias_attr a, out)
             | affine_channel x scale bias _ out => Some (x, scale, bias, out)
             | _ => None
             end) evs.

Definition pools (evs : list event) : list (pool_args * TensorVar) :=
  omap (λ e, match e with pool2d a out => Some (a, out) | _ => None end) evs.

(** The residual additions: shortcut, residual branch, output. *)
Definition adds (evs : list event) : list (TensorVar * TensorVar * TensorVar) :=
  omap (λ e, match e with
             | elementwise_add x y _ _ out => Some (x, y, out)
             | _ => None
             end) evs.

(** Tensors and parameters assigned [stop_gradient = True]. *)
Definition frozen_vars (evs : list event) : list TensorVar :=
  omap (λ e, match e with set_stop_gradient (OfVar v) => Some v | _ => None end)
       evs.

Definition frozen_params (evs : list event) : list ParamAttr :=
  omap (λ e, match e with
             | set_stop_gradient (OfParam p) => Some p
             | _ => None
             end) evs.

(** ** Specifications

    What a run returns and logs, method by method. *)

(** [returns m st P]: from [st], [m] returns normally, and its value, final
    state and log satisfy [P]. *)
Definition returns {A} (m : M A) (st : state)
    (P : A → state → list event → Prop) : Prop :=
  match m st with
  | Ok (a, st', evs) => P a st' evs
  | Raise _ => False
  end.

(** [v] was created between [st] and [st']. *)
Definition fresh_in (st st' : state) (v : TensorVar) : Prop :=
  (next_var st ≤ var_id v < next_var st')%nat.

(** The instance passes the constructor's check of [norm_type]. *)
Definition norm_type_ok (self : ResNet) : Prop :=
  norm_type self ∈ ["bn"; "sync_bn"; "affine_channel"].

(** What one [_conv_norm] call leaves in the log: one convolution and one
    normalization of its output. *)
Definition conv_norm_log (self : ResNet) (input : TensorVar)
    (num_filters filter_size stride : Z) (dcn_v2 : bool) (lr_mult : Q)
    (out : TensorVar) (evs : list event) : Prop :=
  ∃ a cout pattr battr,
    convs evs = [(dcn_v2, a, cout)] ∧
    c_input a = input ∧ c_num_filters a = num_filters ∧
    c_filter_size a = filter_size ∧ c_stride a = stride ∧
    c_padding a = (filter_size - 1) `div` 2 ∧
    learning_rate (c_param_attr a) = (if dcn_v2 then 1%Q else lr_mult) ∧
    length (offset_convs evs) = (if dcn_v2 then 1%nat else 0%nat) ∧
    norms evs = [(cout, pattr, battr, out)] ∧
    learning_rate pattr = (if freeze_norm self then 0%Q else lr_mult) ∧
    learning_rate battr = (if freeze_norm self then 0%Q else lr_mult) ∧
    frozen_params evs = (if freeze_norm self then [pattr; battr] else []) ∧
    pools evs = [] ∧ adds evs = [] ∧ frozen_vars evs = [].

(** An instance of [ResNet] proper: none of the attributes that only
    subclasses define, and the tables and checked fields as the constructor
    leaves them. *)
Record constructed (self : ResNet) : Prop := {
  ok_layers : layers self ∈ [18; 34; 50; 101; 152; 200];
  ok_variant : variant self ∈ ["a"; "b"; "c"; "d"];
  ok_freeze_at : 0 ≤ freeze_at self ≤ 5;
  ok_feature_maps : feature_maps self ≠ [];
  ok_norm_type : norm_type_ok self;
  ok_nonlocal : layers self < 50 → nonlocal_stages self = [];
  ok_lr_mult_list : length (lr_mult_list self) = 5%nat;
  ok_layers_cfg : layers_cfg self = the_layers_cfg;
  ok_stage_filters : stage_filters self = [64; 128; 256; 512];
  ok_c1_out_chan_num : _c1_out_chan_num self = 64;
  ok_nonlocal_mod_cfg : nonlocal_mod_cfg self = the_nonlocal_mod_cfg;
  ok_groups : groups self = None;
  ok_group_width : group_width self = None;
  ok_std_senet : std_senet self = None;
  ok_squeeze_excitation : _squeeze_excitation self = None
}.

(** The average pool that variant 'd' puts before a projection. *)
Definition shortcut_pool (input : TensorVar) : pool_args :=
  {| p_input := input;
     p_pool_size := Some 2;
     p_pool_stride := Some 2;
     p_pool_padding := Some 0;
     p_ceil_mode := true;
     p_pool_type := "avg";
     p_global_pooling := false |}.

(** The test of [_shortcut]: is a projection built, or the input returned? *)
Definition projects (self : ResNet) (input : TensorVar) (ch_out stride : Z)
    (is_first : bool) : bool :=
  negb (shape1 input =? ch_out) || negb (stride =? 1)
  || ((layers self <? 50) && is_first).

(** The log of one [_shortcut] call on an instance without [std_senet]. *)
Definition shortcut_log (self : ResNet) (input : TensorVar) (ch_out stride : Z)
    (is_first : bool) (lr_mult : Q) (out : TensorVar) (evs : list event)
  : Prop :=
  if projects self input ch_out stride is_first then
    if String.eqb (variant self) "d" && negb is_first then
      ∃ pooled evs',
        evs = pool2d (shortcut_pool input) pooled :: evs' ∧
        shape1 pooled = shape1 input ∧
        conv_norm_log self pooled ch_out 1 1 false lr_mult out evs'
    else conv_norm_log self input ch_out 1 stride false lr_mult out evs
  else evs = [] ∧ out = input.

(** The log of one [bottleneck] call on an instance of [ResNet] proper
    ([groups] absent, hence expansion 4): three conv-norm layers, the
    shortcut, and the residual addition. *)
Definition bottleneck_log (self : ResNet) (input : TensorVar)
    (num_filters stride : Z) (is_first dcn_v2 : bool) (lr_mult : Q)
    (out : TensorVar) (evs : list event) : Prop :=
  let stride1 := if String.eqb (variant self) "a" then stride else 1 in
  let stride2 := if String.eqb (variant self) "a" then 1 else stride in
  ∃ r1 r2 r3 short e1 e2 e3 esc act name,
    evs = e1 ++ e2 ++ e3 ++ esc ++ [elementwise_add short r3 act name out] ∧
    conv_norm_log self input num_filters 1 stride1 false lr_mult r1 e1 ∧
    conv_norm_log self r1 num_filters 3 stride2 dcn_v2 lr_mult r2 e2 ∧
    conv_norm_log self r2 (num_filters * 4) 1 1 false lr_mult r3 e3 ∧
    shortcut_log self input (num_filters * 4) stride is_first lr_mult
      short esc ∧
    adds esc = [] ∧ frozen_vars esc = [].

(** The log of one [basicblock] call. *)
Definition basicblock_log (self : ResNet) (input : TensorVar)
    (num_filters stride : Z) (is_first : bool) (lr_mult : Q)
    (out : TensorVar) (evs : list event) : Prop :=
  ∃ c0 c1 short e0 e1 esc act name,
    evs = e0 ++ e1 ++ esc ++ [elementwise_add short c1 act name out] ∧
    conv_norm_log self input num_filters 3 stride false lr_mult c0 e0 ∧
    conv_norm_log self c0 num_filters 3 1 false lr_mult c1 e1 ∧
    shortcut_log self input num_filters stride is_first lr_mult short esc ∧
    adds esc = [] ∧ frozen_vars esc = [].

Definition block_log (f : block_func) (self : ResNet) (input : TensorVar)
    (num_filters stride : Z) (is_first dcn_v2 : bool) (lr_mult : Q)
    (out : TensorVar) (evs : list event) : Prop :=
  match f with
  | self_basicblock =>
      dcn_v2 = false ∧
      basicblock_log self input num_filters stride is_first lr_mult out evs
  | self_bottleneck =>
      bottleneck_log self input num_filters stride is_first dcn_v2 lr_mult
        out evs
  end.

(** Output channels of a block, relative to its [num_filters]. *)
Definition expansion (f : block_func) : Z :=
  match f with
  | self_basicblock => 1
  | self_bottleneck => 4
  end.

(** The log of a stage: [n] consecutive blocks of kind [f], each built with
    [nf] filters, each taking the output of the one before. *)
Inductive stage_log (self : ResNet) (f : block_func) (nf : Z) (dcn_v2 : bool)
    (lr_mult : Q) (x : TensorVar)
  : nat → TensorVar → list event → Prop :=
| stage_log_nil : stage_log self f nf dcn_v2 lr_mult x 0 x []
| stage_log_snoc n y ev1 stride is_first z ev2 :
    stage_log self f nf dcn_v2 lr_mult x n y ev1 →
    block_log f self y nf stride is_first dcn_v2 lr_mult z ev2 →
    stage_log self f nf dcn_v2 lr_mult x (S n) z (ev1 ++ ev2).

(** A stage that [layer_warp] can build: none of the requests that a block
    rejects or that reach an unbound helper. *)
Definition buildable (self : ResNet) (i : Z) : Prop :=
  i ∈ [2; 3; 4; 5] ∧ (i ∉ gcb_stages self) ∧ (i ∉ nonlocal_stages self) ∧
  (layers self < 50 → i ∉ dcn_v2_stages self).

(** The log of [layer_warp] for stage [i]: the blocks that the tables
    prescribe for the stage, from [input] to [out]. *)
Definition built_stage (self : ResNet) (i : Z) (lr_mult : Q)
    (input out : TensorVar) (evs : list event) : Prop :=
  ∃ sched kind count nf,
    layers_cfg self !! layers self = Some (sched, kind) ∧
    getitem sched (i - 2) = Ok count ∧
    getitem (stage_filters self) (i - 2) = Ok nf ∧
    shape1 out = nf * expansion kind ∧
    stage_log self kind nf (py_in i (dcn_v2_stages self)) lr_mult input
      (Z.to_nat count) out evs.

Definition layer_warp_post (self : ResNet) (input : TensorVar) (i : Z)
    (lr_mult : Q) (st : state) (out : TensorVar) (st' : state)
    (evs : list event) : Prop :=
  curr_stage st' = curr_stage st ∧ fresh_in st st' out ∧
  frozen_vars evs = [] ∧ built_stage self i lr_mult input out evs.

(** The max pool that ends the stem. *)
Definition stem_pool (input : TensorVar) : pool_args :=
  {| p_input := input;
     p_pool_size := Some 3;
     p_pool_stride := Some 2;
     p_pool_padding := Some 1;
     p_ceil_mode := false;
     p_pool_type := "max";
     p_global_pooling := false |}.

(** The log of [c1_stage]. *)
Definition c1_log (self : ResNet) (input : TensorVar) (lr_mult : Q)
    (out : TensorVar) (evs : list event) : Prop :=
  if py_in (variant self) ["c"; "d"] then
    ∃ x1 x2 x3 e1 e2 e3,
      evs = e1 ++ e2 ++ e3 ++ [pool2d (stem_pool x3) out] ∧
      conv_norm_log self input 32 3 2 false lr_mult x1 e1 ∧
      conv_norm_log self x1 32 3 1 false lr_mult x2 e2 ∧
      conv_norm_log self x2 64 3 1 false lr_mult x3 e3
  else
    ∃ x1 e1,
      evs = e1 ++ [pool2d (stem_pool x1) out] ∧
      conv_norm_log self input 64 7 2 false lr_mult x1 e1.

(** The log of the loop over stages in [__call__], started with
    [self.curr_stage = cs] on the tensor [x]: the stages built so far, each
    with its output, and the assignments of [stop_gradient]. *)
Inductive stages_log (self : ResNet) (x : TensorVar) (cs : nat)
  : list (Z * TensorVar) → TensorVar → list event → Prop :=
| stages_log_nil : stages_log self x cs [] x []
| stages_log_snoc outs y ev1 i lr_mult z ev2 :
    stages_log self x cs outs y ev1 →
    lr_mult_list self !! (cs + S (length outs))%nat = Some lr_mult →
    built_stage self i lr_mult y z ev2 →
    frozen_vars ev2 = [] →
    stages_log self x cs (outs ++ [(i, z)]) z
      (ev1 ++ ev2 ++
       (if freeze_at self >=? i then [set_stop_gradient (OfVar z)] else [])).

(** The stages among [outs] whose output is an endpoint. *)
Definition endpoints_of (self : ResNet) (outs : list (Z * TensorVar))
  : list (Z * TensorVar) :=
  filter (λ p, p.1 ∈ feature_maps self) outs.

(** The key of each endpoint: position by position from [feature_maps]. *)
Definition keyed (fm : list Z) (eps : list TensorVar)
  : list (string * TensorVar) :=
  zip_with (λ i v, (res_sum_key i, v)) fm eps.

(** The global average pool and the parameter attribute of the
    classification head. *)
Definition head_pool (input : TensorVar) : pool_args :=
  {| p_input := input;
     p_pool_size := None;
     p_pool_stride := None;
     p_pool_padding := None;
     p_ceil_mode := false;
     p_pool_type := "avg";
     p_global_pooling := true |}.

Definition head_attr (pool : TensorVar) : ParamAttr :=
  {| pa_name := None;
     pa_initializer := Some (UniformInvSqrt (shape1 pool));
     learning_rate := 1%Q;
     regularizer := None |}.

(** What a call on a new instance needs to return normally: the stage
    indices pass the check of [__call__], and every stage from 2 to the
    largest requested one is buildable. *)
Definition callable (self : ResNet) : Prop :=
  Forall (λ i, i ∈ [1; 2; 3; 4; 5]) (feature_maps self) ∧
  ∀ i j, j ∈ feature_maps self → 2 ≤ i ≤ j → buildable self i.

(** The result and the log of a call of a new instance, non-severed head:
    the stem, the stages 2 to [max(feature_maps)] with their outputs
    [outs], then the selection of the output. *)
Definition call_post (self : ResNet) (input : TensorVar) (st : state)
    (r : call_result) (st' : state) (evs : list event) : Prop :=
  ∃ m lr0 c1out ev_c1 outs res ev_st ev_head,
    py_max (feature_maps self) = Ok m ∧
    lr_mult_list self !! 0%nat = Some lr0 ∧
    c1_log self input lr0 c1out ev_c1 ∧
    outs.*1 = range 2 (m + 1) ∧
    stages_log self c1out 0 outs res ev_st ∧
    NoDup outs.*2 ∧
    evs = ev_c1 ++ ev_st ++ ev_head ∧
    curr_stage st' = length outs ∧
    match num_classes self with
    | None =>
        ev_head = [] ∧
        r = Endpoints (OrderedDict
              (keyed (feature_maps self) (endpoints_of self outs).*2))
    | Some n =>
        ∃ pool out,
          ev_head = [pool2d (head_pool res) pool;
                     fc pool n (head_attr pool) out] ∧
          r = HeadOutput out
    end.

(** ** The constructor's checks *)

(** [feature_maps] after the constructor has wrapped a single integer. *)
Definition feature_maps_of (a : Args) : list Z :=
  match a_feature_maps a with
  | AnInt n => [n]
  | AList l => l
  end.

(** The invalid configurations. *)
Definition invalid_args (a : Args) : Prop :=
  a_layers a ∉ [18; 34; 50; 101; 152; 200] ∨
  a_variant a ∉ ["a"; "b"; "c"; "d"] ∨
  ¬ (0 ≤ a_freeze_at a ≤ 5) ∨
  feature_maps_of a = [] ∨
  a_norm_type a ∉ ["bn"; "sync_bn"; "affine_channel"] ∨
  length (a_lr_mult_list a) ≠ 5%nat ∨
  (a_nonlocal_stages a ≠ [] ∧ a_layers a < 50).

Ltac init_fails tac :=
  simpl; split;
  [split; [intros _; tac | done]
  |split; [intros Hn; exfalso; apply Hn; tac | by intros e [= <-]]].

(** Closes a decidable goal about concrete data by evaluation. *)
Ltac by_decide := apply (bool_decide_unpack _); vm_compute; exact I.

(** ** Concrete configurations

    Used to run the builder; the theorems hold for every name adapter, input
    tensor and handle counter. *)

(** A name adapter in the style of the pretrained ResNet weights. *)
Definition sample_adapter : NameAdapter :=
  {| fix_conv_norm_name := λ name,
       if String.eqb name "conv1" then "bn_" +:+ name
       else "bn" +:+ String.substring 3 (String.length name - 3) name;
     fix_shortcut_name := λ name, name;
     fix_bottleneck_name := λ name,
       (name +:+ "_branch2a", name +:+ "_branch2b", name +:+ "_branch2c",
        name +:+ "_branch1");
     fix_layer_warp_name := λ stage_num count i,
       "res" +:+ pretty stage_num +:+ "_" +:+ pretty i;
     fix_c1_stage_name := "conv1" |}.

(** The default arguments of [ResNet.__init__]. *)
Definition default_args : Args :=
  {| a_layers := 50;
     a_freeze_at := 0;
     a_norm_type := "bn";
     a_freeze_norm := false;
     a_norm_decay := 0%Q;
     a_variant := "b";
     a_feature_maps := AList [2; 3; 4; 5];
     a_dcn_v2_stages := [];
     a_weight_prefix_name := "";
     a_nonlocal_stages := [];
     a_gcb_stages := [];
     a_gcb_params := [];
     a_num_classes := None;
     a_lr_mult_list := [1; 1; 1; 1; 1]%Q |}.

(** The default arguments with some of them replaced. *)
Definition with_args (layers : Z) (variant : string) (feature_maps : list Z)
    (dcn_v2_stages : list Z) (num_classes : option Z) (lr_mult_list : list Q)
  : Args :=
  {| a_layers := layers;
     a_freeze_at := 0;
     a_norm_type := "bn";
     a_freeze_norm := false;
     a_norm_decay := 0%Q;
     a_variant := variant;
     a_feature_maps := AList feature_maps;
     a_dcn_v2_stages := dcn_v2_stages;
     a_weight_prefix_name := "";
     a_nonlocal_stages := [];
     a_gcb_stages := [];
     a_gcb_params := [];
     a_num_classes := num_classes;
     a_lr_mult_list := lr_mult_list |}.

(** The instance that [ResNet(...)] leaves for these arguments. *)
Definition instance_of (a : Args) : ResNet :=
  init_attributes sample_adapter a (feature_maps_of a).

(** An input image tensor (3 channels), and the state of a new instance
    when the framework has handed out one handle. *)
Definition image : TensorVar := {| var_id := 0; shape1 := 3 |}.

Definition new_state : state := new_instance_state 1.

(** ** The stem *)

(** What [c1_stage] returns and logs, variant by variant. *)
Definition c1_stage_post (self : ResNet) (input : TensorVar) (st : state)
    (out : TensorVar) (evs : list event) : Prop :=
  ∃ lr_mult,
    lr_mult_list self !! curr_stage st = Some lr_mult ∧
    (variant self ∈ ["c"; "d"] →
     ∃ x1 x2 x3 e1 e2 e3,
       evs = e1 ++ e2 ++ e3 ++ [pool2d (stem_pool x3) out] ∧
       conv_norm_log self input 32 3 2 false lr_mult x1 e1 ∧
       conv_norm_log self x1 32 3 1 false lr_mult x2 e2 ∧
       conv_norm_log self x2 64 3 1 false lr_mult x3 e3) ∧
    (variant self ∈ ["a"; "b"] →
     ∃ x1 e1,
       evs = e1 ++ [pool2d (stem_pool x1) out] ∧
       conv_norm_log self input 64 7 2 false lr_mult x1 e1) ∧
    p_pool_type (stem_pool out) = "max" ∧
    p_pool_size (stem_pool out) = Some 3 ∧
    p_pool_stride (stem_pool out) = Some 2 ∧
    p_pool_padding (stem_pool out) = Some 1.

(** ** Stride placement and the projection shortcut *)

(** What [bottleneck] logs: the down-sampling stride sits on the first 1x1
    convolution for variant 'a' and on the 3x3 convolution otherwise. *)
Definition bottleneck_post (self : ResNet) (input : TensorVar)
    (num_filters stride : Z) (dcn_v2 : bool) (st : state) (out : TensorVar)
    (evs : list event) : Prop :=
  ∃ lr_mult stride1 stride2 r1 r2 r3 short e1 e2 e3 esc act name,
    lr_mult_list self !! curr_stage st = Some lr_mult ∧
    (variant self = "a" → stride1 = stride ∧ stride2 = 1) ∧
    (variant self ∈ ["b"; "c"; "d"] → stride1 = 1 ∧ stride2 = stride) ∧
    evs = e1 ++ e2 ++ e3 ++ esc ++ [elementwise_add short r3 act name out] ∧
    conv_norm_log self input num_filters 1 stride1 false lr_mult r1 e1 ∧
    conv_norm_log self r1 num_filters 3 stride2 dcn_v2 lr_mult r2 e2 ∧
    conv_norm_log self r2 (num_filters * 4) 1 1 false lr_mult r3 e3.

(** What [_shortcut] logs when it builds a projection. *)
Definition shortcut_post (self : ResNet) (input : TensorVar) (ch_out stride : Z)
    (is_first : bool) (st : state) (out : TensorVar) (evs : list event)
  : Prop :=
  ∃ lr_mult,
    lr_mult_list self !! curr_stage st = Some lr_mult ∧
    (variant self = "d" → is_first = false →
     ∃ pooled evs',
       evs = pool2d (shortcut_pool input) pooled :: evs' ∧
       p_pool_type (shortcut_pool input) = "avg" ∧
       p_pool_size (shortcut_pool input) = Some 2 ∧
       p_pool_stride (shortcut_pool input) = Some 2 ∧
       conv_norm_log self pooled ch_out 1 1 false lr_mult out evs') ∧
    (variant self ≠ "d" →
     conv_norm_log self input ch_out 1 stride false lr_mult out evs).

(** ** Configuration resolution *)

(** What [layer_warp] logs for stage [i]: as many blocks as the schedule of
    the instance's layer count gives for the stage, of the kind the table
    selects, each built with the stage's filter count. *)
Definition layer_warp_blocks (self : ResNet) (input : TensorVar) (i : Z)
    (st : state) (out : TensorVar) (evs : list event) : Prop :=
  ∃ lr_mult sched kind count nf,
    lr_mult_list self !! curr_stage st = Some lr_mult ∧
    layers_cfg self !! layers self = Some (sched, kind) ∧
    getitem sched (i - 2) = Ok count ∧
    getitem (stage_filters self) (i - 2) = Ok nf ∧
    stage_log self kind nf (py_in i (dcn_v2_stages self)) lr_mult input
      (Z.to_nat count) out evs ∧
    length (adds evs) = Z.to_nat count ∧
    shape1 out = nf * expansion kind.

(** ** Auxiliary blocks *)

Definition is_3x3 (c : bool * conv_args * TensorVar) : bool :=
  c_filter_size c.1.2 =? 3.

(** Deformable convolutions in a log of [n] bottleneck blocks: a
    convolution is deformable exactly if it is a 3x3 one and [dcn_v2] is
    set; there is one 3x3 convolution per block, and one offset predictor
    per deformable convolution. *)
Definition dcn_placed (dcn_v2 : bool) (n : nat) (evs : list event) : Prop :=
  Forall (λ c, c.1.1 = is_3x3 c && dcn_v2) (convs evs) ∧
  length (filter (λ c, is_3x3 c = true) (convs evs)) = n ∧
  length (offset_convs evs) = if dcn_v2 then n else 0%nat.

(** ResNet-18 with deformable convolutions requested for stage 2. *)
Definition resnet18_dcn_args : Args :=
  with_args 18 "b" [2; 3; 4; 5] [2] None [1; 1; 1; 1; 1]%Q.

(** ResNet-50 with deformable convolutions requested for stage 4. *)
Definition resnet50_dcn_args : Args :=
  with_args 50 "b" [2; 3; 4; 5] [4] None [1; 1; 1; 1; 1]%Q.

(** What [layer_warp] logs for a stage of bottleneck blocks. *)
Definition layer_warp_dcn (self : ResNet) (i : Z) (evs : list event) : Prop :=
  ∃ sched count,
    layers_cfg self !! layers self = Some (sched, self_bottleneck) ∧
    getitem sched (i - 2) = Ok count ∧
    dcn_placed (py_in i (dcn_v2_stages self)) (Z.to_nat count) evs.

(** ** The stage counter *)

(** What the first call leaves behind, for [feature_maps = [2, 3, 4, 5]]:
    the counter at 4, from where every further call fails with an index
    error. *)
Definition first_call_post (self : ResNet) (st' : state) : Prop :=
  curr_stage st' = 4%nat ∧
  (∀ k : nat, (5 ≤ k)%nat → lr_mult_list self !! k = None) ∧
  ∀ input', __call__ self input' st' = Raise IndexError.

(** ** Output selection *)




(** ** Keys and endpoints *)




(** The example of an unsorted [feature_maps]: with [[5, 2]], the key
    'res5_sum' holds the output of stage 2 and 'res2_sum' that of
    stage 5. *)
Definition swapped_args : Args :=
  with_args 50 "b" [5; 2] [] None [1; 1; 1; 1; 1]%Q.

(** ** The call as a function *)



(** ** Learning-rate multipliers *)

(** ResNet-50 with deformable convolutions in stage 5 and a learning-rate
    multiplier of 1/2 for that stage. *)
Definition dcn_lr_args : Args :=
  with_args 50 "b" [2; 3; 4; 5] [5] None [1; 1; 1; 1; 1 # 2]%Q.

(** For each convolution of the log: is it deformable, and the learning
    rate of its weight. *)
Definition weight_learning_rates (evs : list event) : list (bool * Q) :=
  (λ c, (c.1.1, learning_rate (c_param_attr c.1.2))) <$> convs evs.

(** The learning rates of the weights of the offset predictors. *)
Definition offset_learning_rates (evs : list event) : list Q :=
  (λ c, learning_rate (c_param_attr c.1)) <$> offset_convs evs.

(** * Further properties of the builder *)

(** ** The check of [__call__] *)

(** A configuration that the constructor accepts although stage 6 does not
    exist. *)
Definition stage6_args : Args :=
  with_args 50 "b" [2; 6] [] None [1; 1; 1; 1; 1]%Q.

(** ** Stage 1 *)

(** A configuration that asks for the output of the stem only. *)
Definition stem_only_args : Args :=
  with_args 50 "b" [1] [] None [1; 1; 1; 1; 1]%Q.

(** What a call returns when [feature_maps] lists stage 1 only: the stem is
    all that is built, and the mapping is empty. *)
Definition stem_only_post (self : ResNet) (input : TensorVar) (st : state)
    (r : call_result) (st' : state) (evs : list event) : Prop :=
  r = Endpoints [] ∧ curr_stage st' = curr_stage st ∧
  adds evs = [] ∧
  ∃ lr0 c1out, lr_mult_list self !! 0%nat = Some lr0 ∧
               c1_log self input lr0 c1out evs.

(** ** Frozen stages *)

(** The log of a call, stem ([ev_c1]), stages ([ev_st], with the outputs
    [outs] of the stages 2 to [max(feature_maps)]) and head ([ev_head]),
    against the tensors that the log assigns [stop_gradient = True]: these
    are, in the order of the assignments, the outputs of the stages [i]
    with [i <= freeze_at], one assignment each, and no other tensor. *)
Definition stages_frozen (self : ResNet) (input : TensorVar)
    (evs : list event) : Prop :=
  ∃ m lr0 c1out ev_c1 outs res ev_st ev_head,
    py_max (feature_maps self) = Ok m ∧
    lr_mult_list self !! 0%nat = Some lr0 ∧
    c1_log self input lr0 c1out ev_c1 ∧
    outs.*1 = range 2 (m + 1) ∧
    stages_log self c1out 0 outs res ev_st ∧
    NoDup outs.*2 ∧
    evs = ev_c1 ++ ev_st ++ ev_head ∧
    frozen_vars ev_c1 = [] ∧ frozen_vars ev_head = [] ∧
    frozen_vars evs = (filter (λ p, p.1 ≤ freeze_at self) outs).*2 ∧
    (∀ i v, (i, v) ∈ outs → (v ∈ frozen_vars evs ↔ i ≤ freeze_at self)).

(** A configuration that freezes the stages up to 3. *)
Definition frozen_args : Args :=
  {| a_layers := 50;
     a_freeze_at := 3;
     a_norm_type := "affine_channel";
     a_freeze_norm := true;
     a_norm_decay := 0%Q;
     a_variant := "b";
     a_feature_maps := AList [2; 3; 4; 5];
     a_dcn_v2_stages := [];
     a_weight_prefix_name := "";
     a_nonlocal_stages := [];
     a_gcb_stages := [];
     a_gcb_params := [];
     a_num_classes := None;
     a_lr_mult_list := [1; 1; 1; 1; 1]%Q |}.

(** ** Learning rates and frozen normalization *)

(** The learning rates of a log built with the multiplier [lr_mult]: a
    plain convolution weight has [lr_mult], a deformable one the default 1;
    the scale and bias of a normalization layer have [lr_mult], or 0 when
    [freeze_norm] is set. *)
Definition lr_applied (self : ResNet) (lr_mult : Q) (evs : list event)
  : Prop :=
  Forall (λ c : bool * conv_args * TensorVar,
            learning_rate (c_param_attr c.1.2)
            = if c.1.1 then 1%Q else lr_mult) (convs evs) ∧
  Forall (λ n : TensorVar * ParamAttr * ParamAttr * TensorVar,
               learning_rate n.1.1.2
               = (if freeze_norm self then 0%Q else lr_mult) ∧
               learning_rate n.1.2
               = (if freeze_norm self then 0%Q else lr_mult)) (norms evs).

(** The parameters assigned [stop_gradient = True] in a log: with
    [freeze_norm], the scale and the bias of every normalization layer, in
    the order of the layers; without, none. *)
Definition norm_params_frozen (self : ResNet) (evs : list event) : Prop :=
  frozen_params evs
  = if freeze_norm self
    then flat_map (λ n : TensorVar * ParamAttr * ParamAttr * TensorVar,
                     [n.1.1.2; n.1.2]) (norms evs)
    else [].

(** The normalization layers of a whole call. *)
Definition norms_of_call (self : ResNet) (evs : list event) : Prop :=
  norm_params_frozen self evs ∧
  (freeze_norm self = true →
   Forall (λ n : TensorVar * ParamAttr * ParamAttr * TensorVar,
             learning_rate n.1.1.2 = 0%Q ∧ learning_rate n.1.2 = 0%Q)
     (norms evs)) ∧
  (freeze_norm self = false → frozen_params evs = []).



(** ** Requests that reach an unbound helper *)

(** [m] raises from [st]. *)
Definition raises {A} (m : M A) (st : state) : Prop := ∃ e, m st = Raise e.

(** What [layer_warp] raises for a stage listed in [gcb_stages]: the
    assertion of [basicblock], or the unbound name in [bottleneck]. *)
Definition gcb_error (self : ResNet) : exn :=
  if layers self <? 50 then AssertionError else NameError "add_gc_block".

(** Configurations with non-local or global-context requests. *)
Definition aux_args (layers : Z) (nonlocal_stages gcb_stages : list Z)
  : Args :=
  {| a_layers := layers;
     a_freeze_at := 2;
     a_norm_type := "affine_channel";
     a_freeze_norm := true;
     a_norm_decay := 0%Q;
     a_variant := "b";
     a_feature_maps := AList [2; 3; 4; 5];
     a_dcn_v2_stages := [];
     a_weight_prefix_name := "";
     a_nonlocal_stages := nonlocal_stages;
     a_gcb_stages := gcb_stages;
     a_gcb_params := [];
     a_num_classes := None;
     a_lr_mult_list := [1; 1; 1; 1; 1]%Q |}.

Definition gcb_args : Args := aux_args 50 [] [3].

Definition nonlocal_args : Args := aux_args 101 [4] [].

(** ** The severed head ([ResNetC5]) *)

(** The result and the log of a call of an instance with a severed head:
    no stem; the stages listed in [feature_maps], in the order of the list,
    the first one on the input itself and each next one on the output of the
    one before; every output under the key of its stage; the counter
    advanced by the number of stages. *)
Definition severed_post (self : ResNet) (input : TensorVar) (st : state)
    (r : call_result) (st' : state) (evs : list event) : Prop :=
  ∃ outs res,
    outs.*1 = feature_maps self ∧
    stages_log self input (curr_stage st) outs res evs ∧
    NoDup outs.*2 ∧
    curr_stage st' = (curr_stage st + length (feature_maps self))%nat ∧
    r = Endpoints (OrderedDict (keyed (feature_maps self) outs.*2)).

(** The arguments that [ResNetC5.__init__] hands to the parent. *)
Definition c5_args (feature_maps : list Z) : Args :=
  {| a_layers := 50;
     a_freeze_at := 2;
     a_norm_type := "affine_channel";
     a_freeze_norm := true;
     a_norm_decay := 0%Q;
     a_variant := "b";
     a_feature_maps := AList feature_maps;
     a_dcn_v2_stages := [];
     a_weight_prefix_name := "";
     a_nonlocal_stages := [];
     a_gcb_stages := [];
     a_gcb_params := [];
     a_num_classes := None;
     a_lr_mult_list := [1; 1; 1; 1; 1]%Q |}.

(** The instance [ResNetC5(feature_maps=...)], other arguments default. *)
Definition c5_instance (feature_maps : list Z) : ResNet :=
  set_severed_head (instance_of (c5_args feature_maps)) true.

(** The input of a severed head: a feature map of 1024 channels. *)
Definition roi_feat : TensorVar := {| var_id := 0; shape1 := 1024 |}.

(** ** Invariants of the log *)

(** Whenever [m] returns, its log satisfies [P]. *)
Definition yields {A} (P : list event → Prop) (m : M A) : Prop :=
  ∀ st a st' evs, m st = Ok (a, st', evs) → P evs.

(** The calls of [_conv_norm] in the module: a kernel of size 1, 3 or 7,
    stride 1 or 2, no activation or relu, and a deformable convolution
    only with a 3x3 kernel. *)
Definition conv_norm_site (k s : Z) (act : option string) (dcn : bool)
  : Prop :=
  k ∈ [1; 3; 7] ∧ s ∈ [1; 2] ∧ act ∈ [None; Some "relu"] ∧
  (dcn = true → k = 3).

(** ** Conventions of the layers *)

(** A convolution of the backbone, plain or deformable: "same" padding for
    an odd kernel of size 1, 3 or 7, stride 1 or 2, one group, no bias and
    no activation of its own (both are left to the normalization layer
    that follows), and as many output channels as filters.  The offset
    predictor of a deformable convolution is the one [conv2d] with a
    bias. *)
Definition backbone_conv (a : conv_args) (out : TensorVar) : Prop :=
  c_padding a = (c_filter_size a - 1) `div` 2 ∧
  c_filter_size a ∈ [1; 3; 7] ∧ c_stride a ∈ [1; 2] ∧
  c_groups a = Some 1 ∧ c_bias_attr a = None ∧ c_act a = None ∧
  shape1 out = c_num_filters a.

Definition conv_event_ok (e : event) : Prop :=
  match e with
  | conv2d a out => c_bias_attr a = None → backbone_conv a out
  | deformable_conv a _ _ _ _ out =>
      backbone_conv a out ∧ c_filter_size a = 3
  | _ => True
  end.

Definition is_deformable_conv (e : event) : Prop :=
  match e with
  | deformable_conv _ _ _ _ _ _ => True
  | _ => False
  end.

(** Every deformable convolution of a log comes right after its offset
    predictor, the split of the prediction and the sigmoid of the mask: the
    predictor reads the input of the deformable convolution with the same
    kernel size, stride and padding, starts from zero weights and bias, and
    gives [3 k^2] channels, of which the first [2 k^2] are the offsets and
    the last [k^2], through the sigmoid, the mask. *)
Definition dcn_wired (evs : list event) : Prop :=
  ∀ pre a offset mask dg step out post,
    evs = pre ++ deformable_conv a offset mask dg step out :: post →
    ∃ pre' p b om m0,
      pre = pre' ++ [conv2d p om;
                     split om [shape1 offset; shape1 m0] 1 offset m0;
                     sigmoid m0 mask] ∧
      c_input p = c_input a ∧ c_filter_size p = c_filter_size a ∧
      c_stride p = c_stride a ∧ c_padding p = c_padding a ∧
      c_num_filters p = 3 * c_filter_size a ^ 2 ∧
      shape1 om = c_num_filters p ∧
      shape1 offset = 2 * c_filter_size a ^ 2 ∧
      shape1 m0 = c_filter_size a ^ 2 ∧
      shape1 mask = c_filter_size a ^ 2 ∧
      pa_initializer (c_param_attr p) = Some (Constant 0%Q) ∧
      c_bias_attr p = Some b ∧ pa_initializer b = Some (Constant 0%Q) ∧
      dg = 1 ∧ step = 1.

(** The weight decay of a normalization parameter:
    [L2Decay(norm_decay)], unless [num_classes] is set and not 0. *)
Definition decayed (self : ResNet) (p : ParamAttr) : Prop :=
  (num_classes self = None ∨ num_classes self = Some 0 →
   regularizer p = Some (norm_decay self)) ∧
  (∀ n, num_classes self = Some n → n ≠ 0 → regularizer p = None).

(** A normalization layer follows the instance: [batch_norm] for the norm
    types 'bn' and 'sync_bn' alike, on global statistics exactly when
    [freeze_norm] is set; for 'affine_channel', an [affine_channel] whose
    parameters are created from 1 or from 0. *)
Definition norm_event_ok (self : ResNet) (e : event) : Prop :=
  match e with
  | batch_norm a out =>
      norm_type self ∈ ["bn"; "sync_bn"] ∧
      bn_use_global_stats a = freeze_norm self ∧
      decayed self (bn_param_attr a) ∧ decayed self (bn_bias_attr a) ∧
      shape1 out = shape1 (bn_input a)
  | create_parameter shape attr init =>
      norm_type self = "affine_channel" ∧ decayed self attr ∧
      (init = Constant 1%Q ∨ init = Constant 0%Q)
  | affine_channel x scale bias _ out =>
      norm_type self = "affine_channel" ∧
      decayed self scale ∧ decayed self bias ∧ shape1 out = shape1 x
  | _ => True
  end.

(** The parameter attributes that an event hands to the framework. *)
Definition param_attrs (e : event) : list ParamAttr :=
  match e with
  | conv2d a _ | deformable_conv a _ _ _ _ _ =>
      c_param_attr a :: match c_bias_attr a with
                        | Some b => [b]
                        | None => []
                        end
  | batch_norm a _ => [bn_param_attr a; bn_bias_attr a]
  | create_parameter _ attr _ => [attr]
  | affine_channel _ scale bias _ _ => [scale; bias]
  | set_stop_gradient (OfParam p) => [p]
  | fc _ _ attr _ => [attr]
  | _ => []
  end.

(** [name] starts with [weight_prefix_name]. *)
Definition prefixed (self : ResNet) (name : string) : Prop :=
  ∃ rest, name = prefix_name self +:+ rest.

(** Every parameter that the event names, and the moving statistics of a
    batch normalization, carry the prefix. *)
Definition names_prefixed (self : ResNet) (e : event) : Prop :=
  Forall (λ p, ∀ name, pa_name p = Some name → prefixed self name)
    (param_attrs e) ∧
  match e with
  | batch_norm a _ =>
      prefixed self (bn_moving_mean_name a) ∧
      prefixed self (bn_moving_variance_name a)
  | _ => True
  end.

(** A configuration with deformable convolutions, a classification head
    and a prefix. *)
Definition prefixed_args : Args :=
  {| a_layers := 50;
     a_freeze_at := 2;
     a_norm_type := "sync_bn";
     a_freeze_norm := true;
     a_norm_decay := (1 # 10000)%Q;
     a_variant := "d";
     a_feature_maps := AList [3; 4; 5];
     a_dcn_v2_stages := [4; 5];
     a_weight_prefix_name := "backbone.";
     a_nonlocal_stages := [];
     a_gcb_stages := [];
     a_gcb_params := [];
     a_num_classes := Some 1000;
     a_lr_mult_list := [1; 1; 1; 1; 1]%Q |}.

(** ** The blocks of a stage *)

(** The stride of a stage: stage 2 follows the max pool of the stem and
    keeps the resolution, the stages 3 to 5 halve it. *)
Definition stage_stride (i : Z) : Z := if i =? 2 then 1 else 2.

(** The blocks of stage [i], one after the other: the first one is built
    with the stride of the stage and a projection shortcut; every other one
    with stride 1 and the identity shortcut. *)
Inductive stage_blocks (self : ResNet) (f : block_func) (nf : Z)
    (dcn_v2 : bool) (lr_mult : Q) (i : Z) (x : TensorVar)
  : nat → TensorVar → list event → Prop :=
| stage_blocks_first is_first z ev :
    block_log f self x nf (stage_stride i) is_first dcn_v2 lr_mult z ev →
    projects self x (nf * expansion f) (stage_stride i) is_first = true →
    stage_blocks self f nf dcn_v2 lr_mult i x 1 z ev
| stage_blocks_next n y ev1 is_first z ev2 :
    stage_blocks self f nf dcn_v2 lr_mult i x n y ev1 →
    block_log f self y nf 1 is_first dcn_v2 lr_mult z ev2 →
    projects self y (nf * expansion f) 1 is_first = false →
    stage_blocks self f nf dcn_v2 lr_mult i x (S n) z (ev1 ++ ev2).

(** Convolutions of a block outside its shortcut. *)
Definition convs_per_block (f : block_func) : nat :=
  match f with
  | self_basicblock => 2
  | self_bottleneck => 3
  end.

(** What [layer_warp] logs for stage [i], block by block. *)
Definition layer_warp_structure (self : ResNet) (input : TensorVar) (i : Z)
    (st : state) (out : TensorVar) (st' : state) (evs : list event) : Prop :=
  ∃ lr_mult sched kind count nf,
    lr_mult_list self !! curr_stage st = Some lr_mult ∧
    layers_cfg self !! layers self = Some (sched, kind) ∧
    getitem sched (i - 2) = Ok count ∧
    getitem (stage_filters self) (i - 2) = Ok nf ∧
    stage_blocks self kind nf (py_in i (dcn_v2_stages self)) lr_mult i input
      (Z.to_nat count) out evs ∧
    length (convs evs) = (Z.to_nat count * convs_per_block kind + 1)%nat ∧
    length (adds evs) = Z.to_nat count ∧
    shape1 out = nf * expansion kind ∧
    curr_stage st' = curr_stage st.

(** The output of the stem, as the input of stage 2. *)
Definition stem_out : TensorVar := {| var_id := 0; shape1 := 64 |}.

(** ** The depth of the network *)



(** ** Channel counts of the residual additions *)

(** Whenever [m] returns, its log satisfies [P] and its value [R]. *)
Definition yields_with {A} (P : list event → Prop) (m : M A) (R : A → Prop)
  : Prop :=
  ∀ st a st' evs, m st = Ok (a, st', evs) → P evs ∧ R a.

(** A residual addition is well formed: the shortcut and the residual
    branch have the same number of channels, which is also that of the
    sum. *)
Definition add_event_ok (e : event) : Prop :=
  match e with
  | elementwise_add x y _ _ out =>
      shape1 x = shape1 y ∧ shape1 out = shape1 y
  | _ => True
  end.

(** * Proofs *)

(** ** Rules for runs *)

Lemma returns_ret {A} (a : A) st (P : A → state → list event → Prop) :
  P a st [] → returns (mret a) st P.
Proof. done. Qed.

Lemma returns_bind {A B} (m : M A) (f : A → M B) st
    (P : B → state → list event → Prop) :
  returns m st (λ a st1 ev1,
    returns (f a) st1 (λ b st2 ev2, P b st2 (ev1 ++ ev2))) →
  returns (m ≫= f) st P.
Proof.
  unfold returns, mbind, M_bind, bind.
  destruct (m st) as [[[a st1] ev1]|]; [|done].
  by destruct (f a st1) as [[[b st2] ev2]|].
Qed.

Lemma returns_mono {A} (m : M A) st (P Q : A → state → list event → Prop) :
  returns m st P → (∀ a st' evs, P a st' evs → Q a st' evs) →
  returns m st Q.
Proof.
  unfold returns. destruct (m st) as [[[a st1] ev1]|]; [|done]. eauto.
Qed.

Lemma returns_Ok {A} (m : M A) st (P : A → state → list event → Prop) :
  returns m st P ↔ ∃ a st' evs, m st = Ok (a, st', evs) ∧ P a st' evs.
Proof.
  unfold returns. destruct (m st) as [[[a st1] ev1]|]; split.
  - eauto 6.
  - by intros (? & ? & ? & [= -> -> ->] & ?).
  - done.
  - by intros (? & ? & ? & ? & ?).
Qed.

Lemma returns_inv {A} (m : M A) st (P : A → state → list event → Prop)
    a st' evs :
  returns m st P → m st = Ok (a, st', evs) → P a st' evs.
Proof. unfold returns. intros H E. by rewrite E in H. Qed.

Lemma bind_Raise {A B} (m : M A) (f : A → M B) st e :
  m st = Raise e → (m ≫= f) st = Raise e.
Proof. unfold mbind, M_bind, bind. by intros ->. Qed.

Lemma bind_Ok {A B} (m : M A) (f : A → M B) st a st1 ev1 :
  m st = Ok (a, st1, ev1) →
  (m ≫= f) st = match f a st1 with
                | Raise e => Raise e
                | Ok (b, st2, ev2) => Ok (b, st2, ev1 ++ ev2)
                end.
Proof. unfold mbind, M_bind, bind. by intros ->. Qed.

Lemma getitem_nat {A} (l : list A) (i : nat) x :
  l !! i = Some x → getitem l (Z.of_nat i) = Ok x.
Proof.
  intros H. unfold getitem.
  destruct (Z.ltb_spec (Z.of_nat i) 0) as [?|_]; [lia|].
  destruct (Z.ltb_spec (Z.of_nat i) 0) as [?|_]; [lia|].
  by rewrite Nat2Z.id, H.
Qed.

Lemma getitem_nat_ge {A} (l : list A) (i : nat) :
  (length l ≤ i)%nat → getitem l (Z.of_nat i) = Raise IndexError.
Proof.
  intros H. unfold getitem.
  destruct (Z.ltb_spec (Z.of_nat i) 0) as [?|_]; [lia|].
  destruct (Z.ltb_spec (Z.of_nat i) 0) as [?|_]; [lia|].
  by rewrite Nat2Z.id, lookup_ge_None_2.
Qed.

(** ** The builder methods *)

Lemma _conv_norm_returns self input nf k s g act name dcn st lr_mult :
  lr_mult_list self !! curr_stage st = Some lr_mult →
  norm_type_ok self →
  returns (_conv_norm self input nf k s g act name dcn) st (λ out st' evs,
    curr_stage st' = curr_stage st ∧ fresh_in st st' out ∧ shape1 out = nf ∧
    conv_norm_log self input nf k s dcn lr_mult out evs).
Proof.
  intros Hlr Hnt. unfold returns, _conv_norm.
  rewrite (bind_Ok _ _ st (curr_stage st) st []); [|done].
  rewrite (bind_Ok _ _ st lr_mult st []);
    [|by unfold lift; rewrite (getitem_nat _ _ _ Hlr)].
  unfold conv_norm_log, fresh_in.
  assert (norm_type self = "bn" ∨ norm_type self = "sync_bn"
          ∨ norm_type self = "affine_channel") as Hcases.
  { unfold norm_type_ok in Hnt.
    rewrite !elem_of_cons, elem_of_nil in Hnt. tauto. }
  destruct dcn, (freeze_norm self);
    destruct Hcases as [-> | [-> | ->]]; simpl.
  all: (split; [done|]).
  all: (split; [lia|]); (split; [done|]).
  all: eexists _, _, _, _; simpl; repeat split; reflexivity.
Qed.

Lemma _conv_norm_IndexError self input nf k s g act name dcn st :
  (length (lr_mult_list self) ≤ curr_stage st)%nat →
  _conv_norm self input nf k s g act name dcn st = Raise IndexError.
Proof.
  intros Hlen. unfold _conv_norm.
  rewrite (bind_Ok _ _ st (curr_stage st) st []); [|done].
  rewrite (bind_Raise _ _ _ IndexError); [done|].
  unfold lift. by rewrite getitem_nat_ge.
Qed.

(** ** The constructor *)

Lemma assert_r_Ok b : assert_r b = Ok tt ↔ b = true.
Proof. destruct b; simpl; split; congruence. Qed.

Lemma ResNet__init___Ok adapter a self :
  ResNet__init__ adapter a = Ok self →
  constructed self ∧ severed_head self = None ∧ na self = adapter ∧
  layers self = a_layers a ∧ freeze_at self = a_freeze_at a ∧
  norm_type self = a_norm_type a ∧ freeze_norm self = a_freeze_norm a ∧
  norm_decay self = a_norm_decay a ∧ variant self = a_variant a ∧
  feature_maps self = match a_feature_maps a with
                      | AnInt n => [n]
                      | AList l => l
                      end ∧
  dcn_v2_stages self = a_dcn_v2_stages a ∧
  prefix_name self = a_weight_prefix_name a ∧
  nonlocal_stages self = a_nonlocal_stages a ∧
  gcb_stages self = a_gcb_stages a ∧ num_classes self = a_num_classes a ∧
  lr_mult_list self = a_lr_mult_list a.
Proof.
  unfold ResNet__init__.
  repeat match goal with
         | |- context [assert_r ?b] =>
             let E := fresh "E" in destruct b eqn:E; simpl; [|done]
         end.
  intros [= <-]; simpl. split; [|done].
  unfold py_in in *.
  repeat match goal with
         | H : bool_decide _ = true |- _ => apply bool_decide_eq_true in H
         | H : _ && _ = true |- _ => apply andb_true_iff in H as [? ?]
         | H : negb _ = true |- _ => apply negb_true_iff in H
         | H : (_ <=? _) = true |- _ => apply Z.leb_le in H
         | H : (_ <? _) = true |- _ => apply Z.ltb_lt in H
         | H : (_ =? _) = true |- _ => apply Z.eqb_eq in H
         end.
  split; simpl; try done.
  - intros Hnil. rewrite Hnil in *. simpl in *. lia.
  - intros Hlt. destruct (a_nonlocal_stages a); [done|].
    exfalso.
    match goal with
    | H : _ && _ = false |- _ =>
        apply andb_false_iff in H as [H%Z.ltb_ge|H%Z.ltb_ge];
        [rewrite length_cons in H|]; lia
    end.
  - lia.
Qed.

(** ** Blocks, stages and the call *)

Lemma convs_app e1 e2 : convs (e1 ++ e2) = convs e1 ++ convs e2.
Proof. apply omap_app. Qed.

Lemma offset_convs_app e1 e2 :
  offset_convs (e1 ++ e2) = offset_convs e1 ++ offset_convs e2.
Proof. apply omap_app. Qed.

Lemma norms_app e1 e2 : norms (e1 ++ e2) = norms e1 ++ norms e2.
Proof. apply omap_app. Qed.

Lemma pools_app e1 e2 : pools (e1 ++ e2) = pools e1 ++ pools e2.
Proof. apply omap_app. Qed.

Lemma adds_app e1 e2 : adds (e1 ++ e2) = adds e1 ++ adds e2.
Proof. apply omap_app. Qed.

Lemma frozen_vars_app e1 e2 :
  frozen_vars (e1 ++ e2) = frozen_vars e1 ++ frozen_vars e2.
Proof. apply omap_app. Qed.

Lemma frozen_params_app e1 e2 :
  frozen_params (e1 ++ e2) = frozen_params e1 ++ frozen_params e2.
Proof. apply omap_app. Qed.

Lemma conv_norm_log_quiet self input nf k s dcn lr out evs :
  conv_norm_log self input nf k s dcn lr out evs →
  pools evs = [] ∧ adds evs = [] ∧ frozen_vars evs = [].
Proof. intros (?&?&?&?&?&?&?&?&?&?&?&?&?&?&?&?&?&?&?). done. Qed.

Lemma returns_fluid_pool2d a st (P : TensorVar → state → list event → Prop) :
  (∀ out, var_id out = next_var st → shape1 out = shape1 (p_input a) →
     P out {| curr_stage := curr_stage st; next_var := S (next_var st) |}
       [pool2d a out]) →
  returns (fluid_pool2d a) st P.
Proof. intros H. unfold returns. simpl. by apply H. Qed.

Lemma returns_fluid_elementwise_add x y act name st
    (P : TensorVar → state → list event → Prop) :
  (∀ out, var_id out = next_var st → shape1 out = shape1 x →
     P out {| curr_stage := curr_stage st; next_var := S (next_var st) |}
       [elementwise_add x y act name out]) →
  returns (fluid_elementwise_add x y act name) st P.
Proof. intros H. unfold returns. simpl. by apply H. Qed.

Lemma _shortcut_returns self input ch_out stride is_first name st lr_mult :
  lr_mult_list self !! curr_stage st = Some lr_mult →
  norm_type_ok self →
  std_senet self = None →
  returns (_shortcut self input ch_out stride is_first name) st
    (λ out st' evs,
       curr_stage st' = curr_stage st ∧ (next_var st ≤ next_var st')%nat ∧
       shape1 out = ch_out ∧
       shortcut_log self input ch_out stride is_first lr_mult out evs ∧
       adds evs = [] ∧ frozen_vars evs = []).
Proof.
  intros Hlr Hnt Hstd. unfold _shortcut, shortcut_log, projects.
  rewrite Hstd. simpl getattr. cbv iota.
  destruct (negb (shape1 input =? ch_out) || negb (stride =? 1)
            || (layers self <? 50) && is_first) eqn:Hproj.
  - destruct (String.eqb (variant self) "d" && negb is_first) eqn:Hd.
    + apply returns_bind, returns_fluid_pool2d. intros pooled Hid Hsh.
      eapply returns_mono; [by apply _conv_norm_returns|].
      simpl. intros out st' evs (Hcs & Hfr & Hout & Hlog).
      destruct (conv_norm_log_quiet _ _ _ _ _ _ _ _ _ Hlog) as (?&Ha&Hf).
      unfold fresh_in in Hfr. simpl in *.
      repeat split; [done|lia|done|by eauto|by rewrite Ha|by rewrite Hf].
    + eapply returns_mono; [by apply _conv_norm_returns|].
      simpl. intros out st' evs (Hcs & Hfr & Hout & Hlog).
      destruct (conv_norm_log_quiet _ _ _ _ _ _ _ _ _ Hlog) as (?&Ha&Hf).
      unfold fresh_in in Hfr. repeat split; [done|lia|done..].
  - apply returns_ret. repeat split; try done.
    apply orb_false_iff in Hproj as [Hproj _].
    apply orb_false_iff in Hproj as [Hproj%negb_false_iff _]. lia.
Qed.

Lemma bottleneck_returns self input nf stride is_first name dcn gcb_name st
    lr_mult :
  lr_mult_list self !! curr_stage st = Some lr_mult →
  constructed self →
  returns (bottleneck self input nf stride is_first name dcn false gcb_name)
    st (λ out st' evs,
       curr_stage st' = curr_stage st ∧ fresh_in st st' out ∧
       shape1 out = nf * 4 ∧
       bottleneck_log self input nf stride is_first dcn lr_mult out evs).
Proof.
  intros Hlr Hc. pose proof (ok_norm_type _ Hc) as Hnt.
  unfold bottleneck, bottleneck_log.
  rewrite (ok_groups _ Hc), (ok_group_width _ Hc), (ok_std_senet _ Hc),
    (ok_squeeze_excitation _ Hc).
  simpl getattr. cbv iota.
  destruct (fix_bottleneck_name (na self) name) as [[[n1 n2] n3] n4].
  assert (∃ s1 s2,
    s1 = (if String.eqb (variant self) "a" then stride else 1) ∧
    s2 = (if String.eqb (variant self) "a" then 1 else stride) ∧
    (if String.eqb (variant self) "a" then (stride, 1) else (1, stride))
    = (s1, s2)) as (s1 & s2 & <- & <- & ->).
  { destruct (String.eqb (variant self) "a"); eauto. }
  simpl.
  apply returns_bind, returns_bind.
  eapply returns_mono; [by apply _conv_norm_returns|].
  simpl. intros r1 st1 e1 (Hc1 & Hf1 & Hs1 & Hl1).
  apply returns_bind.
  eapply returns_mono; [apply _conv_norm_returns; [by rewrite Hc1|done]|].
  simpl. intros r2 st2 e2 (Hc2 & Hf2 & Hs2 & Hl2).
  apply returns_bind.
  eapply returns_mono;
    [apply _conv_norm_returns; [by rewrite Hc2, Hc1|done]|].
  simpl. intros r3 st3 e3 (Hc3 & Hf3 & Hs3 & Hl3).
  apply returns_ret, returns_bind.
  eapply returns_mono;
    [apply _shortcut_returns;
       [by rewrite Hc3, Hc2, Hc1|done|apply (ok_std_senet _ Hc)]|].
  simpl. intros short st4 esc (Hc4 & Hf4 & Hs4 & Hl4 & Ha4 & Hz4).
  apply returns_bind, returns_ret, returns_bind, returns_ret.
  apply returns_fluid_elementwise_add. intros out Hid Hsh.
  unfold fresh_in in *. simpl.
  split; [congruence|]. split; [lia|]. split; [congruence|].
  exists r1, r2, r3, short, e1, e2, e3, esc.
  eexists _, _. rewrite !app_nil_r, <- !app_assoc. done.
Qed.

Lemma basicblock_returns self input nf stride is_first name gcb_name st
    lr_mult :
  lr_mult_list self !! curr_stage st = Some lr_mult →
  constructed self →
  returns (basicblock self input nf stride is_first name false false gcb_name)
    st (λ out st' evs,
       curr_stage st' = curr_stage st ∧ fresh_in st st' out ∧
       shape1 out = nf ∧
       basicblock_log self input nf stride is_first lr_mult out evs).
Proof.
  intros Hlr Hc. pose proof (ok_norm_type _ Hc) as Hnt.
  unfold basicblock, basicblock_log. simpl.
  apply returns_bind, returns_ret, returns_bind, returns_ret, returns_bind.
  eapply returns_mono; [by apply _conv_norm_returns|].
  simpl. intros c0 st1 e0 (Hc1 & Hf1 & Hs1 & Hl1).
  apply returns_bind.
  eapply returns_mono; [apply _conv_norm_returns; [by rewrite Hc1|done]|].
  simpl. intros c1 st2 e1 (Hc2 & Hf2 & Hs2 & Hl2).
  apply returns_bind.
  eapply returns_mono;
    [apply _shortcut_returns;
       [by rewrite Hc2, Hc1|done|apply (ok_std_senet _ Hc)]|].
  simpl. intros short st4 esc (Hc4 & Hf4 & Hs4 & Hl4 & Ha4 & Hz4).
  apply returns_fluid_elementwise_add. intros out Hid Hsh.
  unfold fresh_in in *. simpl.
  split; [congruence|]. split; [lia|]. split; [congruence|].
  exists c0, c1, short, e0, e1, esc.
  eexists _, _. split; [reflexivity|]. tauto.
Qed.

Lemma call_block_returns f self input nf stride is_first name dcn gcb_name st
    lr_mult :
  lr_mult_list self !! curr_stage st = Some lr_mult →
  constructed self →
  (f = self_basicblock → dcn = false) →
  returns (call_block f self input nf stride is_first name dcn false gcb_name)
    st (λ out st' evs,
       curr_stage st' = curr_stage st ∧ fresh_in st st' out ∧
       shape1 out = nf * expansion f ∧
       block_log f self input nf stride is_first dcn lr_mult out evs).
Proof.
  intros Hlr Hc Hdcn. destruct f; simpl.
  - rewrite (Hdcn eq_refl).
    eapply returns_mono; [by apply basicblock_returns|].
    simpl. intros out st' evs (?&?&?&?).
    split; [done|]. split; [done|]. split; [lia|]. by split.
  - by apply bottleneck_returns.
Qed.

Lemma returns_for_each_from {A B} (body : A → B → M B)
    (Inv : nat → B → state → list event → Prop) l k0 acc st evs0 :
  Inv k0 acc st evs0 →
  (∀ k x acc st evs, l !! k = Some x → Inv (k0 + k)%nat acc st evs →
     returns (body x acc) st
       (λ acc' st' ev', Inv (S (k0 + k)) acc' st' (evs ++ ev'))) →
  returns (for_each l body acc) st
    (λ acc' st' evs, Inv (k0 + length l)%nat acc' st' (evs0 ++ evs)).
Proof.
  revert k0 acc st evs0. induction l as [|x l IH]; intros k0 acc st evs0 H0 Hb.
  - simpl. apply returns_ret. by rewrite Nat.add_0_r, app_nil_r.
  - simpl. apply returns_bind.
    eapply returns_mono.
    { apply (Hb 0%nat x acc st evs0); [done|]. by rewrite Nat.add_0_r. }
    simpl. intros acc1 st1 ev1 H1. rewrite Nat.add_0_r in H1.
    eapply returns_mono.
    { apply (IH (S k0) acc1 st1 (evs0 ++ ev1) H1).
      intros k y acc2 st2 evs2 Hk Hinv.
      replace (S k0 + k)%nat with (k0 + S k)%nat in * by lia.
      by apply Hb. }
    simpl. intros acc2 st2 ev2 H2.
    replace (k0 + S (length l))%nat with (S k0 + length l)%nat by lia.
    by rewrite app_assoc.
Qed.

(** The loop rule: [Inv k acc st evs] holds after [k] iterations, [evs]
    being the log of these iterations. *)
Lemma returns_for_each {A B} (body : A → B → M B)
    (Inv : nat → B → state → list event → Prop) l acc st :
  Inv 0%nat acc st [] →
  (∀ k x acc st evs, l !! k = Some x → Inv k acc st evs →
     returns (body x acc) st (λ acc' st' ev', Inv (S k) acc' st' (evs ++ ev'))) →
  returns (for_each l body acc) st
    (λ acc' st' evs, Inv (length l) acc' st' evs).
Proof.
  intros H0 Hb.
  apply (returns_for_each_from body Inv l 0%nat acc st [] H0 Hb).
Qed.

Lemma range_lookup lo hi (k : nat) x :
  range lo hi !! k = Some x → x = lo + Z.of_nat k ∧ lo + Z.of_nat k < hi.
Proof.
  unfold range. rewrite list_lookup_fmap.
  destruct (seq 0 (Z.to_nat (hi - lo)) !! k) as [j|] eqn:E; [|done].
  apply lookup_seq in E as [-> ?]. simpl. intros [= <-]. lia.
Qed.

Lemma range_length lo hi : length (range lo hi) = Z.to_nat (hi - lo).
Proof. unfold range. by rewrite length_fmap, length_seq. Qed.

Lemma block_log_quiet f self input nf stride is_first dcn lr out evs :
  block_log f self input nf stride is_first dcn lr out evs →
  frozen_vars evs = [] ∧ ∃ x y, adds evs = [(x, y, out)].
Proof.
  destruct f; simpl.
  - intros (_ & c0 & c1 & short & e0 & e1 & esc & act & name & -> &
            H0 & H1 & _ & Ha & Hf).
    apply conv_norm_log_quiet in H0 as (_ & Ha0 & Hf0).
    apply conv_norm_log_quiet in H1 as (_ & Ha1 & Hf1).
    rewrite !frozen_vars_app, !adds_app, Ha0, Ha1, Ha, Hf0, Hf1, Hf.
    simpl. eauto.
  - intros (r1 & r2 & r3 & short & e1 & e2 & e3 & esc & act & name & -> &
            H1 & H2 & H3 & _ & Ha & Hf).
    apply conv_norm_log_quiet in H1 as (_ & Ha1 & Hf1).
    apply conv_norm_log_quiet in H2 as (_ & Ha2 & Hf2).
    apply conv_norm_log_quiet in H3 as (_ & Ha3 & Hf3).
    rewrite !frozen_vars_app, !adds_app, Ha1, Ha2, Ha3, Ha, Hf1, Hf2, Hf3, Hf.
    simpl. eauto.
Qed.

Lemma stage_log_quiet self f nf dcn lr x n y evs :
  stage_log self f nf dcn lr x n y evs →
  frozen_vars evs = [] ∧ length (adds evs) = n.
Proof.
  induction 1 as [|n y ev1 stride is_first z ev2 _ [IHf IHa] Hb]; [done|].
  apply block_log_quiet in Hb as (Hf & a & b & Ha).
  rewrite frozen_vars_app, adds_app, length_app, IHf, Hf, Ha, IHa.
  simpl. split; [done|lia].
Qed.

(** The schedule, block kind and filter count that [layer_warp] resolves
    for a stage. *)
Lemma stage_config L i :
  L ∈ [18; 34; 50; 101; 152; 200] → i ∈ [2; 3; 4; 5] →
  ∃ sched kind count nf,
    the_layers_cfg !! L = Some (sched, kind) ∧
    getitem sched (i - 2) = Ok count ∧
    getitem [64; 128; 256; 512] (i - 2) = Ok nf ∧
    0 < count ≤ 48 ∧ (kind = self_basicblock ↔ L < 50).
Proof.
  intros HL Hi.
  repeat (apply elem_of_cons in HL as [->|HL]);
    [..|by apply elem_of_nil in HL];
    (repeat (apply elem_of_cons in Hi as [->|Hi]);
     [..|by apply elem_of_nil in Hi]);
    eexists _, _, _, _; (split; [vm_compute; reflexivity|]);
    (split; [vm_compute; reflexivity|]);
    (split; [vm_compute; reflexivity|]);
    (split; [lia|]); split; (done || lia).
Qed.

Lemma returns_lift {A} (r : result A) a st
    (P : A → state → list event → Prop) :
  r = Ok a → P a st [] → returns (lift r) st P.
Proof. intros -> H. exact H. Qed.

Lemma returns_assert b st (P : unit → state → list event → Prop) :
  b = true → P tt st [] → returns (assert b) st P.
Proof. intros -> H. exact H. Qed.

Lemma py_in_true `{EqDecision A} (x : A) l : py_in x l = true ↔ x ∈ l.
Proof. unfold py_in. apply bool_decide_eq_true. Qed.

Lemma py_in_false `{EqDecision A} (x : A) l : py_in x l = false ↔ x ∉ l.
Proof. unfold py_in. apply bool_decide_eq_false. Qed.

Lemma layer_warp_returns self input i st lr_mult :
  constructed self →
  buildable self i →
  lr_mult_list self !! curr_stage st = Some lr_mult →
  returns (layer_warp self input i) st (layer_warp_post self input i lr_mult st).
Proof.
  intros Hc (Hi & Hgcb & Hnl & Hdcn) Hlr.
  destruct (stage_config _ _ (ok_layers _ Hc) Hi)
    as (sched & kind & count & nf & Hcfg & Hcount & Hnf & Hrange & Hkind).
  unfold layer_warp.
  apply returns_bind, returns_assert; [by apply py_in_true|].
  apply returns_bind.
  eapply returns_lift.
  { unfold dict_getitem. by rewrite (ok_layers_cfg _ Hc), Hcfg. }
  apply returns_bind. eapply returns_lift; [exact Hcount|].
  apply returns_bind. eapply returns_lift;
    [by rewrite (ok_stage_filters _ Hc)|].
  apply py_in_false in Hgcb, Hnl. rewrite Hgcb, Hnl.
  replace (if py_in i (dcn_v2_stages self) then true else false)
    with (py_in i (dcn_v2_stages self))
    by (by destruct (py_in i (dcn_v2_stages self))).
  apply returns_bind, returns_ret, returns_bind.
  set (Inv := λ (k : nat) (acc : TensorVar * bool) (st' : state)
                (evs : list event),
    curr_stage st' = curr_stage st ∧ (next_var st ≤ next_var st')%nat ∧
    ((0 < k)%nat → fresh_in st st' acc.1 ∧ shape1 acc.1 = nf * expansion kind) ∧
    stage_log self kind nf (py_in i (dcn_v2_stages self)) lr_mult input
      k acc.1 evs).
  eapply returns_mono.
  { apply (returns_for_each _ Inv).
    - unfold Inv. simpl. repeat split; [lia..|constructor].
    - intros k x [conv isf] st1 evs1 Hk (Hcs & Hnv & _ & Hlog).
      apply range_lookup in Hk as [-> Hlt]. simpl in Hlog.
      apply returns_bind.
      eapply returns_mono.
      { apply call_block_returns with (lr_mult := lr_mult);
          [by rewrite Hcs|done|].
        intros Hb. apply py_in_false, Hdcn. by apply Hkind. }
      simpl. intros conv1 st2 ev2 (Hcs2 & Hfr2 & Hsh2 & Hlog2).
      replace ((0 + Z.of_nat k) `mod` 1000 =? 1000 - 1) with false.
      2:{ symmetry. apply Z.eqb_neq. rewrite Z.mod_small; lia. }
      apply returns_bind, returns_ret, returns_ret.
      unfold Inv, fresh_in in *. simpl.
      split; [congruence|]. split; [lia|]. split; [intros _; split; [lia|done]|].
      rewrite !app_nil_r. econstructor; eauto. }
  simpl. intros [conv isf] st' evs (Hcs & Hnv & Hpos & Hlog).
  apply returns_ret. rewrite range_length, Z.sub_0_r in *.
  destruct Hpos as [Hfr Hsh]; [lia|]. simpl in *.
  rewrite app_nil_r.
  split; [done|]. split; [done|].
  split; [by eapply stage_log_quiet|].
  exists sched, kind, count, nf.
  rewrite (ok_layers_cfg _ Hc), (ok_stage_filters _ Hc). done.
Qed.

Lemma c1_stage_returns self input st lr_mult :
  constructed self →
  lr_mult_list self !! curr_stage st = Some lr_mult →
  returns (c1_stage self input) st (λ out st' evs,
    curr_stage st' = curr_stage st ∧ fresh_in st st' out ∧
    shape1 out = 64 ∧ frozen_vars evs = [] ∧
    c1_log self input lr_mult out evs).
Proof.
  intros Hc Hlr. pose proof (ok_norm_type _ Hc) as Hnt.
  unfold c1_stage, c1_log. rewrite (ok_c1_out_chan_num _ Hc).
  change (64 `div` 2) with 32.
  destruct (py_in (variant self) ["c"; "d"]); simpl.
  - apply returns_bind, returns_bind.
    eapply returns_mono; [by apply _conv_norm_returns|].
    simpl. intros x1 st1 e1 (Hc1 & Hf1 & Hs1 & Hl1).
    apply returns_bind.
    eapply returns_mono; [apply _conv_norm_returns; [by rewrite Hc1|done]|].
    simpl. intros x2 st2 e2 (Hc2 & Hf2 & Hs2 & Hl2).
    apply returns_bind.
    eapply returns_mono;
      [apply _conv_norm_returns; [by rewrite Hc2, Hc1|done]|].
    simpl. intros x3 st3 e3 (Hc3 & Hf3 & Hs3 & Hl3).
    apply returns_ret, returns_fluid_pool2d. intros out Hid Hsh.
    unfold fresh_in in *. simpl in *.
    split; [congruence|]. split; [lia|]. split; [congruence|].
    destruct (conv_norm_log_quiet _ _ _ _ _ _ _ _ _ Hl1) as (_ & _ & Hz1).
    destruct (conv_norm_log_quiet _ _ _ _ _ _ _ _ _ Hl2) as (_ & _ & Hz2).
    destruct (conv_norm_log_quiet _ _ _ _ _ _ _ _ _ Hl3) as (_ & _ & Hz3).
    split.
    { by rewrite !frozen_vars_app, Hz1, Hz2, Hz3. }
    exists x1, x2, x3, e1, e2, e3.
    rewrite !app_nil_r, <- !app_assoc. done.
  - apply returns_bind, returns_bind.
    eapply returns_mono; [by apply _conv_norm_returns|].
    simpl. intros x1 st1 e1 (Hc1 & Hf1 & Hs1 & Hl1).
    apply returns_ret, returns_fluid_pool2d. intros out Hid Hsh.
    unfold fresh_in in *. simpl in *.
    split; [congruence|]. split; [lia|]. split; [congruence|].
    destruct (conv_norm_log_quiet _ _ _ _ _ _ _ _ _ Hl1) as (_ & _ & Hz1).
    split.
    { by rewrite !frozen_vars_app, Hz1. }
    exists x1, e1. rewrite !app_nil_r. done.
Qed.

Lemma returns_incr_curr_stage st (P : unit → state → list event → Prop) :
  P tt {| curr_stage := S (curr_stage st); next_var := next_var st |} [] →
  returns incr_curr_stage st P.
Proof. done. Qed.

Lemma build_stages_returns self l res0 eps0 st :
  constructed self →
  (∀ i, i ∈ l → buildable self i) →
  (curr_stage st + length l < length (lr_mult_list self))%nat →
  returns (for_each l (build_stage self) (res0, eps0)) st
    (λ acc st' evs,
       curr_stage st' = (curr_stage st + length l)%nat ∧
       (next_var st ≤ next_var st')%nat ∧
       ∃ outs,
         outs.*1 = l ∧
         stages_log self res0 (curr_stage st) outs acc.1 evs ∧
         acc.2 = eps0 ++ (endpoints_of self outs).*2 ∧
         Forall (λ p, (next_var st ≤ var_id p.2 < next_var st')%nat) outs ∧
         NoDup outs.*2).
Proof.
  intros Hc Hb Hlen.
  set (Inv := λ (k : nat) (acc : TensorVar * list TensorVar) (st' : state)
                (evs : list event),
    curr_stage st' = (curr_stage st + k)%nat ∧
    (next_var st ≤ next_var st')%nat ∧
    ∃ outs,
      outs.*1 = take k l ∧
      stages_log self res0 (curr_stage st) outs acc.1 evs ∧
      acc.2 = eps0 ++ (endpoints_of self outs).*2 ∧
      Forall (λ p, (next_var st ≤ var_id p.2 < next_var st')%nat) outs ∧
      NoDup outs.*2).
  eapply returns_mono.
  { apply (returns_for_each _ Inv).
    - unfold Inv. split; [lia|]. split; [lia|]. exists [].
      simpl. rewrite app_nil_r, take_0.
      repeat split; [constructor..].
    - intros k i [res eps] st1 evs1 Hk
        (Hcs & Hnv & outs & Hfst & Hlog & Heps & Hbound & Hnd).
      simpl in Hlog, Heps.
      pose proof (lookup_lt_Some _ _ _ Hk) as Hklen.
      assert (length outs = k) as Hlo.
      { rewrite <- (length_fmap fst), Hfst, length_take. lia. }
      destruct (lookup_lt_is_Some_2 (lr_mult_list self)
                  (curr_stage st + S k)) as [lr Hlr]; [lia|].
      unfold build_stage.
      apply returns_bind, returns_incr_curr_stage, returns_bind.
      eapply returns_mono.
      { apply (layer_warp_returns self res i _ lr Hc).
        - apply Hb. by eapply list_elem_of_lookup_2.
        - simpl. rewrite Hcs. by replace (S (curr_stage st + k))
            with (curr_stage st + S k)%nat by lia. }
      simpl. intros z st2 ev2 (Hcs2 & Hfr2 & Hz2 & Hbs).
      unfold fresh_in in Hfr2. simpl in *.
      apply returns_bind.
      assert (returns
        (if freeze_at self >=? i
         then emit (set_stop_gradient (OfVar z)) else mret tt) st2
        (λ _ st3 ev3, st3 = st2 ∧
           ev3 = if freeze_at self >=? i
                 then [set_stop_gradient (OfVar z)] else [])) as Hfz.
      { by destruct (freeze_at self >=? i). }
      eapply returns_mono; [exact Hfz|].
      simpl. intros _ st3 ev3 [-> ->]. apply returns_ret.
      unfold Inv. simpl.
      split; [lia|]. split; [lia|].
      exists (outs ++ [(i, z)]).
      split. { rewrite fmap_app, Hfst. simpl. by erewrite take_S_r. }
      split.
      { rewrite app_nil_r.
        replace (evs1 ++ ev2 ++ _) with
          (evs1 ++ ev2 ++
           (if freeze_at self >=? i then [set_stop_gradient (OfVar z)]
            else [])) by done.
        econstructor; eauto. by rewrite Hlo. }
      split.
      { unfold endpoints_of, py_in in *. rewrite filter_app, fmap_app, Heps.
        rewrite filter_cons, filter_nil. simpl.
        destruct (decide (i ∈ feature_maps self)) as [Hin|Hin].
        - rewrite bool_decide_eq_true_2 by done. by rewrite <- app_assoc.
        - rewrite bool_decide_eq_false_2 by done. by rewrite app_nil_r. }
      split.
      { apply Forall_app. split.
        - eapply Forall_impl; [exact Hbound|]. simpl. intros; lia.
        - constructor; [simpl; lia|constructor]. }
      rewrite fmap_app. apply NoDup_app. split; [done|]. split.
      + intros v Hv Hv'. simpl in Hv'.
        apply list_elem_of_singleton in Hv'.
        apply list_elem_of_fmap in Hv as ([j w] & Hvw & Hjw).
        simpl in Hvw. subst v w.
        rewrite Forall_forall in Hbound. apply Hbound in Hjw. simpl in Hjw.
        lia.
      + apply NoDup_singleton. }
  simpl. intros [res eps] st' evs (Hcs & Hnv & outs & Hfst & Hrest).
  rewrite take_ge in Hfst by lia. eauto 10.
Qed.

Lemma foldl_max_spec l x :
  (foldl Z.max x l = x ∨ foldl Z.max x l ∈ l) ∧ x ≤ foldl Z.max x l ∧
  ∀ y, y ∈ l → y ≤ foldl Z.max x l.
Proof.
  revert x. induction l as [|y l IH]; intros x; simpl.
  - split; [by left|]. split; [lia|]. by intros y ?%elem_of_nil.
  - destruct (IH (x `max` y)) as (Hm & Hle & Hall).
    split; [|split].
    + destruct Hm as [Hm|Hm].
      * rewrite Hm. destruct (Z.max_spec x y) as [[_ ->]|[_ ->]];
          [right; apply elem_of_cons|]; by left.
      * right. apply elem_of_cons. by right.
    + lia.
    + intros z [->|Hz]%elem_of_cons; [lia|by apply Hall].
Qed.

Lemma py_max_spec l :
  l ≠ [] → ∃ m, py_max l = Ok m ∧ m ∈ l ∧ ∀ x, x ∈ l → x ≤ m.
Proof.
  destruct l as [|x l]; [done|]. intros _. simpl. eexists; split; [done|].
  destruct (foldl_max_spec l x) as (Hm & Hle & Hall). split.
  - apply elem_of_cons. destruct Hm; [by left|by right].
  - intros z [->|Hz]%elem_of_cons; [done|by apply Hall].
Qed.

Lemma range_elem_of lo hi x : x ∈ range lo hi ↔ lo ≤ x < hi.
Proof.
  unfold range. rewrite list_elem_of_fmap. split.
  - intros (k & -> & Hk). apply elem_of_seq in Hk. lia.
  - intros H. exists (Z.to_nat (x - lo)). split; [lia|].
    apply elem_of_seq. lia.
Qed.

Lemma range_NoDup lo hi : NoDup (range lo hi).
Proof.
  unfold range. apply NoDup_fmap_2; [|apply NoDup_seq].
  intros a b ?. lia.
Qed.

Lemma endpoints_of_fst self outs :
  (endpoints_of self outs).*1 = filter (λ i, i ∈ feature_maps self) outs.*1.
Proof.
  unfold endpoints_of. induction outs as [|[i v] outs IH]; [done|].
  rewrite fmap_cons. simpl. rewrite !filter_cons. simpl.
  destruct (decide (i ∈ feature_maps self)); simpl; [f_equal|]; exact IH.
Qed.

Lemma endpoints_of_length self outs :
  NoDup outs.*1 → (length (endpoints_of self outs) ≤ length (feature_maps self))%nat.
Proof.
  intros Hnd. rewrite <- (length_fmap fst), endpoints_of_fst.
  apply submseteq_length, NoDup_submseteq.
  - by apply NoDup_filter.
  - intros i Hi. by apply list_elem_of_filter in Hi as [? _].
Qed.

Lemma pairs_returns fm (eps : list TensorVar) st :
  (length eps ≤ length fm)%nat →
  returns
    (for_each (enumerate eps)
       (λ '(idx, feat) pairs,
          i ← lift (getitem fm idx);
          mret (pairs ++ [(res_sum_key i, feat)]))
       [])
    st (λ pairs st' evs, st' = st ∧ evs = [] ∧ pairs = keyed fm eps).
Proof.
  intros Hlen.
  set (Inv := λ (k : nat) (pairs : list (string * TensorVar)) (st' : state)
                (evs : list event),
    st' = st ∧ evs = [] ∧ pairs = take k (keyed fm eps)).
  eapply returns_mono.
  { apply (returns_for_each _ Inv).
    - unfold Inv. by rewrite take_0.
    - intros k [idx feat] pairs st1 evs1 Hk (-> & -> & ->).
      unfold enumerate in Hk. rewrite list_lookup_imap in Hk.
      destruct (eps !! k) as [v|] eqn:Hv; [|done].
      simpl in Hk. injection Hk as <- <-.
      destruct (lookup_lt_is_Some_2 fm k) as [i Hi].
      { apply lookup_lt_Some in Hv. lia. }
      apply returns_bind. eapply returns_lift; [by apply getitem_nat|].
      apply returns_ret. unfold Inv. split; [done|]. split; [done|].
      symmetry. apply take_S_r. unfold keyed.
      rewrite lookup_zip_with, Hi. simpl. by rewrite Hv. }
  simpl. intros pairs st' evs (-> & -> & ->).
  split; [done|]. split; [done|].
  apply take_ge. unfold enumerate, keyed.
  rewrite length_imap, length_zip_with. lia.
Qed.

Lemma forallb_py_in (l k : list Z) :
  Forall (λ i, i ∈ k) l → forallb (λ x, py_in x k) l = true.
Proof.
  intros H. apply forallb_forall. intros x Hx%list_elem_of_In.
  apply py_in_true. rewrite Forall_forall in H. by apply H.
Qed.

Lemma __call___returns self input st :
  constructed self →
  severed_head self = None →
  callable self →
  curr_stage st = 0%nat →
  returns (__call__ self input) st (call_post self input st).
Proof.
  intros Hc Hsev [Hfm Hb] Hcs.
  destruct (py_max_spec _ (ok_feature_maps _ Hc)) as (m & Hmax & Hmin & Hmle).
  assert (1 ≤ m ≤ 5) as Hm.
  { rewrite Forall_forall in Hfm. specialize (Hfm m Hmin).
    repeat (apply elem_of_cons in Hfm as [->|Hfm]); try lia.
    by apply elem_of_nil in Hfm. }
  pose proof (ok_lr_mult_list _ Hc) as Hlrlen.
  destruct (lookup_lt_is_Some_2 (lr_mult_list self) 0) as [lr0 Hlr0]; [lia|].
  unfold __call__. rewrite Hsev. simpl getattr. simpl negb. cbv iota.
  apply returns_bind, returns_assert; [by apply forallb_py_in|].
  apply returns_bind, returns_bind.
  eapply returns_mono; [apply c1_stage_returns; [done|by rewrite Hcs]|].
  simpl. intros c1out st1 ev_c1 (Hcs1 & Hfr1 & Hsh1 & Hz1 & Hlog1).
  apply returns_bind. eapply returns_lift; [exact Hmax|].
  apply returns_ret, returns_bind.
  eapply returns_mono.
  { apply (build_stages_returns self (range 2 (m + 1)) c1out [] st1 Hc).
    - intros i Hi%range_elem_of. apply (Hb i m); [done|lia].
    - rewrite range_length. lia. }
  simpl. intros [res eps] st2 ev_st
    (Hcs2 & Hnv2 & outs & Hfst & Hlog2 & Heps & Hbound & Hnd).
  simpl in Hlog2, Heps. rewrite Hcs1, Hcs in Hlog2.
  assert (curr_stage st2 = length outs) as Hcs2'.
  { rewrite Hcs2, Hcs1, Hcs. simpl.
    by rewrite <- (length_fmap fst outs), Hfst. }
  destruct (num_classes self) as [n|] eqn:Hnc.
  - apply returns_bind, returns_fluid_pool2d. intros pool Hid Hsh.
    apply returns_bind. unfold returns. simpl.
    exists m, lr0, c1out, ev_c1, outs, res, ev_st,
      [pool2d (head_pool res) pool;
       fc pool n (head_attr pool)
         {| var_id := S (next_var st2); shape1 := n |}].
    rewrite Hnc.
    repeat (split; [done|]). split; [by rewrite app_nil_r|].
    split; [done|]. by eexists _, _.
  - apply returns_bind.
    eapply returns_mono.
    { apply (pairs_returns (feature_maps self) eps). subst eps. simpl.
      rewrite length_fmap. apply endpoints_of_length.
      rewrite Hfst. apply range_NoDup. }
    simpl. intros pairs st3 ev3 (-> & -> & ->). apply returns_ret.
    exists m, lr0, c1out, ev_c1, outs, res, ev_st, [].
    rewrite Hnc, !app_nil_r. subst eps. done.
Qed.

(** ** The constructor's checks *)

(** C3. Construction raises an assertion error exactly for the invalid
    configurations (layers outside 18/34/50/101/152/200, variant outside
    a/b/c/d, freeze_at outside 0..5, empty feature_maps, norm_type outside
    bn/sync_bn/affine_channel, lr_mult_list not of length 5, non-local
    stages with layers < 50); it succeeds for every other configuration, and
    it raises nothing else. *)
Theorem ResNet__init___fails_iff_invalid adapter a :
  (ResNet__init__ adapter a = Raise AssertionError ↔ invalid_args a) ∧
  (¬ invalid_args a → ∃ self, ResNet__init__ adapter a = Ok self) ∧
  (∀ e, ResNet__init__ adapter a = Raise e → e = AssertionError).
Proof.
  unfold ResNet__init__, invalid_args, feature_maps_of, py_in.
  destruct (decide (a_layers a ∈ [18; 34; 50; 101; 152; 200])) as [H1|H1];
    [rewrite (bool_decide_eq_true_2 _ H1)
    |rewrite (bool_decide_eq_false_2 _ H1); init_fails ltac:(by left)].
  destruct (decide (a_variant a ∈ ["a"; "b"; "c"; "d"])) as [H2|H2];
    [rewrite (bool_decide_eq_true_2 _ H2)
    |rewrite (bool_decide_eq_false_2 _ H2);
     init_fails ltac:(by right; left)].
  simpl.
  destruct ((0 <=? a_freeze_at a) && (a_freeze_at a <=? 5)) eqn:H3;
    [|init_fails ltac:(do 2 right; left; intros [?%Z.leb_le ?%Z.leb_le];
                       rewrite andb_false_iff in H3; intuition congruence)].
  apply andb_true_iff in H3 as [H3%Z.leb_le H3'%Z.leb_le]. simpl.
  destruct (0 <? Z.of_nat (length match a_feature_maps a with
                                  | AnInt n => [n]
                                  | AList l => l
                                  end)) eqn:H4;
    [|init_fails ltac:(do 3 right; left; apply Z.ltb_ge in H4;
                       apply length_zero_iff_nil; lia)].
  apply Z.ltb_lt in H4. simpl.
  destruct (decide (a_norm_type a ∈ ["bn"; "sync_bn"; "affine_channel"]))
    as [H5|H5];
    [rewrite (bool_decide_eq_true_2 _ H5)
    |rewrite (bool_decide_eq_false_2 _ H5);
     init_fails ltac:(by do 4 right; left)].
  simpl.
  destruct (negb ((0 <? Z.of_nat (length (a_nonlocal_stages a)))
                  && (a_layers a <? 50))) eqn:H6;
    [|init_fails ltac:(do 6 right;
        apply negb_false_iff, andb_true_iff in H6
          as [H6%Z.ltb_lt H6'%Z.ltb_lt];
        split; [by intros Hnil; rewrite Hnil in H6|done])].
  simpl.
  destruct (Z.of_nat (length (a_lr_mult_list a)) =? 5) eqn:H7;
    [|init_fails ltac:(do 5 right; left; apply Z.eqb_neq in H7; lia)].
  apply Z.eqb_eq in H7. simpl.
  split; [split; [done|]|split; [eauto|done]].
  intros [?|[?|[?|[Hnil|[?|[?|[Hnl Hlt]]]]]]]; try done; try lia.
  - rewrite Hnil in H4. simpl in H4. lia.
  - apply negb_true_iff, andb_false_iff in H6 as [H6%Z.ltb_ge|H6%Z.ltb_ge];
      [|lia].
    destruct (a_nonlocal_stages a); [done|]. rewrite length_cons in H6. lia.
Qed.

Lemma init_constructed adapter a self :
  ResNet__init__ adapter a = Ok self → constructed self.
Proof. intros H. by apply ResNet__init___Ok in H as [? _]. Qed.

Lemma lr_mult_lookup self (k : nat) :
  constructed self → (k < 5)%nat → ∃ lr, lr_mult_list self !! k = Some lr.
Proof.
  intros Hc Hk. apply lookup_lt_is_Some_2. rewrite (ok_lr_mult_list _ Hc). lia.
Qed.

(** ** The stem *)

(** C6. The stem follows the variant: for 'c' and 'd', three 3x3 conv-norm
    layers with 32, 32 and 64 filters and strides 2, 1, 1; for 'a' and 'b',
    one 7x7 stride-2 conv-norm with 64 filters; in both cases the log ends
    with a 3x3 max pool of stride 2 and padding 1, whose output is
    returned. *)
Theorem c1_stage_by_variant adapter a self input st :
  ResNet__init__ adapter a = Ok self →
  (curr_stage st < 5)%nat →
  returns (c1_stage self input) st
    (λ out st' evs, c1_stage_post self input st out evs).
Proof.
  intros Hinit Hcs. pose proof (init_constructed _ _ _ Hinit) as Hc.
  destruct (lr_mult_lookup self (curr_stage st) Hc Hcs) as [lr Hlr].
  eapply returns_mono; [by apply c1_stage_returns|].
  simpl. intros out st' evs (_ & _ & _ & _ & Hlog).
  exists lr. split; [done|]. unfold c1_log in Hlog.
  split; [|split; [|done]]; intros Hv.
  - by rewrite (proj2 (py_in_true _ _) Hv) in Hlog.
  - rewrite (proj2 (py_in_false (variant self) ["c"; "d"])) in Hlog; [done|].
    intros Hcd. rewrite !elem_of_cons, elem_of_nil in Hv, Hcd.
    destruct Hv as [Hv|[Hv|[]]], Hcd as [Hcd|[Hcd|[]]]; congruence.
Qed.

Lemma c1_stage_by_variant_witness :
  ResNet__init__ sample_adapter default_args = Ok (instance_of default_args) ∧
  (curr_stage new_state < 5)%nat ∧
  returns (c1_stage (instance_of default_args) image) new_state
    (λ out st' evs,
       c1_stage_post (instance_of default_args) image new_state out evs).
Proof.
  split; [reflexivity|]. split; [simpl; lia|].
  apply (c1_stage_by_variant sample_adapter default_args);
    [reflexivity|simpl; lia].
Defined.

(** ** Stride placement and the projection shortcut *)

(** C5. In a bottleneck block, variant 'a' applies the stride to the first
    1x1 convolution and gives the 3x3 convolution stride 1; variants 'b',
    'c' and 'd' give the first 1x1 convolution stride 1 and apply the stride
    to the 3x3 convolution.  A projection shortcut of variant 'd' in a
    non-first block is a 2x2 stride-2 average pool followed by a stride-1
    1x1 conv-norm; the other variants use one strided 1x1 conv-norm. *)
Theorem stride_placement adapter a self input num_filters stride is_first
    name dcn_v2 gcb_name ch_out st :
  ResNet__init__ adapter a = Ok self →
  (curr_stage st < 5)%nat →
  returns (bottleneck self input num_filters stride is_first name dcn_v2
             false gcb_name) st
    (λ out st' evs,
       bottleneck_post self input num_filters stride dcn_v2 st out evs) ∧
  (projects self input ch_out stride is_first = true →
   returns (_shortcut self input ch_out stride is_first name) st
     (λ out st' evs,
        shortcut_post self input ch_out stride is_first st out evs)).
Proof.
  intros Hinit Hcs. pose proof (init_constructed _ _ _ Hinit) as Hc.
  destruct (lr_mult_lookup self (curr_stage st) Hc Hcs) as [lr Hlr].
  split.
  - eapply returns_mono; [by apply bottleneck_returns|].
    simpl. intros out st' evs (_ & _ & _ & Hlog).
    destruct Hlog as (r1 & r2 & r3 & short & e1 & e2 & e3 & esc & act & nm &
                      Hevs & H1 & H2 & H3 & _).
    exists lr. eexists _, _. exists r1, r2, r3, short, e1, e2, e3, esc, act, nm.
    split; [done|].
    split; [|split; [|split; [exact Hevs|split; [exact H1|split; [exact H2|exact H3]]]]].
    + intros Hv. rewrite Hv. done.
    + intros Hv. destruct (String.eqb_spec (variant self) "a") as [Ha|Ha].
      * rewrite Ha, !elem_of_cons, elem_of_nil in Hv.
        destruct Hv as [?|[?|[?|[]]]]; discriminate.
      * done.
  - intros Hproj.
    eapply returns_mono;
      [by apply _shortcut_returns; [..|apply (ok_std_senet _ Hc)];
          [done|apply (ok_norm_type _ Hc)]|].
    simpl. intros out st' evs (_ & _ & _ & Hlog & _).
    exists lr. split; [done|]. unfold shortcut_log in Hlog.
    rewrite Hproj in Hlog. split.
    + intros Hv ->. rewrite Hv in Hlog. simpl in Hlog.
      destruct Hlog as (pooled & evs' & -> & _ & Hlog). by exists pooled, evs'.
    + intros Hv. apply String.eqb_neq in Hv. by rewrite Hv in Hlog.
Qed.

Lemma stride_placement_witness :
  ResNet__init__ sample_adapter default_args = Ok (instance_of default_args) ∧
  (curr_stage new_state < 5)%nat ∧
  returns (bottleneck (instance_of default_args) image 128 2 false "res3a"
             false false "gcb_res3_b0") new_state
    (λ out st' evs,
       bottleneck_post (instance_of default_args) image 128 2 false
         new_state out evs) ∧
  projects (instance_of default_args) image 512 2 false = true ∧
  returns (_shortcut (instance_of default_args) image 512 2 false "res3a")
    new_state
    (λ out st' evs,
       shortcut_post (instance_of default_args) image 512 2 false
         new_state out evs).
Proof.
  split; [reflexivity|]. split; [simpl; lia|].
  destruct (stride_placement sample_adapter default_args
              (instance_of default_args) image 128 2 false "res3a" false
              "gcb_res3_b0" 512 new_state) as [Hb Hs];
    [reflexivity|simpl; lia|].
  split; [exact Hb|]. split; [reflexivity|]. apply Hs. reflexivity.
Defined.

(** ** Configuration resolution *)

(** C2. The layer count selects the schedule and the block function: 18 and
    34 the basic block with [2,2,2,2] and [3,4,6,3]; 50, 101, 152 and 200 the
    bottleneck with [3,4,6,3], [3,4,23,3], [3,8,36,3] and [3,12,48,3].  Stage
    i (2..5) is built as exactly schedule[i-2] blocks of the selected kind,
    each called with the filter count stage_filters[i-2] of
    [64, 128, 256, 512] (the block's output has that many channels times the
    expansion of its kind: 1 for the basic block, 4 for the bottleneck). *)
Theorem layer_warp_schedule adapter a self :
  ResNet__init__ adapter a = Ok self →
  layers_cfg self !! 18 = Some ([2; 2; 2; 2], self_basicblock) ∧
  layers_cfg self !! 34 = Some ([3; 4; 6; 3], self_basicblock) ∧
  layers_cfg self !! 50 = Some ([3; 4; 6; 3], self_bottleneck) ∧
  layers_cfg self !! 101 = Some ([3; 4; 23; 3], self_bottleneck) ∧
  layers_cfg self !! 152 = Some ([3; 8; 36; 3], self_bottleneck) ∧
  layers_cfg self !! 200 = Some ([3; 12; 48; 3], self_bottleneck) ∧
  stage_filters self = [64; 128; 256; 512] ∧
  call_block self_basicblock = basicblock ∧
  call_block self_bottleneck = bottleneck ∧
  ∀ i input st,
    buildable self i →
    (curr_stage st < 5)%nat →
    returns (layer_warp self input i) st
      (λ out st' evs, layer_warp_blocks self input i st out evs).
Proof.
  intros Hinit. pose proof (init_constructed _ _ _ Hinit) as Hc.
  rewrite (ok_layers_cfg _ Hc), (ok_stage_filters _ Hc).
  do 6 (split; [vm_compute; reflexivity|]).
  do 3 (split; [reflexivity|]).
  intros i input st Hb Hcs.
  destruct (lr_mult_lookup self (curr_stage st) Hc Hcs) as [lr Hlr].
  eapply returns_mono; [by apply (layer_warp_returns self input i st lr)|].
  simpl. intros out st' evs (_ & _ & _ & Hbs).
  destruct Hbs as (sched & kind & count & nf & Hcfg & Hcount & Hnf & Hsh &
                   Hlog).
  exists lr, sched, kind, count, nf.
  rewrite (ok_layers_cfg _ Hc), (ok_stage_filters _ Hc) in *.
  repeat (split; [done|]). split; [|done].
  by eapply stage_log_quiet.
Qed.

Lemma layer_warp_schedule_witness :
  ResNet__init__ sample_adapter default_args = Ok (instance_of default_args) ∧
  buildable (instance_of default_args) 4 ∧
  (curr_stage new_state < 5)%nat ∧
  returns (layer_warp (instance_of default_args) image 4) new_state
    (λ out st' evs,
       layer_warp_blocks (instance_of default_args) image 4 new_state out evs).
Proof.
  assert (buildable (instance_of default_args) 4) as Hb.
  { split; [|split; [|split]].
    - rewrite !elem_of_cons. right; right; left; reflexivity.
    - apply not_elem_of_nil.
    - apply not_elem_of_nil.
    - intros _. apply not_elem_of_nil. }
  assert (curr_stage new_state < 5)%nat as Hcs by (simpl; lia).
  split; [reflexivity|]. split; [exact Hb|]. split; [exact Hcs|].
  pose proof (layer_warp_schedule sample_adapter default_args
                (instance_of default_args) eq_refl) as H.
  exact (proj2 (proj2 (proj2 (proj2 (proj2 (proj2 (proj2 (proj2 (proj2 H))))))))
           4 image new_state Hb Hcs).
Defined.

(** ** Auxiliary blocks *)

Lemma conv_norm_log_convs self input nf k s dcn lr out evs :
  conv_norm_log self input nf k s dcn lr out evs →
  ∃ a cout, convs evs = [(dcn, a, cout)] ∧ c_filter_size a = k ∧
            length (offset_convs evs) = if dcn then 1%nat else 0%nat.
Proof. intros (a&cout&?&?&?&?&?&?&?&?&?&?&?). by exists a, cout. Qed.

Lemma shortcut_log_convs self input ch_out stride is_first lr out evs :
  shortcut_log self input ch_out stride is_first lr out evs →
  Forall (λ c, c.1.1 = false ∧ is_3x3 c = false) (convs evs) ∧
  length (offset_convs evs) = 0%nat.
Proof.
  unfold shortcut_log.
  destruct (projects _ _ _ _ _); [|by intros [-> _]].
  destruct (_ && _).
  - intros (pooled & evs' & -> & _ & H).
    apply conv_norm_log_convs in H as (a & cout & Hc & Hk & Ho).
    change (convs (pool2d (shortcut_pool input) pooled :: evs'))
      with (convs evs').
    change (offset_convs (pool2d (shortcut_pool input) pooled :: evs'))
      with (offset_convs evs').
    rewrite Hc, Ho. split; [|done]. constructor; [|done].
    unfold is_3x3. simpl. by rewrite Hk.
  - intros H. apply conv_norm_log_convs in H as (a & cout & Hc & Hk & Ho).
    rewrite Hc, Ho. split; [|done]. constructor; [|done].
    unfold is_3x3. simpl. by rewrite Hk.
Qed.

Lemma filter_none {A} (P : A → Prop) `{∀ x, Decision (P x)} (l : list A) :
  Forall (λ x, ¬ P x) l → filter P l = [].
Proof.
  induction 1 as [|x l Hx _ IH]; [done|]. by rewrite filter_cons_False.
Qed.

Lemma bottleneck_log_dcn self input nf stride is_first dcn lr out evs :
  bottleneck_log self input nf stride is_first dcn lr out evs →
  dcn_placed dcn 1 evs.
Proof.
  intros (r1 & r2 & r3 & short & e1 & e2 & e3 & esc & act & name & -> &
          H1 & H2 & H3 & Hs & _).
  apply conv_norm_log_convs in H1 as (a1 & c1 & Hc1 & Hk1 & Ho1).
  apply conv_norm_log_convs in H2 as (a2 & c2 & Hc2 & Hk2 & Ho2).
  apply conv_norm_log_convs in H3 as (a3 & c3 & Hc3 & Hk3 & Ho3).
  apply shortcut_log_convs in Hs as (Hcs & Hos).
  unfold dcn_placed.
  rewrite !convs_app, !offset_convs_app, Hc1, Hc2, Hc3, !length_app,
    Ho1, Ho2, Ho3, Hos.
  change (convs [elementwise_add short r3 act name out]) with
    (@nil (bool * conv_args * TensorVar)).
  rewrite app_nil_r. simpl.
  split; [|split].
  - apply Forall_cons. split; [unfold is_3x3; simpl; by rewrite Hk1|].
    apply Forall_cons. split; [unfold is_3x3; simpl; by rewrite Hk2|].
    apply Forall_cons. split; [unfold is_3x3; simpl; by rewrite Hk3|].
    eapply Forall_impl; [exact Hcs|]. intros c [Hd H3]. by rewrite Hd, H3.
  - rewrite filter_cons_False by (unfold is_3x3; simpl; by rewrite Hk1).
    rewrite filter_cons_True by (unfold is_3x3; simpl; by rewrite Hk2).
    rewrite filter_cons_False by (unfold is_3x3; simpl; by rewrite Hk3).
    simpl.
    rewrite filter_none; [done|].
    eapply Forall_impl; [exact Hcs|]. intros c [_ H3]. by rewrite H3.
  - by destruct dcn.
Qed.

Lemma stage_log_dcn self nf dcn lr x n y evs :
  stage_log self self_bottleneck nf dcn lr x n y evs → dcn_placed dcn n evs.
Proof.
  induction 1 as [|n y ev1 stride is_first z ev2 _ (IH1 & IH2 & IH3) Hb].
  - split; [constructor|]. split; [done|]. by destruct dcn.
  - simpl in Hb. apply bottleneck_log_dcn in Hb as (Hb1 & Hb2 & Hb3).
    unfold dcn_placed.
    rewrite convs_app, offset_convs_app, filter_app, !length_app, IH2, Hb2,
      IH3, Hb3.
    split; [by apply Forall_app|]. split; [lia|]. destruct dcn; lia.
Qed.

Lemma range_cons lo hi : lo < hi → range lo hi = lo :: range (lo + 1) hi.
Proof.
  intros Hlt. unfold range.
  replace (Z.to_nat (hi - lo)) with (S (Z.to_nat (hi - (lo + 1)))) by lia.
  simpl. f_equal; [lia|].
  rewrite <- fmap_S_seq, <- list_fmap_compose.
  apply list_fmap_ext. intros _ k _. simpl. lia.
Qed.

Lemma assert_Ok b st : b = true → assert b st = Ok (tt, st, []).
Proof. by intros ->. Qed.

Lemma lift_Ok {A} (r : result A) a st : r = Ok a → lift r st = Ok (a, st, []).
Proof. by intros ->. Qed.

(** [layer_warp] raises what its first block raises. *)
Lemma layer_warp_Raise self input i st e :
  constructed self →
  i ∈ [2; 3; 4; 5] →
  i ∉ nonlocal_stages self →
  (∀ kind sched nf stride is_first name gcb_name,
     layers_cfg self !! layers self = Some (sched, kind) →
     call_block kind self input nf stride is_first name
       (py_in i (dcn_v2_stages self)) (py_in i (gcb_stages self)) gcb_name st
     = Raise e) →
  layer_warp self input i st = Raise e.
Proof.
  intros Hc Hi Hnl Hblock.
  destruct (stage_config _ _ (ok_layers _ Hc) Hi)
    as (sched & kind & count & nf & Hcfg & Hcount & Hnf & Hrange & Hkind).
  unfold layer_warp.
  erewrite bind_Ok by (by apply assert_Ok, py_in_true). cbv beta.
  erewrite bind_Ok.
  2:{ apply lift_Ok. unfold dict_getitem.
      by rewrite (ok_layers_cfg _ Hc), Hcfg. }
  cbv beta iota.
  erewrite bind_Ok by (by apply lift_Ok). cbv beta.
  erewrite bind_Ok by (by apply lift_Ok; rewrite (ok_stage_filters _ Hc)).
  cbv beta.
  apply py_in_false in Hnl. rewrite Hnl.
  erewrite bind_Ok by reflexivity. cbv beta.
  rewrite range_cons by lia. simpl for_each.
  erewrite bind_Raise; [reflexivity|].
  apply bind_Raise, bind_Raise.
  replace (if py_in i (dcn_v2_stages self) then true else false)
    with (py_in i (dcn_v2_stages self))
    by (by destruct (py_in i (dcn_v2_stages self))).
  eapply Hblock. by rewrite (ok_layers_cfg _ Hc).
Qed.

(** C4 fails as stated: with basic blocks (layers 18), a stage listed in
    [dcn_v2_stages] gets no deformable convolution; building it is rejected
    by the assertion of [basicblock]. *)
Lemma dcn_v2_stage_of_basicblocks_rejected :
  ResNet__init__ sample_adapter resnet18_dcn_args
  = Ok (instance_of resnet18_dcn_args) ∧
  py_in 2 (dcn_v2_stages (instance_of resnet18_dcn_args)) = true ∧
  layer_warp (instance_of resnet18_dcn_args) image 2 new_state
  = Raise AssertionError ∧
  __call__ (instance_of resnet18_dcn_args) image new_state
  = Raise AssertionError.
Proof. repeat split; vm_compute; reflexivity. Qed.

(** C4, amended. With bottleneck blocks (layers 50 and more), in a stage i
    built without global-context or non-local request, the 3x3 convolution
    of every block is a deformable conv v2, with its offset predictor,
    if and only if i is in [dcn_v2_stages], and no other convolution of the
    stage is deformable.  With basic blocks (layers 18 and 34), building a
    stage listed in [dcn_v2_stages] or [gcb_stages] raises an assertion
    error. *)
Theorem auxiliary_blocks_by_stage adapter a self i input st :
  ResNet__init__ adapter a = Ok self →
  i ∈ [2; 3; 4; 5] →
  (curr_stage st < 5)%nat →
  (50 ≤ layers self → i ∉ gcb_stages self → i ∉ nonlocal_stages self →
   returns (layer_warp self input i) st
     (λ out st' evs, layer_warp_dcn self i evs)) ∧
  (layers self < 50 → i ∈ dcn_v2_stages self ∨ i ∈ gcb_stages self →
   layer_warp self input i st = Raise AssertionError).
Proof.
  intros Hinit Hi Hcs. pose proof (init_constructed _ _ _ Hinit) as Hc.
  destruct (lr_mult_lookup self (curr_stage st) Hc Hcs) as [lr Hlr].
  destruct (stage_config _ _ (ok_layers _ Hc) Hi)
    as (sched & kind & count & nf & Hcfg & Hcount & Hnf & Hrange & Hkind).
  rewrite <- (ok_layers_cfg _ Hc) in Hcfg.
  split.
  - intros Hge Hgcb Hnl.
    eapply returns_mono.
    { apply (layer_warp_returns self input i st lr Hc); [|done].
      split; [done|]. split; [done|]. split; [done|]. lia. }
    simpl. intros out st' evs (_ & _ & _ & Hbs).
    destruct Hbs as (sched' & kind' & count' & nf' & Hcfg' & Hcount' & _ & _ &
                     Hlog).
    rewrite Hcfg in Hcfg'. injection Hcfg' as <- <-.
    rewrite Hcount in Hcount'. injection Hcount' as <-.
    assert (kind = self_bottleneck) as ->.
    { destruct kind; [|done]. destruct Hkind as [Hk _]. specialize (Hk eq_refl).
      lia. }
    exists sched, count. split; [done|]. split; [done|].
    by eapply stage_log_dcn.
  - intros Hlt Hreq.
    apply layer_warp_Raise; [done|done|..].
    { rewrite (ok_nonlocal _ Hc Hlt). apply not_elem_of_nil. }
    intros kind' sched' nf' stride is_first name gcb_name Hcfg'.
    rewrite Hcfg in Hcfg'. injection Hcfg' as <- <-.
    destruct Hkind as [_ Hk]. rewrite (Hk Hlt). simpl.
    destruct Hreq as [Hd%py_in_true|Hg%py_in_true].
    + by rewrite Hd.
    + rewrite Hg. by destruct (py_in i (dcn_v2_stages self)).
Qed.

Lemma auxiliary_blocks_by_stage_witness :
  (ResNet__init__ sample_adapter resnet50_dcn_args
   = Ok (instance_of resnet50_dcn_args) ∧
   4 ∈ [2; 3; 4; 5] ∧ (curr_stage new_state < 5)%nat ∧
   50 ≤ layers (instance_of resnet50_dcn_args) ∧
   returns (layer_warp (instance_of resnet50_dcn_args) image 4) new_state
     (λ out st' evs, layer_warp_dcn (instance_of resnet50_dcn_args) 4 evs)) ∧
  (ResNet__init__ sample_adapter resnet18_dcn_args
   = Ok (instance_of resnet18_dcn_args) ∧
   2 ∈ [2; 3; 4; 5] ∧
   layers (instance_of resnet18_dcn_args) < 50 ∧
   layer_warp (instance_of resnet18_dcn_args) image 2 new_state
   = Raise AssertionError).
Proof.
  assert (curr_stage new_state < 5)%nat as Hcs by (simpl; lia).
  assert (4 ∈ [2; 3; 4; 5]) as H4.
  { rewrite !elem_of_cons. right; right; left; reflexivity. }
  assert (2 ∈ [2; 3; 4; 5]) as H2.
  { rewrite !elem_of_cons. left; reflexivity. }
  split.
  - split; [reflexivity|]. split; [exact H4|]. split; [exact Hcs|].
    split; [simpl; lia|].
    refine (proj1 (auxiliary_blocks_by_stage sample_adapter resnet50_dcn_args
                     (instance_of resnet50_dcn_args) 4 image new_state
                     eq_refl H4 Hcs) _ _ _).
    + simpl; lia.
    + apply not_elem_of_nil.
    + apply not_elem_of_nil.
  - split; [reflexivity|]. split; [exact H2|]. split; [simpl; lia|].
    refine (proj2 (auxiliary_blocks_by_stage sample_adapter resnet18_dcn_args
                     (instance_of resnet18_dcn_args) 2 image new_state
                     eq_refl H2 Hcs) _ _).
    + simpl; lia.
    + left. simpl. rewrite !elem_of_cons. left; reflexivity.
Defined.

(** ** The stage counter *)

Lemma call_block_IndexError kind self input nf stride is_first name dcn
    gcb_name st :
  constructed self →
  (kind = self_basicblock → dcn = false) →
  (length (lr_mult_list self) ≤ curr_stage st)%nat →
  call_block kind self input nf stride is_first name dcn false gcb_name st
  = Raise IndexError.
Proof.
  intros Hc Hdcn Hlen. destruct kind; simpl.
  - rewrite (Hdcn eq_refl). unfold basicblock. simpl.
    erewrite bind_Ok by reflexivity. cbv beta.
    erewrite bind_Ok by reflexivity. cbv beta.
    erewrite bind_Raise; [reflexivity|]. by apply _conv_norm_IndexError.
  - unfold bottleneck.
    rewrite (ok_groups _ Hc), (ok_group_width _ Hc), (ok_std_senet _ Hc).
    simpl getattr. cbv iota.
    destruct (fix_bottleneck_name (na self) name) as [[[n1 n2] n3] n4].
    destruct (String.eqb (variant self) "a"); simpl;
      apply bind_Raise, bind_Raise; by apply _conv_norm_IndexError.
Qed.

Lemma layer_warp_IndexError self input i st :
  constructed self →
  buildable self i →
  (length (lr_mult_list self) ≤ curr_stage st)%nat →
  layer_warp self input i st = Raise IndexError.
Proof.
  intros Hc (Hi & Hgcb & Hnl & Hdcn) Hlen.
  apply layer_warp_Raise; [done..|].
  intros kind sched nf stride is_first name gcb_name Hcfg.
  rewrite (proj2 (py_in_false _ _) Hgcb).
  apply call_block_IndexError; [done| |done].
  intros ->. apply py_in_false, Hdcn.
  destruct (stage_config _ _ (ok_layers _ Hc) Hi)
    as (sched' & kind' & _ & _ & Hcfg' & _ & _ & _ & Hkind).
  rewrite (ok_layers_cfg _ Hc), Hcfg' in Hcfg. injection Hcfg as -> ->.
  by apply Hkind.
Qed.

(** A call on an instance whose counter has reached the length of
    [lr_mult_list] minus one fails in the first stage it builds. *)
Lemma __call___IndexError self input st :
  constructed self →
  severed_head self = None →
  callable self →
  (∃ j, j ∈ feature_maps self ∧ 2 ≤ j) →
  curr_stage st = 4%nat →
  __call__ self input st = Raise IndexError.
Proof.
  intros Hc Hsev [Hfm Hb] (j & Hj & Hj2) Hcs.
  destruct (py_max_spec _ (ok_feature_maps _ Hc)) as (m & Hmax & Hmin & Hmle).
  pose proof (Hmle j Hj) as Hjm.
  destruct (lr_mult_lookup self (curr_stage st) Hc) as [lr Hlr]; [lia|].
  pose proof (c1_stage_returns self input st lr Hc Hlr) as Hc1.
  apply returns_Ok in Hc1
    as (c1out & st1 & ev1 & Hrun & Hcs1 & _).
  unfold __call__. rewrite Hsev. simpl getattr. simpl negb. cbv iota.
  erewrite bind_Ok by (by apply assert_Ok, forallb_py_in). cbv beta.
  erewrite bind_Ok.
  2:{ erewrite bind_Ok by exact Hrun. cbv beta.
      erewrite bind_Ok by (by apply lift_Ok). cbv beta. reflexivity. }
  cbv beta iota.
  rewrite range_cons by lia. simpl for_each.
  erewrite bind_Raise; [reflexivity|].
  apply bind_Raise. unfold build_stage.
  erewrite bind_Ok by reflexivity. cbv beta.
  erewrite bind_Raise; [reflexivity|].
  apply layer_warp_IndexError; [done| |].
  - apply (Hb 2 j); [done|lia].
  - simpl. rewrite (ok_lr_mult_list _ Hc). lia.
Qed.

(** C9. [__call__] increments [self.curr_stage] once per stage it builds and
    never resets it.  With [feature_maps = [2, 3, 4, 5]] and the
    non-severed head, the first call (counter 0) ends with the counter at
    4; a second call on the same instance then reads [lr_mult_list], which
    has 5 elements, at index 5: it raises an index error. *)
Theorem second_call_fails adapter a self input st :
  ResNet__init__ adapter a = Ok self →
  feature_maps self = [2; 3; 4; 5] →
  callable self →
  curr_stage st = 0%nat →
  returns (__call__ self input) st (λ r st' evs, first_call_post self st').
Proof.
  intros Hinit Hfm Hcall Hcs.
  pose proof (init_constructed _ _ _ Hinit) as Hc.
  apply ResNet__init___Ok in Hinit as (_ & Hsev & _).
  eapply returns_mono; [by apply __call___returns|].
  simpl. intros r st' evs
    (m & lr0 & c1out & ev_c1 & outs & res & ev_st & ev_head & Hmax & _ & _ &
     Hfst & _ & _ & _ & Hcs' & _).
  rewrite Hfm in Hmax. injection Hmax as <-.
  assert (curr_stage st' = 4%nat) as Hcs4.
  { rewrite Hcs', <- (length_fmap fst outs), Hfst. reflexivity. }
  split; [done|]. split.
  - intros k Hk. apply lookup_ge_None_2. rewrite (ok_lr_mult_list _ Hc). lia.
  - intros input'. apply __call___IndexError; [done..| |done].
    exists 2. rewrite Hfm, elem_of_cons. split; [by left|lia].
Qed.

Lemma default_callable : callable (instance_of default_args).
Proof.
  split.
  - simpl. repeat (apply Forall_cons; split; [by_decide|]). constructor.
  - intros i j Hj Hij.
    change (feature_maps (instance_of default_args)) with [2; 3; 4; 5] in Hj.
    rewrite !elem_of_cons, elem_of_nil in Hj.
    split; [|split; [|split]].
    + assert (i = 2 ∨ i = 3 ∨ i = 4 ∨ i = 5) as [->|[->|[->| ->]]] by lia;
        by_decide.
    + apply not_elem_of_nil.
    + apply not_elem_of_nil.
    + intros _. apply not_elem_of_nil.
Qed.

Lemma second_call_fails_witness :
  ResNet__init__ sample_adapter default_args = Ok (instance_of default_args) ∧
  feature_maps (instance_of default_args) = [2; 3; 4; 5] ∧
  callable (instance_of default_args) ∧
  curr_stage new_state = 0%nat ∧
  returns (__call__ (instance_of default_args) image) new_state
    (λ r st' evs, first_call_post (instance_of default_args) st').
Proof.
  split; [reflexivity|]. split; [reflexivity|].
  split; [exact default_callable|]. split; [reflexivity|].
  apply (second_call_fails sample_adapter default_args);
    [reflexivity|reflexivity|exact default_callable|reflexivity].
Defined.

(** ** Output selection *)





(** ** Keys and endpoints *)







Lemma snd_determines_fst {A B} (l : list (A * B)) a b v :
  NoDup l.*2 → (a, v) ∈ l → (b, v) ∈ l → a = b.
Proof.
  induction l as [|[a' v'] l IH]; simpl; intros Hnd Ha Hb.
  - by apply elem_of_nil in Ha.
  - apply NoDup_cons in Hnd as [Hv' Hnd].
    apply elem_of_cons in Ha as [Ha|Ha];
      apply elem_of_cons in Hb as [Hb|Hb]; simplify_eq.
    + done.
    + exfalso. apply Hv'. apply list_elem_of_fmap. by exists (b, v').
    + exfalso. apply Hv'. apply list_elem_of_fmap. by exists (a, v').
    + by apply IH.
Qed.











(** A callable instance without auxiliary blocks. *)
Lemma plain_callable a :
  Forall (λ i, i ∈ [1; 2; 3; 4; 5]) (feature_maps_of a) →
  a_gcb_stages a = [] → a_nonlocal_stages a = [] → a_dcn_v2_stages a = [] →
  callable (instance_of a).
Proof.
  intros Hfm Hg Hn Hd. split; [done|].
  intros i j Hj Hij. simpl in Hj.
  rewrite Forall_forall in Hfm. specialize (Hfm j Hj).
  unfold buildable. simpl. rewrite Hg, Hn, Hd.
  split; [|split; [|split]]; try (intros; apply not_elem_of_nil).
  assert (j ≤ 5).
  { repeat (apply elem_of_cons in Hfm as [->|Hfm]); try lia.
    by apply elem_of_nil in Hfm. }
  assert (i = 2 ∨ i = 3 ∨ i = 4 ∨ i = 5) as [->|[->|[->| ->]]] by lia;
    by_decide.
Qed.


Lemma swapped_feature_maps_mislabelled :
  returns (__call__ (instance_of swapped_args) image) new_state
    (λ r st' evs,
       ∃ c1out v2 v3 v4 v5 res ev_st,
         stages_log (instance_of swapped_args) c1out 0
           [(2, v2); (3, v3); (4, v4); (5, v5)] res ev_st ∧
         v2 ≠ v5 ∧
         r = Endpoints [("res5_sum", v2); ("res2_sum", v5)]).
Proof.
  eapply returns_mono.
  { apply __call___returns; [|reflexivity| |reflexivity].
    - by apply (init_constructed sample_adapter swapped_args).
    - apply plain_callable; [|reflexivity..].
      simpl. repeat (apply Forall_cons; split; [by_decide|]). constructor. }
  simpl. intros r st' evs
    (m & lr0 & c1out & ev_c1 & outs & res & ev_st & ev_head & Hmax & _ &
     _ & Hfst & Hlog & Hnd & _ & _ & _ & ->).
  injection Hmax as <-.
  change (range 2 (5 + 1)) with [2; 3; 4; 5] in Hfst.
  destruct outs as [|[i2 v2] [|[i3 v3] [|[i4 v4] [|[i5 v5] [|]]]]];
    try done.
  simpl in Hfst. injection Hfst as -> -> -> ->.
  exists c1out, v2, v3, v4, v5, res, ev_st.
  split; [done|]. split; [|reflexivity].
  simpl in Hnd. rewrite !NoDup_cons, !not_elem_of_cons in Hnd. tauto.
Qed.

(** ** The call as a function *)




(** ** Learning-rate multipliers and frozen stages *)

(** C7 at a failing input.  Stage 5 is built with [self.curr_stage = 4],
    and [lr_mult_list[4]] is 1/2.  The plain convolutions of the stage get
    the learning rate 1/2; the deformable convolutions and their offset
    predictors are created without [learning_rate] and keep the
    framework's default 1. *)
Theorem deformable_conv_ignores_lr_mult :
  ResNet__init__ sample_adapter dcn_lr_args = Ok (instance_of dcn_lr_args) ∧
  lr_mult_list (instance_of dcn_lr_args) !! 4%nat = Some (1 # 2)%Q ∧
  match layer_warp (instance_of dcn_lr_args)
          {| var_id := 100; shape1 := 1024 |} 5
          {| curr_stage := 4; next_var := 101 |} with
  | Ok (_, _, evs) =>
      weight_learning_rates evs
      = [(false, 1 # 2); (true, 1); (false, 1 # 2); (false, 1 # 2);
         (false, 1 # 2); (true, 1); (false, 1 # 2);
         (false, 1 # 2); (true, 1); (false, 1 # 2)]%Q ∧
      offset_learning_rates evs = [1; 1; 1]%Q
  | Raise _ => False
  end ∧
  match __call__ (instance_of dcn_lr_args) image new_state with
  | Ok (_, st', evs) =>
      curr_stage st' = 4%nat ∧
      filter (λ c, c.1 = true) (weight_learning_rates evs)
      = [(true, 1); (true, 1); (true, 1)]%Q
  | Raise _ => False
  end.
Proof.
  split; [reflexivity|]. split; [reflexivity|].
  split; vm_compute; split; reflexivity.
Qed.

(** The stage outputs assigned [stop_gradient = True] are those of the
    stages up to [freeze_at]. *)
Lemma stages_log_frozen self x cs outs res evs :
  stages_log self x cs outs res evs →
  frozen_vars evs = (filter (λ p, p.1 ≤ freeze_at self) outs).*2.
Proof.
  induction 1 as [|outs y ev1 i lr z ev2 _ IH _ _ Hz]; [done|].
  rewrite !frozen_vars_app, IH, Hz, filter_app, fmap_app. f_equal.
  rewrite filter_cons, filter_nil. simpl.
  destruct (Z.geb_spec (freeze_at self) i) as [Hge|Hlt];
    destruct (decide (i ≤ freeze_at self)); try lia; done.
Qed.

(** * Further properties of the builder *)

(** ** The check of [__call__] *)

(** The constructor does not check the range of [feature_maps]; [__call__]
    does: when [feature_maps] holds an index outside 1..5, every call of the
    constructed instance raises an assertion error. *)
Theorem call_rejects_unknown_stage adapter a self input st :
  ResNet__init__ adapter a = Ok self →
  (∃ i, i ∈ feature_maps self ∧ i ∉ [1; 2; 3; 4; 5]) →
  __call__ self input st = Raise AssertionError.
Proof.
  intros _ (i & Hi & Hout). unfold __call__.
  apply bind_Raise.
  assert (forallb (λ x, py_in x [1; 2; 3; 4; 5]) (feature_maps self) = false)
    as ->; [|done].
  apply not_true_is_false. intros Hall.
  rewrite forallb_forall in Hall.
  apply Hout, py_in_true, Hall, list_elem_of_In, Hi.
Qed.

Lemma call_rejects_unknown_stage_witness :
  ResNet__init__ sample_adapter stage6_args = Ok (instance_of stage6_args) ∧
  (∃ i, i ∈ feature_maps (instance_of stage6_args) ∧ i ∉ [1; 2; 3; 4; 5]) ∧
  __call__ (instance_of stage6_args) image new_state = Raise AssertionError.
Proof.
  assert (∃ i, i ∈ feature_maps (instance_of stage6_args)
               ∧ i ∉ [1; 2; 3; 4; 5]) as H6.
  { exists 6. split; by_decide. }
  split; [reflexivity|]. split; [exact H6|].
  apply (call_rejects_unknown_stage sample_adapter stage6_args);
    [reflexivity|exact H6].
Defined.

(** ** Stage 1 *)

Lemma c1_log_quiet self input lr out evs :
  c1_log self input lr out evs → adds evs = [] ∧ frozen_vars evs = [].
Proof.
  unfold c1_log. destruct (py_in (variant self) ["c"; "d"]).
  - intros (x1 & x2 & x3 & e1 & e2 & e3 & -> & H1 & H2 & H3).
    apply conv_norm_log_quiet in H1 as (_ & Ha1 & Hz1).
    apply conv_norm_log_quiet in H2 as (_ & Ha2 & Hz2).
    apply conv_norm_log_quiet in H3 as (_ & Ha3 & Hz3).
    by rewrite !adds_app, !frozen_vars_app, Ha1, Ha2, Ha3, Hz1, Hz2, Hz3.
  - intros (x1 & e1 & -> & H1).
    apply conv_norm_log_quiet in H1 as (_ & Ha1 & Hz1).
    by rewrite !adds_app, !frozen_vars_app, Ha1, Hz1.
Qed.

(** When [feature_maps] lists stage 1 only, the call builds the stem and
    nothing else, leaves the stage counter where it was, and returns an
    empty mapping: the output of the stem is never an endpoint. *)
Theorem stem_is_no_endpoint adapter a self input st :
  ResNet__init__ adapter a = Ok self →
  Forall (λ i, i = 1) (feature_maps self) →
  num_classes self = None →
  curr_stage st = 0%nat →
  returns (__call__ self input) st (stem_only_post self input st).
Proof.
  intros Hinit Hone Hnone Hcs.
  pose proof (init_constructed _ _ _ Hinit) as Hc.
  apply ResNet__init___Ok in Hinit as (_ & Hsev & _).
  assert (callable self) as Hcall.
  { rewrite Forall_forall in Hone. split.
    - apply Forall_forall. intros i ->%Hone. by_decide.
    - intros i j ->%Hone ?. lia. }
  eapply returns_mono; [by apply __call___returns|].
  simpl. intros r st' evs
    (m & lr0 & c1out & ev_c1 & outs & res & ev_st & ev_head & Hmax & Hlr0 &
     Hc1 & Hfst & Hlog & _ & -> & Hcs' & Hsel).
  destruct (py_max_spec _ (ok_feature_maps _ Hc)) as (m' & Hmax' & Hin & _).
  rewrite Hmax in Hmax'. injection Hmax' as <-.
  rewrite Forall_forall in Hone. apply Hone in Hin as ->.
  change (range 2 (1 + 1)) with (@nil Z) in Hfst.
  apply fmap_nil_inv in Hfst as ->.
  inversion Hlog as [Hx Hy Hz|]; [|by destruct outs]. subst.
  rewrite Hnone in Hsel. destruct Hsel as [-> ->].
  rewrite !app_nil_r.
  assert (keyed (feature_maps self) (endpoints_of self []).*2 = []) as ->.
  { unfold keyed. by destruct (feature_maps self). }
  split; [reflexivity|]. split; [by rewrite Hcs', Hcs|].
  split; [by eapply c1_log_quiet|]. by exists lr0, res.
Qed.

Lemma stem_is_no_endpoint_witness :
  ResNet__init__ sample_adapter stem_only_args
  = Ok (instance_of stem_only_args) ∧
  Forall (λ i, i = 1) (feature_maps (instance_of stem_only_args)) ∧
  num_classes (instance_of stem_only_args) = None ∧
  curr_stage new_state = 0%nat ∧
  returns (__call__ (instance_of stem_only_args) image) new_state
    (stem_only_post (instance_of stem_only_args) image new_state).
Proof.
  assert (Forall (λ i, i = 1) (feature_maps (instance_of stem_only_args)))
    as Hone by by_decide.
  split; [reflexivity|]. split; [exact Hone|]. split; [reflexivity|].
  split; [reflexivity|].
  apply (stem_is_no_endpoint sample_adapter stem_only_args);
    [reflexivity|exact Hone|reflexivity|reflexivity].
Defined.

(** ** Frozen stages *)

Lemma frozen_stage_iff (b : Z) (outs : list (Z * TensorVar)) i v :
  NoDup outs.*2 → (i, v) ∈ outs →
  v ∈ (filter (λ p, p.1 ≤ b) outs).*2 ↔ i ≤ b.
Proof.
  intros Hnd Hin. split.
  - intros ([j w] & Hw & Hjw)%list_elem_of_fmap. simpl in Hw. subst w.
    apply list_elem_of_filter in Hjw as [Hj Hjv]. simpl in Hj.
    by rewrite (snd_determines_fst outs i j v Hnd Hin Hjv).
  - intros Hi. apply list_elem_of_fmap. exists (i, v). split; [done|].
    by apply list_elem_of_filter.
Qed.

(** In a call on a new instance, the tensors assigned
    [stop_gradient = True] are, in order, the outputs of the stages that
    the call builds with [i <= freeze_at]: the output of stage [i] is
    frozen if and only if [freeze_at >= i], and neither the stem nor the
    head assigns any. *)
Theorem frozen_up_to_freeze_at adapter a self input st :
  ResNet__init__ adapter a = Ok self →
  callable self →
  curr_stage st = 0%nat →
  returns (__call__ self input) st
    (λ r st' evs, stages_frozen self input evs).
Proof.
  intros Hinit Hcall Hcs.
  pose proof (init_constructed _ _ _ Hinit) as Hc.
  apply ResNet__init___Ok in Hinit as (_ & Hsev & _).
  eapply returns_mono; [by apply __call___returns|].
  simpl. intros r st' evs
    (m & lr0 & c1out & ev_c1 & outs & res & ev_st & ev_head & Hmax & Hlr0 &
     Hc1 & Hfst & Hlog & Hnd & -> & _ & Hsel).
  assert (frozen_vars ev_head = []) as Hhead.
  { destruct (num_classes self).
    - by destruct Hsel as (pool & out & -> & _).
    - by destruct Hsel as [-> _]. }
  destruct (c1_log_quiet _ _ _ _ _ Hc1) as [_ Hz1].
  assert (frozen_vars (ev_c1 ++ ev_st ++ ev_head)
          = (filter (λ p, p.1 ≤ freeze_at self) outs).*2) as Hfz.
  { rewrite !frozen_vars_app, Hz1, Hhead, app_nil_r. simpl.
    by eapply stages_log_frozen. }
  exists m, lr0, c1out, ev_c1, outs, res, ev_st, ev_head.
  do 9 (split; [done|]). split; [done|].
  intros i v Hin. rewrite Hfz. by apply frozen_stage_iff.
Qed.

Lemma frozen_callable : callable (instance_of frozen_args).
Proof.
  apply plain_callable; [|reflexivity..].
  simpl. repeat (apply Forall_cons; split; [by_decide|]). constructor.
Qed.

Lemma frozen_up_to_freeze_at_witness :
  ResNet__init__ sample_adapter frozen_args = Ok (instance_of frozen_args) ∧
  callable (instance_of frozen_args) ∧
  curr_stage new_state = 0%nat ∧
  returns (__call__ (instance_of frozen_args) image) new_state
    (λ r st' evs, stages_frozen (instance_of frozen_args) image evs).
Proof.
  split; [reflexivity|]. split; [exact frozen_callable|].
  split; [reflexivity|].
  apply (frozen_up_to_freeze_at sample_adapter frozen_args);
    [reflexivity|exact frozen_callable|reflexivity].
Defined.

(** ** Learning rates and frozen normalization *)

Lemma lr_applied_app self lr e1 e2 :
  lr_applied self lr e1 → lr_applied self lr e2 → lr_applied self lr (e1 ++ e2).
Proof.
  intros [? ?] [? ?]. split; rewrite ?convs_app, ?norms_app;
    by apply Forall_app.
Qed.

Lemma norm_params_frozen_app self e1 e2 :
  norm_params_frozen self e1 → norm_params_frozen self e2 →
  norm_params_frozen self (e1 ++ e2).
Proof.
  unfold norm_params_frozen. intros H1 H2.
  rewrite frozen_params_app, norms_app, flat_map_app, H1, H2.
  by destruct (freeze_norm self).
Qed.

(** A log that satisfies both. *)
Lemma conv_norm_log_params self input nf k s dcn lr out evs :
  conv_norm_log self input nf k s dcn lr out evs →
  lr_applied self lr evs ∧ norm_params_frozen self evs.
Proof.
  intros (a & cout & pattr & battr & Hc & _ & _ & _ & _ & _ & Hlr & _ & Hn &
          Hp & Hb & Hf & _).
  unfold lr_applied, norm_params_frozen. rewrite Hc, Hn, Hf. simpl.
  split; [split|].
  - by constructor.
  - by constructor.
  - by destruct (freeze_norm self).
Qed.

Lemma shortcut_log_params self input ch_out stride is_first lr out evs :
  shortcut_log self input ch_out stride is_first lr out evs →
  lr_applied self lr evs ∧ norm_params_frozen self evs.
Proof.
  unfold shortcut_log. destruct (projects _ _ _ _ _).
  - destruct (_ && _).
    + intros (pooled & evs' & -> & _ & H).
      apply conv_norm_log_params in H as [H1 H2].
      split.
      * apply (lr_applied_app self lr [_] evs'); [|done].
        split; constructor.
      * apply (norm_params_frozen_app self [_] evs'); [|done].
        unfold norm_params_frozen. simpl. by destruct (freeze_norm self).
    + apply conv_norm_log_params.
  - intros [-> _]. split; [split; constructor|].
    unfold norm_params_frozen. simpl. by destruct (freeze_norm self).
Qed.

Lemma add_params self lr x y act name out :
  lr_applied self lr [elementwise_add x y act name out] ∧
  norm_params_frozen self [elementwise_add x y act name out].
Proof.
  split; [split; constructor|].
  unfold norm_params_frozen. simpl. by destruct (freeze_norm self).
Qed.

Lemma block_log_params f self input nf stride is_first dcn lr out evs :
  block_log f self input nf stride is_first dcn lr out evs →
  lr_applied self lr evs ∧ norm_params_frozen self evs.
Proof.
  destruct f; simpl.
  - intros (_ & c0 & c1 & short & e0 & e1 & esc & act & name & -> &
            H0 & H1 & Hs & _).
    apply conv_norm_log_params in H0 as [? ?].
    apply conv_norm_log_params in H1 as [? ?].
    apply shortcut_log_params in Hs as [? ?].
    destruct (add_params self lr short c1 act name out).
    split; repeat first [apply lr_applied_app|apply norm_params_frozen_app];
      done.
  - intros (r1 & r2 & r3 & short & e1 & e2 & e3 & esc & act & name & -> &
            H1 & H2 & H3 & Hs & _).
    apply conv_norm_log_params in H1 as [? ?].
    apply conv_norm_log_params in H2 as [? ?].
    apply conv_norm_log_params in H3 as [? ?].
    apply shortcut_log_params in Hs as [? ?].
    destruct (add_params self lr short r3 act name out).
    split; repeat first [apply lr_applied_app|apply norm_params_frozen_app];
      done.
Qed.

Lemma stage_log_params self f nf dcn lr x n y evs :
  stage_log self f nf dcn lr x n y evs →
  lr_applied self lr evs ∧ norm_params_frozen self evs.
Proof.
  induction 1 as [|n y ev1 stride is_first z ev2 _ [IH1 IH2] Hb].
  - split; [split; constructor|].
    unfold norm_params_frozen. simpl. by destruct (freeze_norm self).
  - apply block_log_params in Hb as [? ?].
    split; [by apply lr_applied_app|by apply norm_params_frozen_app].
Qed.

Lemma built_stage_params self i lr x out evs :
  built_stage self i lr x out evs →
  lr_applied self lr evs ∧ norm_params_frozen self evs.
Proof.
  intros (sched & kind & count & nf & _ & _ & _ & _ & Hlog).
  by eapply stage_log_params.
Qed.

Lemma c1_log_params self input lr out evs :
  c1_log self input lr out evs →
  lr_applied self lr evs ∧ norm_params_frozen self evs.
Proof.
  assert (∀ x, lr_applied self lr [pool2d (stem_pool x) out]
               ∧ norm_params_frozen self [pool2d (stem_pool x) out])
    as Hpool.
  { intros x. split; [split; constructor|].
    unfold norm_params_frozen. simpl. by destruct (freeze_norm self). }
  unfold c1_log. destruct (py_in (variant self) ["c"; "d"]).
  - intros (x1 & x2 & x3 & e1 & e2 & e3 & -> & H1 & H2 & H3).
    apply conv_norm_log_params in H1 as [? ?].
    apply conv_norm_log_params in H2 as [? ?].
    apply conv_norm_log_params in H3 as [? ?].
    destruct (Hpool x3).
    split; repeat first [apply lr_applied_app|apply norm_params_frozen_app];
      done.
  - intros (x1 & e1 & -> & H1).
    apply conv_norm_log_params in H1 as [? ?].
    destruct (Hpool x1).
    split; [by apply lr_applied_app|by apply norm_params_frozen_app].
Qed.

Lemma lr_applied_norms_zero self lr evs :
  lr_applied self lr evs → freeze_norm self = true →
  Forall (λ n : TensorVar * ParamAttr * ParamAttr * TensorVar,
            learning_rate n.1.1.2 = 0%Q ∧ learning_rate n.1.2 = 0%Q)
    (norms evs).
Proof. intros [_ H] Hf. by rewrite Hf in H. Qed.

(** The normalization layers of the stages of a call. *)
Lemma stages_log_norms self x cs outs res evs :
  stages_log self x cs outs res evs →
  norm_params_frozen self evs ∧
  (freeze_norm self = true →
   Forall (λ n : TensorVar * ParamAttr * ParamAttr * TensorVar,
             learning_rate n.1.1.2 = 0%Q ∧ learning_rate n.1.2 = 0%Q)
     (norms evs)).
Proof.
  induction 1 as [|outs y ev1 i lr z ev2 _ [IH1 IH2] _ Hb _].
  - split; [|constructor].
    unfold norm_params_frozen. simpl. by destruct (freeze_norm self).
  - apply built_stage_params in Hb as [Hlr Hnp].
    assert (norm_params_frozen self
              (if freeze_at self >=? i
               then [set_stop_gradient (OfVar z)] else [])
            ∧ norms (if freeze_at self >=? i
                     then [set_stop_gradient (OfVar z)] else []) = [])
      as [Hfz Hnz].
    { unfold norm_params_frozen.
      destruct (freeze_at self >=? i), (freeze_norm self); done. }
    split.
    + by repeat apply norm_params_frozen_app.
    + intros Hf. rewrite !norms_app, Hnz, app_nil_r.
      apply Forall_app. split; [by apply IH2|].
      by eapply lr_applied_norms_zero.
Qed.

(** With [freeze_norm], every normalization layer of a call has learning
    rate 0 on its scale and bias, and both parameters are assigned
    [stop_gradient = True], layer by layer; without [freeze_norm], no
    parameter is frozen. *)
Theorem norm_layers_follow_freeze_norm adapter a self input st :
  ResNet__init__ adapter a = Ok self →
  callable self →
  curr_stage st = 0%nat →
  returns (__call__ self input) st (λ r st' evs, norms_of_call self evs).
Proof.
  intros Hinit Hcall Hcs.
  pose proof (init_constructed _ _ _ Hinit) as Hc.
  apply ResNet__init___Ok in Hinit as (_ & Hsev & _).
  eapply returns_mono; [by apply __call___returns|].
  simpl. intros r st' evs
    (m & lr0 & c1out & ev_c1 & outs & res & ev_st & ev_head & _ & _ &
     Hc1 & _ & Hlog & _ & -> & _ & Hsel).
  assert (norm_params_frozen self ev_head ∧ norms ev_head = [])
    as [Hhf Hhn].
  { unfold norm_params_frozen. destruct (num_classes self).
    - destruct Hsel as (pool & out & -> & _). by destruct (freeze_norm self).
    - destruct Hsel as [-> _]. by destruct (freeze_norm self). }
  apply c1_log_params in Hc1 as [Hlr1 Hnp1].
  apply stages_log_norms in Hlog as [Hnp2 Hz2].
  assert (norm_params_frozen self (ev_c1 ++ ev_st ++ ev_head)) as Hall
    by by repeat apply norm_params_frozen_app.
  split; [done|]. split.
  - intros Hf. rewrite !norms_app, Hhn, app_nil_r.
    apply Forall_app. split; [by eapply lr_applied_norms_zero|by apply Hz2].
  - intros Hf. unfold norm_params_frozen in Hall. by rewrite Hf in Hall.
Qed.

Lemma norm_layers_follow_freeze_norm_witness :
  ResNet__init__ sample_adapter frozen_args = Ok (instance_of frozen_args) ∧
  callable (instance_of frozen_args) ∧
  curr_stage new_state = 0%nat ∧
  returns (__call__ (instance_of frozen_args) image) new_state
    (λ r st' evs, norms_of_call (instance_of frozen_args) evs).
Proof.
  split; [reflexivity|]. split; [exact frozen_callable|].
  split; [reflexivity|].
  apply (norm_layers_follow_freeze_norm sample_adapter frozen_args);
    [reflexivity|exact frozen_callable|reflexivity].
Defined.





(** ** Requests that reach an unbound helper *)

Lemma raises_bind_l {A B} (m : M A) (k : A → M B) st :
  raises m st → raises (m ≫= k) st.
Proof. intros [e H]. exists e. by apply bind_Raise. Qed.

Lemma raises_bind_r {A B} (m : M A) (k : A → M B) st :
  (∀ a st1, raises (k a) st1) → raises (m ≫= k) st.
Proof.
  intros H. unfold raises, mbind, M_bind, bind.
  destruct (m st) as [[[a st1] ev1]|e]; [|eauto].
  destruct (H a st1) as [e ->]. eauto.
Qed.

Lemma raises_bind_Ok {A B} (m : M A) (k : A → M B) st a st1 ev1 :
  m st = Ok (a, st1, ev1) → raises (k a) st1 → raises (m ≫= k) st.
Proof.
  intros Hm [e He]. exists e. erewrite bind_Ok by exact Hm. by rewrite He.
Qed.

Lemma bind_Ok_inv {A B} (m : M A) (k : A → M B) st b st2 ev :
  (m ≫= k) st = Ok (b, st2, ev) →
  ∃ a st1 ev1 ev2,
    m st = Ok (a, st1, ev1) ∧ k a st1 = Ok (b, st2, ev2) ∧ ev = ev1 ++ ev2.
Proof.
  unfold mbind, M_bind, bind.
  destruct (m st) as [[[a st1] ev1]|e]; [|done].
  destruct (k a st1) as [[[b' st2'] ev2]|e] eqn:E; [|done].
  intros [= -> -> <-]. by exists a, st1, ev1, ev2.
Qed.

(** A loop raises when the body raises at one of its elements, whatever
    the iterations before it do. *)
Lemma raises_for_each {A B} (body : A → B → M B) l x :
  x ∈ l → (∀ acc st, raises (body x acc) st) →
  ∀ acc st, raises (for_each l body acc) st.
Proof.
  intros Hx Hb. induction l as [|y l IH]; [by apply elem_of_nil in Hx|].
  intros acc st. simpl. apply elem_of_cons in Hx as [<-|Hx].
  - apply raises_bind_l, Hb.
  - apply raises_bind_r. intros. by apply IH.
Qed.

(** A loop raises [e] at [x] when the iterations before return and keep an
    invariant under which the body raises [e] at [x]. *)
Lemma for_each_Raise_at {A B} (body : A → B → M B) (Inv : B → state → Prop)
    l1 x l2 e :
  (∀ y acc st, y ∈ l1 → Inv acc st →
     returns (body y acc) st (λ acc' st' _, Inv acc' st')) →
  (∀ acc st, Inv acc st → body x acc st = Raise e) →
  ∀ acc st, Inv acc st → for_each (l1 ++ x :: l2) body acc st = Raise e.
Proof.
  intros Hpre Hx. induction l1 as [|y l1 IH]; intros acc st Hi; simpl.
  - apply bind_Raise. by apply Hx.
  - assert (y ∈ y :: l1) as Hy by (apply elem_of_cons; by left).
    destruct (proj1 (returns_Ok _ _ _) (Hpre y acc st Hy Hi))
      as (acc1 & st1 & ev1 & Hrun & Hi1).
    erewrite bind_Ok by exact Hrun.
    rewrite IH; [done| |done].
    intros z acc' st' Hz. apply Hpre. apply elem_of_cons. by right.
Qed.

Lemma range_split lo a hi :
  lo ≤ a < hi → range lo hi = range lo a ++ a :: range (a + 1) hi.
Proof.
  intros H. rewrite <- (range_cons a hi) by lia. unfold range.
  replace (Z.to_nat (hi - lo))
    with (Z.to_nat (a - lo) + Z.to_nat (hi - a))%nat by lia.
  rewrite seq_app, fmap_app. f_equal. simpl.
  replace (seq (Z.to_nat (a - lo)) (Z.to_nat (hi - a)))
    with (Nat.add (Z.to_nat (a - lo)) <$> seq 0 (Z.to_nat (hi - a)))
    by (rewrite fmap_add_seq; f_equal; lia).
  rewrite <- list_fmap_compose. apply list_fmap_ext. intros _ k _. simpl. lia.
Qed.

(** The non-local period of a stage, against the number of its blocks. *)
Lemma nonlocal_config L i :
  L ∈ [50; 101; 152; 200] → i ∈ [2; 3; 4; 5] →
  ∃ sched count nm,
    the_layers_cfg !! L = Some (sched, self_bottleneck) ∧
    getitem sched (i - 2) = Ok count ∧
    (if i =? 4 then dict_getitem the_nonlocal_mod_cfg L else Ok 2) = Ok nm ∧
    2 ≤ nm ≤ count.
Proof.
  intros HL Hi.
  repeat (apply elem_of_cons in HL as [->|HL]);
    [..|by apply elem_of_nil in HL];
    (repeat (apply elem_of_cons in Hi as [->|Hi]);
     [..|by apply elem_of_nil in Hi]);
    eexists _, _, _; (split; [vm_compute; reflexivity|]);
    (split; [vm_compute; reflexivity|]);
    (split; [vm_compute; reflexivity|]); lia.
Qed.

Lemma nonlocal_layers self i :
  constructed self → i ∈ nonlocal_stages self →
  layers self ∈ [50; 101; 152; 200].
Proof.
  intros Hc Hi. pose proof (ok_layers _ Hc) as HL.
  destruct (decide (layers self < 50)) as [Hlt|Hge].
  { rewrite (ok_nonlocal _ Hc Hlt) in Hi. by apply elem_of_nil in Hi. }
  rewrite !elem_of_cons, elem_of_nil in *. lia.
Qed.

(** The period that [layer_warp] computes for a non-local stage. *)
Lemma nonlocal_mod_Ok self i nm st :
  constructed self →
  (if i =? 4 then dict_getitem the_nonlocal_mod_cfg (layers self) else Ok 2)
  = Ok nm →
  (if i =? 4
   then lift (dict_getitem (nonlocal_mod_cfg self) (layers self))
   else mret 2) st = Ok (nm, st, []).
Proof.
  intros Hc. rewrite (ok_nonlocal_mod_cfg _ Hc).
  destruct (i =? 4); [apply lift_Ok|by intros [= <-]].
Qed.

(** [layer_warp] raises what its first block raises. *)
Lemma layer_warp_first_Raise self input i st e :
  constructed self →
  i ∈ [2; 3; 4; 5] →
  (∀ kind sched nf stride is_first name gcb_name,
     layers_cfg self !! layers self = Some (sched, kind) →
     call_block kind self input nf stride is_first name
       (py_in i (dcn_v2_stages self)) (py_in i (gcb_stages self)) gcb_name st
     = Raise e) →
  layer_warp self input i st = Raise e.
Proof.
  intros Hc Hi Hblock.
  destruct (stage_config _ _ (ok_layers _ Hc) Hi)
    as (sched & kind & count & nf & Hcfg & Hcount & Hnf & Hrange & Hkind).
  unfold layer_warp.
  erewrite bind_Ok by (by apply assert_Ok, py_in_true). cbv beta.
  erewrite bind_Ok.
  2:{ apply lift_Ok. unfold dict_getitem.
      by rewrite (ok_layers_cfg _ Hc), Hcfg. }
  cbv beta iota.
  erewrite bind_Ok by (by apply lift_Ok). cbv beta.
  erewrite bind_Ok by (by apply lift_Ok; rewrite (ok_stage_filters _ Hc)).
  cbv beta.
  destruct (py_in i (nonlocal_stages self)) eqn:Hnl.
  - apply py_in_true in Hnl.
    destruct (nonlocal_config _ _ (nonlocal_layers _ _ Hc Hnl) Hi)
      as (_ & _ & nm & _ & _ & Hnm & _).
    erewrite bind_Ok by (by apply nonlocal_mod_Ok). cbv beta.
    rewrite range_cons by lia. simpl for_each.
    erewrite bind_Raise; [reflexivity|].
    apply bind_Raise, bind_Raise.
    replace (if py_in i (dcn_v2_stages self) then true else false)
      with (py_in i (dcn_v2_stages self))
      by (by destruct (py_in i (dcn_v2_stages self))).
    eapply Hblock. by rewrite (ok_layers_cfg _ Hc).
  - erewrite bind_Ok by reflexivity. cbv beta.
    rewrite range_cons by lia. simpl for_each.
    erewrite bind_Raise; [reflexivity|].
    apply bind_Raise, bind_Raise.
    replace (if py_in i (dcn_v2_stages self) then true else false)
      with (py_in i (dcn_v2_stages self))
      by (by destruct (py_in i (dcn_v2_stages self))).
    eapply Hblock. by rewrite (ok_layers_cfg _ Hc).
Qed.

(** A bottleneck that would be built without the global-context request
    runs into the unbound name with it. *)
Lemma bottleneck_gcb self input nf stride is_first name dcn gcb_name st r :
  bottleneck self input nf stride is_first name dcn false gcb_name st = Ok r →
  bottleneck self input nf stride is_first name dcn true gcb_name st
  = Raise (NameError "add_gc_block").
Proof.
  unfold bottleneck.
  destruct (String.eqb (variant self) "a");
    destruct (getattr (groups self) 1 =? 1);
    destruct (getattr (groups self) 1 * getattr (group_width self) (-1)
              =? 256);
    destruct (fix_bottleneck_name (na self) name) as [[[n1 n2] n3] n4];
    unfold mbind, M_bind, bind;
    (match goal with
     | |- context [for_each ?l ?b ?x st] =>
         destruct (for_each l b x st) as [[[r1 s1] e1]|]; [|done]
     end);
    (match goal with
     | |- context [_shortcut ?a ?b ?c ?d ?e ?f ?s] =>
         destruct (_shortcut a b c d e f s) as [[[r2 s2] e2]|]; [|done]
     end);
    (destruct (_squeeze_excitation self) as [se|];
     [match goal with
      | |- context [se ?a ?b ?c ?s] =>
          destruct (se a b c s) as [[[r3 s3] e3]|]; [|done]
      end|]);
    done.
Qed.

Lemma kind_of_layers self sched kind :
  constructed self →
  layers_cfg self !! layers self = Some (sched, kind) →
  kind = self_basicblock ↔ layers self < 50.
Proof.
  intros Hc Hcfg. rewrite (ok_layers_cfg _ Hc) in Hcfg.
  assert (2 ∈ [2; 3; 4; 5]) as H2 by by_decide.
  destruct (stage_config _ _ (ok_layers _ Hc) H2)
    as (sched' & kind' & _ & _ & Hcfg' & _ & _ & _ & Hkind).
  rewrite Hcfg' in Hcfg. by injection Hcfg as -> ->.
Qed.

(** A stage listed in [gcb_stages] cannot be built.  [layer_warp] raises in
    its first block: with basic blocks (layers below 50) the assertion of
    [basicblock], with bottlenecks the [NameError] of the name
    [add_gc_block], which the module never binds. *)
Theorem gcb_stage_raises adapter a self input i st :
  ResNet__init__ adapter a = Ok self →
  i ∈ [2; 3; 4; 5] →
  i ∈ gcb_stages self →
  (curr_stage st < 5)%nat →
  layer_warp self input i st = Raise (gcb_error self).
Proof.
  intros Hinit Hi Hg Hcs.
  pose proof (init_constructed _ _ _ Hinit) as Hc.
  apply layer_warp_first_Raise; [done..|].
  intros kind sched nf stride is_first name gcb_name Hcfg.
  pose proof (kind_of_layers _ _ _ Hc Hcfg) as Hkind.
  rewrite (proj2 (py_in_true _ _) Hg). unfold gcb_error.
  destruct kind.
  - rewrite (proj2 (Z.ltb_lt _ _) (proj1 Hkind eq_refl)).
    simpl. unfold basicblock.
    by destruct (py_in i (dcn_v2_stages self)).
  - assert (¬ layers self < 50) as Hge by (intros H; by apply Hkind in H).
    rewrite (proj2 (Z.ltb_ge _ _)) by lia.
    destruct (lr_mult_lookup self (curr_stage st) Hc Hcs) as [lr Hlr].
    assert (self_bottleneck = self_basicblock →
            py_in i (dcn_v2_stages self) = false) as Hd by done.
    pose proof (call_block_returns self_bottleneck self input nf stride
                  is_first name _ gcb_name st lr Hlr Hc Hd) as Hret.
    apply returns_Ok in Hret as (out & st' & evs & Hrun & _).
    simpl in *. by eapply bottleneck_gcb.
Qed.

Lemma gcb_stage_raises_witness :
  ResNet__init__ sample_adapter gcb_args = Ok (instance_of gcb_args) ∧
  3 ∈ gcb_stages (instance_of gcb_args) ∧
  layer_warp (instance_of gcb_args) image 3 new_state
  = Raise (NameError "add_gc_block").
Proof.
  split; [reflexivity|]. split; [by_decide|].
  apply (gcb_stage_raises sample_adapter gcb_args);
    [reflexivity|by_decide|by_decide|vm_compute; lia].
Defined.

(** A stage listed in [nonlocal_stages] cannot be built either.  The
    constructor admits such a stage only with bottlenecks; [layer_warp]
    builds the blocks before the first non-local position and the block at
    it, and then raises the [NameError] of the name [add_space_nonlocal],
    which the module never binds. *)
Theorem nonlocal_stage_raises adapter a self input i st :
  ResNet__init__ adapter a = Ok self →
  i ∈ [2; 3; 4; 5] →
  i ∈ nonlocal_stages self →
  i ∉ gcb_stages self →
  (curr_stage st < 5)%nat →
  layer_warp self input i st = Raise (NameError "add_space_nonlocal").
Proof.
  intros Hinit Hi Hnl Hg Hcs.
  pose proof (init_constructed _ _ _ Hinit) as Hc.
  destruct (nonlocal_config _ _ (nonlocal_layers _ _ Hc Hnl) Hi)
    as (sched & count & nm & Hcfg & Hcount & Hnm & Hrange).
  destruct (stage_config _ _ (ok_layers _ Hc) Hi)
    as (_ & _ & _ & nf & _ & _ & Hnf & _).
  destruct (lr_mult_lookup self (curr_stage st) Hc Hcs) as [lr Hlr].
  unfold layer_warp.
  erewrite bind_Ok by (by apply assert_Ok, py_in_true). cbv beta.
  erewrite bind_Ok.
  2:{ apply lift_Ok. unfold dict_getitem.
      by rewrite (ok_layers_cfg _ Hc), Hcfg. }
  cbv beta iota.
  erewrite bind_Ok by (by apply lift_Ok). cbv beta.
  erewrite bind_Ok by (by apply lift_Ok; rewrite (ok_stage_filters _ Hc)).
  cbv beta.
  rewrite (proj2 (py_in_true _ _) Hnl), (proj2 (py_in_false _ _) Hg).
  erewrite bind_Ok by (by apply nonlocal_mod_Ok). cbv beta.
  rewrite (range_split 0 (nm - 1) count) by lia.
  erewrite bind_Raise; [reflexivity|].
  apply for_each_Raise_at
    with (Inv := λ _ st', curr_stage st' = curr_stage st); [| |done].
  - intros y [conv isf] st1 Hy Hcs1. apply range_elem_of in Hy.
    apply returns_bind. eapply returns_mono.
    { apply call_block_returns with (lr_mult := lr);
        [by rewrite Hcs1|done|done]. }
    simpl. intros conv1 st2 ev2 (Hcs2 & _).
    replace (y `mod` nm =? nm - 1) with false.
    2:{ symmetry. apply Z.eqb_neq. rewrite Z.mod_small; lia. }
    apply returns_bind, returns_ret, returns_ret. congruence.
  - intros [conv isf] st1 Hcs1.
    match goal with
    | |- (call_block ?f ?s ?x ?n ?sd ?fi ?nm' ?d false ?g ≫= _) _ = _ =>
        pose proof (call_block_returns f s x n sd fi nm' d g st1 lr) as Hret
    end.
    apply returns_Ok in Hret as (out & st2 & ev2 & Hrun & _);
      [|by rewrite Hcs1|done|done].
    erewrite bind_Ok by exact Hrun. cbv beta.
    replace ((nm - 1) `mod` nm =? nm - 1) with true.
    2:{ symmetry. apply Z.eqb_eq, Z.mod_small. lia. }
    reflexivity.
Qed.

Lemma nonlocal_stage_raises_witness :
  ResNet__init__ sample_adapter nonlocal_args
  = Ok (instance_of nonlocal_args) ∧
  4 ∈ nonlocal_stages (instance_of nonlocal_args) ∧
  layer_warp (instance_of nonlocal_args) image 4 new_state
  = Raise (NameError "add_space_nonlocal").
Proof.
  split; [reflexivity|]. split; [by_decide|].
  apply (nonlocal_stage_raises sample_adapter nonlocal_args);
    [reflexivity|by_decide|by_decide| |vm_compute; lia].
  apply not_elem_of_nil.
Defined.

Lemma call_block_gcb_raises kind self input nf stride is_first name dcn
    gcb_name st :
  raises (call_block kind self input nf stride is_first name dcn true
            gcb_name) st.
Proof.
  destruct kind; simpl.
  - unfold basicblock. apply raises_bind_r. intros _ st1.
    apply raises_bind_l. by eexists.
  - unfold bottleneck.
    destruct (String.eqb (variant self) "a");
      destruct (getattr (groups self) 1 =? 1);
      destruct (getattr (groups self) 1 * getattr (group_width self) (-1)
                =? 256);
      destruct (fix_bottleneck_name (na self) name) as [[[n1 n2] n3] n4];
      (apply raises_bind_r; intros r1 st1;
       apply raises_bind_r; intros r2 st2;
       apply raises_bind_r; intros r3 st3;
       apply raises_bind_l; by eexists).
Qed.

(** From any state, [layer_warp] raises for a stage with a global-context
    or a non-local request. *)
Lemma layer_warp_raises self input i st :
  constructed self →
  i ∈ gcb_stages self ∨ i ∈ nonlocal_stages self →
  raises (layer_warp self input i) st.
Proof.
  intros Hc Haux. unfold layer_warp.
  destruct (py_in i [2; 3; 4; 5]) eqn:Hi.
  2:{ apply raises_bind_l. by eexists. }
  apply py_in_true in Hi.
  destruct (stage_config _ _ (ok_layers _ Hc) Hi)
    as (sched & kind & count & nf & Hcfg & Hcount & Hnf & Hrange & Hkind).
  eapply raises_bind_Ok; [reflexivity|].
  eapply raises_bind_Ok.
  { apply lift_Ok. unfold dict_getitem.
    by rewrite (ok_layers_cfg _ Hc), Hcfg. }
  cbv beta iota.
  eapply raises_bind_Ok; [by apply lift_Ok|].
  eapply raises_bind_Ok;
    [by apply lift_Ok; rewrite (ok_stage_filters _ Hc)|].
  destruct (py_in i (nonlocal_stages self)) eqn:Hnl.
  - apply py_in_true in Hnl.
    destruct (nonlocal_config _ _ (nonlocal_layers _ _ Hc Hnl) Hi)
      as (sched' & count' & nm & Hcfg' & Hcount' & Hnm & Hrange').
    rewrite Hcfg' in Hcfg. injection Hcfg as <- <-.
    rewrite Hcount' in Hcount. injection Hcount as <-.
    eapply raises_bind_Ok; [by apply nonlocal_mod_Ok|].
    apply raises_bind_l.
    apply raises_for_each with (x := nm - 1); [apply range_elem_of; lia|].
    intros [conv isf] st1. apply raises_bind_r. intros conv1 st2.
    apply raises_bind_l.
    replace ((nm - 1) `mod` nm =? nm - 1) with true.
    2:{ symmetry. apply Z.eqb_eq, Z.mod_small. lia. }
    by eexists.
  - destruct Haux as [Hg|Hn]; [|by apply py_in_false in Hnl].
    eapply raises_bind_Ok; [reflexivity|].
    apply raises_bind_l.
    apply raises_for_each with (x := 0); [apply range_elem_of; lia|].
    intros [conv isf] st1. apply raises_bind_l.
    rewrite (proj2 (py_in_true _ _) Hg). apply call_block_gcb_raises.
Qed.

(** An instance that lists, in [gcb_stages] or in [nonlocal_stages], a stage
    that a call has to build (a stage from 2 up to one of [feature_maps])
    is of no use: from whatever state, [__call__] raises. *)
Theorem aux_request_never_returns adapter a self input st :
  ResNet__init__ adapter a = Ok self →
  (∃ i j, (i ∈ gcb_stages self ∨ i ∈ nonlocal_stages self) ∧
          j ∈ feature_maps self ∧ 2 ≤ i ≤ j) →
  ∃ e, __call__ self input st = Raise e.
Proof.
  intros Hinit (i & j & Haux & Hj & Hij).
  pose proof (init_constructed _ _ _ Hinit) as Hc.
  apply ResNet__init___Ok in Hinit as (_ & Hsev & _).
  change (raises (__call__ self input) st).
  unfold __call__. rewrite Hsev. simpl getattr. simpl negb. cbv iota.
  apply raises_bind_r. intros _ st0.
  match goal with
  | |- raises (?m ≫= _) _ =>
      destruct (m st0) as [[[[res fm'] st1] ev1]|e] eqn:E
  end.
  2:{ apply raises_bind_l. by exists e. }
  eapply raises_bind_Ok; [exact E|]. cbv beta iota.
  apply bind_Ok_inv in E as (c1out & st2 & ev2 & ev3 & _ & E & _).
  apply bind_Ok_inv in E as (m & st3 & ev4 & ev5 & Hm & E & _).
  injection E as <- <- _ _.
  assert (py_max (feature_maps self) = Ok m) as Hmax.
  { unfold lift in Hm. destruct (py_max (feature_maps self)); [|done].
    by injection Hm as ->. }
  assert (j ≤ m) as Hjm.
  { destruct (py_max_spec (feature_maps self)) as (m' & Hm' & _ & Hle).
    - intros Hnil. rewrite Hnil in Hj. by apply elem_of_nil in Hj.
    - rewrite Hmax in Hm'. injection Hm' as <-. by apply Hle. }
  apply raises_bind_l.
  apply raises_for_each with (x := i); [apply range_elem_of; lia|].
  intros [res' eps] st4. unfold build_stage.
  apply raises_bind_r. intros _ st5.
  apply raises_bind_l. by apply layer_warp_raises.
Qed.

Lemma aux_request_never_returns_witness :
  ResNet__init__ sample_adapter nonlocal_args
  = Ok (instance_of nonlocal_args) ∧
  ∃ e, __call__ (instance_of nonlocal_args) image new_state = Raise e.
Proof.
  split; [reflexivity|].
  apply (aux_request_never_returns sample_adapter nonlocal_args);
    [reflexivity|].
  exists 4, 5. split; [right; by_decide|]. split; [by_decide|lia].
Defined.

(** ** The severed head ([ResNetC5]) *)

Lemma constructed_set_severed_head self v :
  constructed self → constructed (set_severed_head self v).
Proof. intros []. by constructor. Qed.

(** What [ResNetC5.__init__] leaves: an instance as the parent builds it
    from the defaults of the arguments it does not pass on, with the head
    severed. *)
Lemma ResNetC5__init___Ok adapter layers freeze_at norm_type freeze_norm
    norm_decay variant fm wpn self :
  ResNetC5__init__ adapter layers freeze_at norm_type freeze_norm norm_decay
    variant fm wpn = Ok self →
  constructed self ∧ severed_head self = Some true ∧
  num_classes self = None ∧
  (∀ i, i ∈ [2; 3; 4; 5] → buildable self i).
Proof.
  unfold ResNetC5__init__.
  destruct (ResNet__init__ _ _) as [self0|] eqn:E; [|done].
  intros [= <-].
  apply ResNet__init___Ok in E
    as (Hc & _ & _ & _ & _ & _ & _ & _ & _ & _ & Hd & _ & Hn & Hg & Hnc & _).
  simpl in *.
  split; [by apply constructed_set_severed_head|]. split; [done|].
  split; [done|].
  intros i Hi. unfold buildable. simpl. rewrite Hd, Hn, Hg.
  split; [done|]. split; [apply not_elem_of_nil|].
  split; [apply not_elem_of_nil|]. intros _. apply not_elem_of_nil.
Qed.

Lemma endpoints_of_all self outs :
  outs.*1 = feature_maps self → endpoints_of self outs = outs.
Proof.
  intros Hfst. unfold endpoints_of.
  assert (Forall (λ p : Z * TensorVar, p.1 ∈ feature_maps self) outs) as Hall.
  { apply Forall_forall. intros [i v] Hp. simpl. rewrite <- Hfst.
    apply list_elem_of_fmap. by exists (i, v). }
  clear Hfst. induction Hall as [|p l Hp _ IH]; [done|].
  rewrite filter_cons_True by done. by rewrite IH.
Qed.

Lemma stages_in_call (l : list Z) :
  Forall (λ i, i ∈ [2; 3; 4; 5]) l → Forall (λ i, i ∈ [1; 2; 3; 4; 5]) l.
Proof.
  intros H. eapply Forall_impl; [exact H|].
  intros i Hi. apply elem_of_cons. by right.
Qed.

(** A call of a [ResNetC5] instance builds no stem: it builds the stages of
    [feature_maps] in the order of the list, the first on the input itself,
    returns every output under the key of its stage, and advances the
    counter of the instance by the number of stages, as long as the counter
    stays below 5. *)
Theorem severed_call_builds_listed_stages adapter layers freeze_at norm_type
    freeze_norm norm_decay variant fm wpn self input st :
  ResNetC5__init__ adapter layers freeze_at norm_type freeze_norm norm_decay
    variant fm wpn = Ok self →
  Forall (λ i, i ∈ [2; 3; 4; 5]) (feature_maps self) →
  (curr_stage st + length (feature_maps self) < 5)%nat →
  returns (__call__ self input) st (severed_post self input st).
Proof.
  intros Hinit Hfm Hlen.
  apply ResNetC5__init___Ok in Hinit as (Hc & Hsev & Hnc & Hb).
  unfold __call__. rewrite Hsev, Hnc. simpl getattr. simpl negb. cbv iota.
  apply returns_bind, returns_assert;
    [by apply forallb_py_in, stages_in_call|].
  apply returns_bind, returns_ret, returns_bind.
  eapply returns_mono.
  { apply (build_stages_returns self (feature_maps self) input [] st Hc).
    - intros i Hi. apply Hb. rewrite Forall_forall in Hfm. by apply Hfm.
    - by rewrite (ok_lr_mult_list _ Hc). }
  simpl. intros [res eps] st2 ev_st
    (Hcs2 & Hnv2 & outs & Hfst & Hlog2 & Heps & Hbound & Hnd).
  simpl in Hlog2, Heps. rewrite (endpoints_of_all _ _ Hfst) in Heps.
  apply returns_bind.
  eapply returns_mono.
  { apply (pairs_returns (feature_maps self) eps). subst eps.
    by rewrite <- Hfst, !length_fmap. }
  simpl. intros pairs st3 ev3 (-> & -> & ->). apply returns_ret.
  exists outs, res. rewrite !app_nil_r. subst eps. done.
Qed.

Lemma severed_call_builds_listed_stages_witness :
  ResNetC5__init__ sample_adapter 50 2 "affine_channel" true 0%Q "b"
    (AList [5]) "" = Ok (c5_instance [5]) ∧
  returns (__call__ (c5_instance [5]) roi_feat) new_state
    (severed_post (c5_instance [5]) roi_feat new_state).
Proof.
  split; [reflexivity|].
  apply (severed_call_builds_listed_stages sample_adapter 50 2
           "affine_channel" true 0%Q "b" (AList [5]) "");
    [reflexivity| |vm_compute; lia].
  apply Forall_cons. split; [by_decide|constructor].
Defined.

Lemma for_each_prefix_Raise {A B} (body : A → B → M B) l1 x l2 e :
  ∀ acc st acc1 st1 ev1,
    for_each l1 body acc st = Ok (acc1, st1, ev1) →
    body x acc1 st1 = Raise e →
    for_each (l1 ++ x :: l2) body acc st = Raise e.
Proof.
  induction l1 as [|y l1 IH]; intros acc st acc1 st1 ev1 Hpre Hx; simpl in *.
  - injection Hpre as <- <- _. by apply bind_Raise.
  - apply bind_Ok_inv in Hpre as (a & s & e1 & e2 & Hy & Hrest & _).
    erewrite bind_Ok by exact Hy. by erewrite IH.
Qed.

(** The counter of a [ResNetC5] instance is never reset: once a call would
    take it to 5 or beyond, [_conv_norm] indexes [lr_mult_list] out of
    range and the call raises [IndexError].  With the default
    [feature_maps = [5]] that is the fifth call. *)
Theorem severed_call_counter_exhausted adapter layers freeze_at norm_type
    freeze_norm norm_decay variant fm wpn self input st :
  ResNetC5__init__ adapter layers freeze_at norm_type freeze_norm norm_decay
    variant fm wpn = Ok self →
  Forall (λ i, i ∈ [2; 3; 4; 5]) (feature_maps self) →
  (5 ≤ curr_stage st + length (feature_maps self))%nat →
  __call__ self input st = Raise IndexError.
Proof.
  intros Hinit Hfm Hlen.
  apply ResNetC5__init___Ok in Hinit as (Hc & Hsev & Hnc & Hb).
  pose proof (ok_feature_maps _ Hc) as Hne.
  assert (0 < length (feature_maps self))%nat as Hpos.
  { destruct (feature_maps self); [done|simpl; lia]. }
  set (k := (4 - curr_stage st)%nat).
  destruct (lookup_lt_is_Some_2 (feature_maps self) k) as [x Hx]; [lia|].
  assert (buildable self x) as Hbx.
  { apply Hb. rewrite Forall_forall in Hfm.
    by eapply Hfm, list_elem_of_lookup_2. }
  unfold __call__. rewrite Hsev. simpl getattr. simpl negb. cbv iota.
  erewrite bind_Ok by (by apply assert_Ok, forallb_py_in, stages_in_call).
  cbv beta.
  erewrite bind_Ok by reflexivity. cbv beta iota.
  erewrite bind_Raise; [reflexivity|].
  rewrite <- (take_drop_middle _ _ _ Hx).
  assert (∃ acc1 st1 ev1,
            for_each (take k (feature_maps self)) (build_stage self)
              (input, []) st = Ok (acc1, st1, ev1) ∧
            (4 ≤ curr_stage st1)%nat) as (acc1 & st1 & ev1 & Hpre & Hcs1).
  { destruct (decide (curr_stage st ≤ 4)%nat) as [Hle|Hgt].
    - pose proof (build_stages_returns self (take k (feature_maps self))
                    input [] st Hc) as Hret.
      apply returns_Ok in Hret as (acc1 & st1 & ev1 & Hrun & Hcs1 & _).
      + exists acc1, st1, ev1. split; [done|].
        rewrite Hcs1, length_take. lia.
      + intros i Hi. apply Hb. rewrite Forall_forall in Hfm.
        apply Hfm. apply elem_of_take in Hi as (j & Hj & _).
        by eapply list_elem_of_lookup_2.
      + rewrite (ok_lr_mult_list _ Hc), length_take. lia.
    - replace k with 0%nat by lia. rewrite take_0. simpl.
      exists (input, []), st, []. split; [done|lia]. }
  eapply for_each_prefix_Raise; [exact Hpre|].
  destruct acc1 as [res eps]. unfold build_stage.
  erewrite bind_Ok by reflexivity. cbv beta.
  erewrite bind_Raise; [reflexivity|].
  apply layer_warp_IndexError; [done..|].
  simpl. rewrite (ok_lr_mult_list _ Hc). lia.
Qed.

Lemma severed_call_counter_exhausted_witness :
  ResNetC5__init__ sample_adapter 50 2 "affine_channel" true 0%Q "b"
    (AList [5]) "" = Ok (c5_instance [5]) ∧
  __call__ (c5_instance [5]) roi_feat {| curr_stage := 4; next_var := 1 |}
  = Raise IndexError.
Proof.
  split; [reflexivity|].
  apply (severed_call_counter_exhausted sample_adapter 50 2
           "affine_channel" true 0%Q "b" (AList [5]) "");
    [reflexivity| |vm_compute; lia].
  apply Forall_cons. split; [by_decide|constructor].
Defined.

(** Stage 1 cannot be asked of a [ResNetC5] instance: the constructor and
    the check of [__call__] let it pass, but [layer_warp] only takes the
    stages 2 to 5, so that the call raises from whatever state. *)
Theorem severed_call_rejects_stage_1 adapter layers freeze_at norm_type
    freeze_norm norm_decay variant fm wpn self input st :
  ResNetC5__init__ adapter layers freeze_at norm_type freeze_norm norm_decay
    variant fm wpn = Ok self →
  1 ∈ feature_maps self →
  ∃ e, __call__ self input st = Raise e.
Proof.
  intros Hinit H1.
  apply ResNetC5__init___Ok in Hinit as (Hc & Hsev & Hnc & Hb).
  change (raises (__call__ self input) st).
  unfold __call__. rewrite Hsev. simpl getattr. simpl negb. cbv iota.
  apply raises_bind_r. intros _ st0.
  eapply raises_bind_Ok; [reflexivity|]. cbv beta iota.
  apply raises_bind_l.
  apply raises_for_each with (x := 1); [done|].
  intros [res eps] st1. unfold build_stage.
  apply raises_bind_r. intros _ st2.
  apply raises_bind_l. unfold layer_warp.
  apply raises_bind_l. by exists AssertionError.
Qed.

Lemma severed_call_rejects_stage_1_witness :
  ResNetC5__init__ sample_adapter 50 2 "affine_channel" true 0%Q "b"
    (AList [1; 5]) "" = Ok (c5_instance [1; 5]) ∧
  ∃ e, __call__ (c5_instance [1; 5]) roi_feat new_state = Raise e.
Proof.
  split; [reflexivity|].
  apply (severed_call_rejects_stage_1 sample_adapter 50 2
           "affine_channel" true 0%Q "b" (AList [1; 5]) "");
    [reflexivity|by_decide].
Defined.

(** ** Invariants of the log

    A property of logs that holds of the empty log, is kept by
    concatenation and holds of what each leaf operation logs, holds of the
    log of every call that returns. *)

Section log_invariants.

Variable P : list event → Prop.
Hypothesis P_nil : P [].
Hypothesis P_app : ∀ e1 e2, P e1 → P e2 → P (e1 ++ e2).

Lemma yields_ret {A} (a : A) : yields P (mret a).
Proof. by intros st a' st' evs [= _ _ <-]. Qed.

Lemma yields_raise {A} e : yields P (raise e : M A).
Proof. by intros st a st' evs H. Qed.

Lemma yields_bind {A B} (m : M A) (k : A → M B) :
  yields P m → (∀ a, yields P (k a)) → yields P (m ≫= k).
Proof.
  intros Hm Hk st b st' evs H.
  apply bind_Ok_inv in H as (a & st1 & ev1 & ev2 & H1 & H2 & ->).
  apply P_app; [by eapply Hm|by eapply Hk].
Qed.

Lemma yields_for_each {A B} (body : A → B → M B) l :
  (∀ x acc, x ∈ l → yields P (body x acc)) →
  ∀ acc, yields P (for_each l body acc).
Proof.
  induction l as [|y l IH]; intros Hb acc; simpl.
  - apply yields_ret.
  - apply yields_bind.
    + apply Hb, elem_of_cons. by left.
    + intros acc'. apply IH. intros x acc'' Hx.
      apply Hb, elem_of_cons. by right.
Qed.

Lemma yields_lift {A} (r : result A) : yields P (lift r).
Proof.
  intros st a st' evs H. unfold lift in H. destruct r; [|done].
  by injection H as _ _ <-.
Qed.

Lemma yields_assert b : yields P (assert b).
Proof. destruct b; [apply (yields_ret tt)|apply yields_raise]. Qed.

Lemma yields_incr_curr_stage : yields P incr_curr_stage.
Proof. by intros st a st' evs [= _ _ <-]. Qed.

Lemma yields_emit e : P [e] → yields P (emit e).
Proof. by intros H st a st' evs [= _ _ <-]. Qed.

Variable self : ResNet.
Hypothesis Hc : constructed self.

(** The blocks and the stem, from the layers. *)

Section blocks.

Hypothesis P_conv_norm : ∀ input nf k s act name dcn,
  conv_norm_site k s act dcn →
  yields P (_conv_norm self input nf k s 1 act name dcn).
Hypothesis P_pool2d : ∀ a out, P [pool2d a out].
Hypothesis P_elementwise_add : ∀ x y act name out,
  P [elementwise_add x y act name out].

Lemma yields_fluid_pool2d a : yields P (fluid_pool2d a).
Proof. intros st out st' evs [= _ _ <-]. apply P_pool2d. Qed.

Lemma yields_fluid_elementwise_add x y act name :
  yields P (fluid_elementwise_add x y act name).
Proof. intros st out st' evs [= _ _ <-]. apply P_elementwise_add. Qed.

Lemma site_1 s act : s ∈ [1; 2] → act ∈ [None; Some "relu"] →
  conv_norm_site 1 s act false.
Proof. intros. split; [by_decide|done]. Qed.

Lemma site_3 s act dcn : s ∈ [1; 2] → act ∈ [None; Some "relu"] →
  conv_norm_site 3 s act dcn.
Proof. intros. split; [by_decide|done]. Qed.

Lemma yields__shortcut input ch_out stride is_first name :
  stride ∈ [1; 2] →
  yields P (_shortcut self input ch_out stride is_first name).
Proof.
  intros Hs. unfold _shortcut. rewrite (ok_std_senet _ Hc). simpl getattr.
  cbv iota.
  destruct (_ || _); [|apply yields_ret].
  destruct (_ && _).
  - apply yields_bind; [apply yields_fluid_pool2d|]. intros pooled.
    apply P_conv_norm, site_1; by_decide.
  - apply P_conv_norm, site_1; [done|by_decide].
Qed.

Lemma yields_bottleneck input nf stride is_first name dcn gcb gcb_name :
  stride ∈ [1; 2] →
  yields P (bottleneck self input nf stride is_first name dcn gcb gcb_name).
Proof.
  intros Hs. unfold bottleneck.
  rewrite (ok_groups _ Hc), (ok_group_width _ Hc), (ok_std_senet _ Hc),
    (ok_squeeze_excitation _ Hc).
  simpl getattr. cbv iota.
  destruct (fix_bottleneck_name (na self) name) as [[[n1 n2] n3] n4].
  assert (1 ∈ [1; 2]) as H1 by by_decide.
  assert ((None : option string) ∈ [None; Some "relu"]) as Hn by by_decide.
  assert (Some "relu" ∈ [None; Some "relu"]) as Hr by by_decide.
  destruct (String.eqb (variant self) "a"); simpl;
    (apply yields_bind;
     [apply yields_bind; [by apply P_conv_norm, site_1|]; intros r1;
      apply yields_bind; [by apply P_conv_norm, site_3|]; intros r2;
      apply yields_bind; [by apply P_conv_norm, site_1|]; intros r3;
      apply yields_ret|]);
    (intros residual;
     apply yields_bind; [by apply yields__shortcut|]; intros short;
     apply yields_bind; [apply yields_ret|]; intros residual';
     apply yields_bind;
       [destruct gcb; [apply yields_raise|apply yields_ret]|];
     intros residual''; apply yields_fluid_elementwise_add).
Qed.

Lemma yields_basicblock input nf stride is_first name dcn gcb gcb_name :
  stride ∈ [1; 2] →
  yields P (basicblock self input nf stride is_first name dcn gcb gcb_name).
Proof.
  intros Hs. unfold basicblock.
  apply yields_bind; [apply yields_assert|]. intros _.
  apply yields_bind; [apply yields_assert|]. intros _.
  apply yields_bind; [apply P_conv_norm, site_3; [done|by_decide]|].
  intros conv0.
  apply yields_bind; [apply P_conv_norm, site_3; by_decide|].
  intros conv1.
  apply yields_bind; [by apply yields__shortcut|]. intros short.
  apply yields_fluid_elementwise_add.
Qed.

Lemma yields_call_block kind input nf stride is_first name dcn gcb
    gcb_name :
  stride ∈ [1; 2] →
  yields P (call_block kind self input nf stride is_first name dcn gcb
              gcb_name).
Proof.
  intros Hs. destruct kind; simpl;
    [by apply yields_basicblock|by apply yields_bottleneck].
Qed.

Lemma yields_c1_stage input : yields P (c1_stage self input).
Proof.
  unfold c1_stage.
  assert (Some "relu" ∈ [None; Some "relu"]) as Hr by by_decide.
  apply yields_bind; [|intros x; apply yields_fluid_pool2d].
  destruct (py_in (variant self) ["c"; "d"]); simpl.
  - apply yields_bind; [apply P_conv_norm, site_3; [by_decide|done]|].
    intros x1.
    apply yields_bind; [apply P_conv_norm, site_3; [by_decide|done]|].
    intros x2.
    apply yields_bind; [apply P_conv_norm, site_3; [by_decide|done]|].
    intros x3. apply yields_ret.
  - apply yields_bind; [|intros x1; apply yields_ret].
    apply P_conv_norm. split; [by_decide|]. split; [by_decide|].
    split; [done|]. done.
Qed.

End blocks.

(** The stages and the call, from the blocks and the stem. *)

Section stages.

Hypothesis P_block : ∀ kind input nf stride is_first name dcn gcb gcb_name,
  stride ∈ [1; 2] →
  yields P (call_block kind self input nf stride is_first name dcn gcb
              gcb_name).
Hypothesis P_c1_stage : ∀ input, yields P (c1_stage self input).
Hypothesis P_pool2d : ∀ a out, P [pool2d a out].
Hypothesis P_stop_gradient : ∀ v, P [set_stop_gradient (OfVar v)].
Hypothesis P_fc : ∀ x n out, P [fc x n (head_attr x) out].

Lemma yields_layer_warp input i : yields P (layer_warp self input i).
Proof.
  unfold layer_warp.
  apply yields_bind; [apply yields_assert|]. intros _.
  apply yields_bind; [apply yields_lift|]. intros [stages kind].
  apply yields_bind; [apply yields_lift|]. intros count.
  apply yields_bind; [apply yields_lift|]. intros ch_out.
  apply yields_bind.
  { destruct (py_in i (nonlocal_stages self)); [|apply yields_ret].
    destruct (i =? 4); [apply yields_lift|apply yields_ret]. }
  intros nonlocal_mod.
  apply yields_bind; [|intros [conv isf]; apply yields_ret].
  apply yields_for_each. intros k [conv isf] _.
  assert ((if (k =? 0) && negb (i =? 2) then 2 else 1) ∈ [1; 2]) as Hs.
  { destruct (_ && _); by_decide. }
  apply yields_bind; [by apply P_block|].
  intros conv1.
  apply yields_bind; [|intros conv2; apply yields_ret].
  destruct (k `mod` nonlocal_mod =? nonlocal_mod - 1);
    [apply yields_raise|apply yields_ret].
Qed.

Lemma yields_build_stage i acc : yields P (build_stage self i acc).
Proof.
  destruct acc as [res eps]. unfold build_stage.
  apply yields_bind; [apply yields_incr_curr_stage|]. intros _.
  apply yields_bind; [apply yields_layer_warp|]. intros res'.
  apply yields_bind; [|intros _; apply yields_ret].
  destruct (_ >=? _); [apply yields_emit, P_stop_gradient|apply yields_ret].
Qed.

Lemma yields___call___stages input : yields P (__call__ self input).
Proof.
  unfold __call__.
  apply yields_bind; [apply yields_assert|]. intros _.
  apply yields_bind.
  { destruct (negb _); [|apply yields_ret].
    apply yields_bind; [apply P_c1_stage|]. intros res.
    apply yields_bind; [apply yields_lift|]. intros m. apply yields_ret. }
  intros [res fm'].
  apply yields_bind.
  { apply yields_for_each. intros i acc _. apply yields_build_stage. }
  intros [res' eps].
  destruct (num_classes self) as [n|].
  - apply yields_bind.
    { intros st out st' evs [= _ _ <-]. apply P_pool2d. }
    intros pool.
    apply yields_bind.
    { intros st out st' evs [= _ _ <-]. apply (P_fc pool n). }
    intros out. apply yields_ret.
  - apply yields_bind; [|intros pairs; apply yields_ret].
    apply yields_for_each. intros [idx feat] pairs _.
    apply yields_bind; [apply yields_lift|]. intros fm. apply yields_ret.
Qed.

End stages.

(** The property holds of the log of every call that returns. *)
Lemma yields___call__ input :
  (∀ input nf k s act name dcn,
     conv_norm_site k s act dcn →
     yields P (_conv_norm self input nf k s 1 act name dcn)) →
  (∀ a out, P [pool2d a out]) →
  (∀ x y act name out, P [elementwise_add x y act name out]) →
  (∀ v, P [set_stop_gradient (OfVar v)]) →
  (∀ x n out, P [fc x n (head_attr x) out]) →
  yields P (__call__ self input).
Proof.
  intros Hcn Hpool Hadd Hstop Hfc.
  apply yields___call___stages; [|by apply yields_c1_stage|done..].
  intros. by apply yields_call_block.
Qed.

End log_invariants.

(** A call that returns with one property of its log returns with every
    invariant of the log. *)
Lemma returns_yields {A} (m : M A) st Q P :
  returns m st Q → yields P m → returns m st (λ _ _ evs, P evs).
Proof.
  intros Hret Hy. apply returns_Ok in Hret as (a & st' & evs & Hrun & _).
  apply returns_Ok. exists a, st', evs. split; [done|]. by eapply Hy.
Qed.

(** ** Conventions of the layers *)

(** The cases of a returning [_conv_norm]: plain or deformable, batch
    normalization or affine channel, frozen or not, each with its log. *)
Ltac conv_norm_cases H :=
  unfold _conv_norm in H;
  let lr := fresh "lr" in
  let Hlr := fresh "Hlr" in
  let H1 := fresh "H1" in
  let H2 := fresh "H2" in
  let H3 := fresh "H3" in
  apply bind_Ok_inv in H as (? & ? & ? & ? & H1 & H & ->);
  injection H1 as <- <- <-;
  apply bind_Ok_inv in H as (? & ? & ? & ? & H1 & H & ->);
  unfold lift in H1;
  destruct (getitem _ _) as [lr|] eqn:Hlr; [|discriminate H1];
  injection H1 as <- <- <-;
  apply bind_Ok_inv in H as (? & ? & ? & ? & H1 & H & ->);
  apply bind_Ok_inv in H as ([[? ?] ?] & ? & ? & ? & H2 & H & ->);
  apply bind_Ok_inv in H as ([] & ? & ? & ? & H3 & H & ->);
  injection H as <- <- <-;
  match type of H1 with
  | (if negb ?dcn then _ else _) _ = _ => destruct dcn
  end;
  simpl negb in H1; cbv iota in H1;
  injection H1 as <- <- <-;
  (destruct (py_in (norm_type _) ["bn"; "sync_bn"]) eqn:Hnt;
   [apply py_in_true in Hnt
   |destruct (String.eqb (norm_type _) "affine_channel") eqn:Hac;
    [apply String.eqb_eq in Hac|discriminate H2]]);
  injection H2 as <- <- <- <- <-;
  (destruct (freeze_norm _) eqn:Hfn);
  injection H3 as <- <-;
  simpl.

Ltac each_event :=
  repeat apply Forall_cons_2; try apply Forall_nil_2; simpl.

Lemma _conv_norm_conv_event_ok self input nf k s act name dcn :
  conv_norm_site k s act dcn →
  yields (Forall conv_event_ok)
    (_conv_norm self input nf k s 1 act name dcn).
Proof.
  intros (Hk & Hs & Hact & Hdcn) st out st' evs H.
  conv_norm_cases H; each_event; try done;
    try (split; [|by apply Hdcn]); by intros.
Qed.

Lemma decayed_regularizer self lr name :
  decayed self
    {| pa_name := name;
       pa_initializer := None;
       learning_rate := lr;
       regularizer :=
         match num_classes self with
         | Some n => if n =? 0 then Some (norm_decay self) else None
         | None => Some (norm_decay self)
         end |}.
Proof.
  split; simpl.
  - by intros [-> | ->].
  - intros n -> Hn. by rewrite (proj2 (Z.eqb_neq _ _) Hn).
Qed.

Lemma _conv_norm_norm_event_ok self input nf k s act name dcn :
  yields (Forall (norm_event_ok self))
    (_conv_norm self input nf k s 1 act name dcn).
Proof.
  intros st out st' evs H.
  conv_norm_cases H; each_event; try done;
    repeat match goal with |- _ ∧ _ => split end;
    auto using decayed_regularizer.
Qed.

Lemma append_assoc (s1 s2 s3 : string) :
  (s1 +:+ s2) +:+ s3 = s1 +:+ (s2 +:+ s3).
Proof.
  induction s1 as [|c s1 IH]; [done|].
  change (String c ((s1 +:+ s2) +:+ s3) = String c (s1 +:+ (s2 +:+ s3))).
  by rewrite IH.
Qed.

Lemma prefixed_with_prefix self name rest :
  prefixed self (with_prefix self name +:+ rest).
Proof.
  unfold prefixed, with_prefix.
  destruct (String.eqb (prefix_name self) "") eqn:E; simpl.
  - apply String.eqb_eq in E. rewrite E. by eexists.
  - eexists. apply append_assoc.
Qed.

Lemma _conv_norm_names_prefixed self input nf k s act name dcn :
  yields (Forall (names_prefixed self))
    (_conv_norm self input nf k s 1 act name dcn).
Proof.
  intros st out st' evs H.
  conv_norm_cases H; each_event; unfold names_prefixed; simpl;
    (split; [each_event|]); try done;
    try (intros ? [= <-]); try split;
    rewrite ?append_assoc; apply prefixed_with_prefix.
Qed.

Lemma dcn_wired_nil : dcn_wired [].
Proof. intros pre a o m dg step out post H. by destruct pre. Qed.

Lemma dcn_wired_app e1 e2 :
  dcn_wired e1 → dcn_wired e2 → dcn_wired (e1 ++ e2).
Proof.
  intros H1 H2 pre a o m dg step out post H.
  apply app_eq_inv in H as [(k & -> & Hk)|(k & -> & Hk)].
  - destruct k as [|e k]; simpl in Hk.
    + destruct (H2 [] a o m dg step out post (eq_sym Hk))
        as (pre' & p & b & om & m0 & Hpre & _).
      by destruct pre'.
    + injection Hk as <- ->. by apply (H1 pre a o m dg step out k).
  - destruct (H2 k a o m dg step out post Hk)
      as (pre' & p & b & om & m0 & -> & Hrest).
    exists (e1 ++ pre'), p, b, om, m0. by rewrite <- app_assoc.
Qed.

Lemma dcn_wired_plain evs :
  Forall (λ e, ¬ is_deformable_conv e) evs → dcn_wired evs.
Proof.
  intros HF pre a o m dg step out post ->.
  apply Forall_app in HF as [_ HF]. apply Forall_cons in HF as [Hd _].
  by destruct Hd.
Qed.

Lemma dcn_wired_group p b om n1 n2 o m0 m a out :
  n1 = shape1 o → n2 = shape1 m0 →
  c_input p = c_input a → c_filter_size p = c_filter_size a →
  c_stride p = c_stride a → c_padding p = c_padding a →
  c_num_filters p = 3 * c_filter_size a ^ 2 →
  shape1 om = c_num_filters p →
  shape1 o = 2 * c_filter_size a ^ 2 →
  shape1 m0 = c_filter_size a ^ 2 →
  shape1 m = c_filter_size a ^ 2 →
  pa_initializer (c_param_attr p) = Some (Constant 0%Q) →
  c_bias_attr p = Some b → pa_initializer b = Some (Constant 0%Q) →
  dcn_wired [conv2d p om; split om [n1; n2] 1 o m0;
             sigmoid m0 m; deformable_conv a o m 1 1 out].
Proof.
  intros -> -> ? ? ? ? ? ? ? ? ? ? ? ? pre a' o' m' dg step out' post H.
  destruct pre as [|e1 [|e2 [|e3 [|e4 pre]]]]; simpl in H;
    try discriminate H.
  - injection H as <- <- <- <- <- <- <- <- <- <-.
    exists [], p, b, om, m0. done.
  - injection H as _ _ _ _ H. by destruct pre.
Qed.

Ltac plain_events :=
  apply dcn_wired_plain; each_event; by intros [].

Lemma _conv_norm_dcn_wired self input nf k s act name dcn :
  yields dcn_wired (_conv_norm self input nf k s 1 act name dcn).
Proof.
  intros st out st' evs H.
  conv_norm_cases H; try plain_events;
    (apply (dcn_wired_app [_; _; _; _]); [|plain_events]);
    (eapply dcn_wired_group; simpl; try done; rewrite Z.pow_2_r; lia).
Qed.

(** An invariant of the log of [_conv_norm] at its call sites and of the
    other layers holds of the log of a call on a new instance. *)
Lemma __call___invariant (P : list event → Prop) adapter a self input st :
  P [] →
  (∀ e1 e2, P e1 → P e2 → P (e1 ++ e2)) →
  (∀ input nf k s act name dcn,
     conv_norm_site k s act dcn →
     yields P (_conv_norm self input nf k s 1 act name dcn)) →
  (∀ a out, P [pool2d a out]) →
  (∀ x y act name out, P [elementwise_add x y act name out]) →
  (∀ v, P [set_stop_gradient (OfVar v)]) →
  (∀ x n out, P [fc x n (head_attr x) out]) →
  ResNet__init__ adapter a = Ok self →
  callable self →
  curr_stage st = 0%nat →
  returns (__call__ self input) st (λ _ _ evs, P evs).
Proof.
  intros Hnil Happ Hcn Hpool Hadd Hstop Hfc Hinit Hcall Hcs.
  pose proof (init_constructed _ _ _ Hinit) as Hc.
  apply ResNet__init___Ok in Hinit as (_ & Hsev & _).
  eapply returns_yields; [by apply __call___returns|].
  by apply yields___call__.
Qed.

Lemma prefixed_callable : callable (instance_of prefixed_args).
Proof.
  split.
  - simpl. repeat (apply Forall_cons; split; [by_decide|]). constructor.
  - intros i j Hj Hij.
    change (feature_maps (instance_of prefixed_args)) with [3; 4; 5] in Hj.
    rewrite !elem_of_cons, elem_of_nil in Hj.
    split; [|split; [|split]].
    + assert (i = 2 ∨ i = 3 ∨ i = 4 ∨ i = 5) as [->|[->|[->| ->]]] by lia;
        by_decide.
    + apply not_elem_of_nil.
    + apply not_elem_of_nil.
    + intros Hlt. vm_compute in Hlt. done.
Qed.

(** Every convolution of the backbone that a call builds, plain or
    deformable, has "same" padding [(k - 1) // 2] for a kernel of size 1, 3
    or 7, stride 1 or 2, one group, no bias and no activation of its own,
    and as many output channels as filters; a deformable one has a 3x3
    kernel. *)
Theorem convolutions_follow_conventions adapter a self input st :
  ResNet__init__ adapter a = Ok self →
  callable self →
  curr_stage st = 0%nat →
  returns (__call__ self input) st (λ _ _ evs, Forall conv_event_ok evs).
Proof.
  apply __call___invariant.
  - apply Forall_nil_2.
  - apply Forall_app_2.
  - apply _conv_norm_conv_event_ok.
  - intros. by each_event.
  - intros. by each_event.
  - intros. by each_event.
  - intros. by each_event.
Qed.

Lemma convolutions_follow_conventions_witness :
  ResNet__init__ sample_adapter prefixed_args
  = Ok (instance_of prefixed_args) ∧
  returns (__call__ (instance_of prefixed_args) image) new_state
    (λ _ _ evs, Forall conv_event_ok evs).
Proof.
  split; [reflexivity|].
  apply (convolutions_follow_conventions sample_adapter prefixed_args);
    [reflexivity|exact prefixed_callable|reflexivity].
Defined.

(** Every deformable convolution that a call builds is wired to an offset
    predictor of its own: a convolution on the same input with the same
    kernel size, stride and padding, started from zero weights and bias,
    whose [3 k^2] channels are split into [2 k^2] offsets and [k^2] mask
    values, the mask passing through a sigmoid. *)
Theorem deformable_convs_wired adapter a self input st :
  ResNet__init__ adapter a = Ok self →
  callable self →
  curr_stage st = 0%nat →
  returns (__call__ self input) st (λ _ _ evs, dcn_wired evs).
Proof.
  apply __call___invariant.
  - apply dcn_wired_nil.
  - apply dcn_wired_app.
  - intros. apply _conv_norm_dcn_wired.
  - intros. plain_events.
  - intros. plain_events.
  - intros. plain_events.
  - intros. plain_events.
Qed.

Lemma deformable_convs_wired_witness :
  ResNet__init__ sample_adapter prefixed_args
  = Ok (instance_of prefixed_args) ∧
  returns (__call__ (instance_of prefixed_args) image) new_state
    (λ _ _ evs, dcn_wired evs).
Proof.
  split; [reflexivity|].
  apply (deformable_convs_wired sample_adapter prefixed_args);
    [reflexivity|exact prefixed_callable|reflexivity].
Defined.

(** Every normalization layer that a call builds follows the instance: a
    [batch_norm] for 'bn' and for 'sync_bn' alike, on global statistics
    exactly when [freeze_norm] is set, or, for 'affine_channel', an
    [affine_channel] whose created parameters start from 1 or from 0;
    scale and bias decay with [norm_decay], unless [num_classes] is set and
    not 0, in which case they have no regularizer. *)
Theorem norm_layers_follow_norm_type adapter a self input st :
  ResNet__init__ adapter a = Ok self →
  callable self →
  curr_stage st = 0%nat →
  returns (__call__ self input) st
    (λ _ _ evs, Forall (norm_event_ok self) evs).
Proof.
  apply __call___invariant.
  - apply Forall_nil_2.
  - apply Forall_app_2.
  - intros. apply _conv_norm_norm_event_ok.
  - intros. by each_event.
  - intros. by each_event.
  - intros. by each_event.
  - intros. by each_event.
Qed.

Lemma norm_layers_follow_norm_type_witness :
  ResNet__init__ sample_adapter prefixed_args
  = Ok (instance_of prefixed_args) ∧
  returns (__call__ (instance_of prefixed_args) image) new_state
    (λ _ _ evs, Forall (norm_event_ok (instance_of prefixed_args)) evs).
Proof.
  split; [reflexivity|].
  apply (norm_layers_follow_norm_type sample_adapter prefixed_args);
    [reflexivity|exact prefixed_callable|reflexivity].
Defined.

(** Every parameter that a call names (convolution weights, offset
    predictor weights and biases, normalization scales and biases) and the
    moving statistics of every batch normalization carry
    [weight_prefix_name] in front; a parameter without a name is not
    concerned. *)
Theorem parameter_names_prefixed adapter a self input st :
  ResNet__init__ adapter a = Ok self →
  callable self →
  curr_stage st = 0%nat →
  returns (__call__ self input) st
    (λ _ _ evs, Forall (names_prefixed self) evs).
Proof.
  apply __call___invariant.
  - apply Forall_nil_2.
  - apply Forall_app_2.
  - intros. apply _conv_norm_names_prefixed.
  - intros. each_event. split; [constructor|done].
  - intros. each_event. split; [constructor|done].
  - intros. each_event. split; [constructor|done].
  - intros. each_event. split; [|done]. by each_event.
Qed.

Lemma parameter_names_prefixed_witness :
  ResNet__init__ sample_adapter prefixed_args
  = Ok (instance_of prefixed_args) ∧
  returns (__call__ (instance_of prefixed_args) image) new_state
    (λ _ _ evs, Forall (names_prefixed (instance_of prefixed_args)) evs).
Proof.
  split; [reflexivity|].
  apply (parameter_names_prefixed sample_adapter prefixed_args);
    [reflexivity|exact prefixed_callable|reflexivity].
Defined.

(** ** The blocks of a stage *)

Lemma conv_norm_log_length self input nf k s dcn lr out evs :
  conv_norm_log self input nf k s dcn lr out evs →
  length (convs evs) = 1%nat ∧ length (adds evs) = 0%nat.
Proof.
  intros (a & cout & pattr & battr & Hc & _ & _ & _ & _ & _ & _ & _ & _ &
          _ & _ & _ & _ & Ha & _).
  by rewrite Hc, Ha.
Qed.

Lemma shortcut_log_length self input ch_out stride is_first lr out evs :
  shortcut_log self input ch_out stride is_first lr out evs →
  length (convs evs)
  = (if projects self input ch_out stride is_first then 1 else 0)%nat ∧
  (projects self input ch_out stride is_first = false → out = input).
Proof.
  unfold shortcut_log. destruct (projects _ _ _ _ _).
  - destruct (_ && _).
    + intros (pooled & evs' & -> & _ & H).
      apply conv_norm_log_length in H as [H _]. by split.
    + intros H. apply conv_norm_log_length in H as [H _]. by split.
  - by intros [-> ->].
Qed.

Lemma block_log_length f self input nf stride is_first dcn lr out evs :
  block_log f self input nf stride is_first dcn lr out evs →
  length (convs evs)
  = (convs_per_block f
     + if projects self input (nf * expansion f) stride is_first
       then 1 else 0)%nat ∧
  length (adds evs) = 1%nat.
Proof.
  destruct f; simpl.
  - intros (_ & c0 & c1 & short & e0 & e1 & esc & act & name & -> &
            H0 & H1 & Hs & Ha & _).
    apply conv_norm_log_length in H0 as [H0 Ha0].
    apply conv_norm_log_length in H1 as [H1 Ha1].
    apply shortcut_log_length in Hs as [Hs _].
    rewrite Z.mul_1_r.
    rewrite !convs_app, !adds_app, !length_app, H0, H1, Hs, Ha0, Ha1, Ha.
    simpl. lia.
  - intros (r1 & r2 & r3 & short & e1 & e2 & e3 & esc & act & name & -> &
            H1 & H2 & H3 & Hs & Ha & _).
    apply conv_norm_log_length in H1 as [H1 Ha1].
    apply conv_norm_log_length in H2 as [H2 Ha2].
    apply conv_norm_log_length in H3 as [H3 Ha3].
    apply shortcut_log_length in Hs as [Hs _].
    rewrite !convs_app, !adds_app, !length_app, H1, H2, H3, Hs,
      Ha1, Ha2, Ha3, Ha.
    simpl. lia.
Qed.

Lemma stage_blocks_length self f nf dcn lr i x n y evs :
  stage_blocks self f nf dcn lr i x n y evs →
  length (convs evs) = (n * convs_per_block f + 1)%nat ∧
  length (adds evs) = n.
Proof.
  induction 1 as [isf z ev Hb Hp|n y ev1 isf z ev2 _ [IH1 IH2] Hb Hp].
  - apply block_log_length in Hb as [Hb Ha]. rewrite Hp in Hb. lia.
  - apply block_log_length in Hb as [Hb Ha]. rewrite Hp in Hb.
    rewrite convs_app, adds_app, !length_app. lia.
Qed.

Lemma layer_warp_structure_returns self input i st :
  constructed self →
  buildable self i →
  (curr_stage st < 5)%nat →
  (i = 2 → 50 ≤ layers self → shape1 input ≠ 256) →
  returns (layer_warp self input i) st
    (layer_warp_structure self input i st).
Proof.
  intros Hc (Hi & Hgcb & Hnl & Hdcn) Hcs Hin.
  destruct (lr_mult_lookup self (curr_stage st) Hc Hcs) as [lr_mult Hlr].
  destruct (stage_config _ _ (ok_layers _ Hc) Hi)
    as (sched & kind & count & nf & Hcfg & Hcount & Hnf & Hrange & Hkind).
  unfold layer_warp.
  apply returns_bind, returns_assert; [by apply py_in_true|].
  apply returns_bind.
  eapply returns_lift.
  { unfold dict_getitem. by rewrite (ok_layers_cfg _ Hc), Hcfg. }
  apply returns_bind. eapply returns_lift; [exact Hcount|].
  apply returns_bind. eapply returns_lift;
    [by rewrite (ok_stage_filters _ Hc)|].
  apply py_in_false in Hgcb, Hnl. rewrite Hgcb, Hnl.
  replace (if py_in i (dcn_v2_stages self) then true else false)
    with (py_in i (dcn_v2_stages self))
    by (by destruct (py_in i (dcn_v2_stages self))).
  apply returns_bind, returns_ret, returns_bind.
  set (Inv := λ (k : nat) (acc : TensorVar * bool) (st' : state)
                (evs : list event),
    curr_stage st' = curr_stage st ∧
    match k with
    | O => acc.1 = input ∧ evs = []
    | S _ =>
        shape1 acc.1 = nf * expansion kind ∧
        stage_blocks self kind nf (py_in i (dcn_v2_stages self)) lr_mult i
          input k acc.1 evs
    end).
  eapply returns_mono.
  { apply (returns_for_each _ Inv).
    - by unfold Inv.
    - intros k x [conv isf] st1 evs1 Hk (Hcs1 & Hinv).
      apply range_lookup in Hk as [-> Hlt]. simpl in Hinv.
      apply returns_bind.
      eapply returns_mono.
      { apply call_block_returns with (lr_mult := lr_mult);
          [by rewrite Hcs1|done|].
        intros Hb. apply py_in_false, Hdcn. by apply Hkind. }
      simpl. intros conv1 st2 ev2 (Hcs2 & Hfr2 & Hsh2 & Hlog2).
      replace ((0 + Z.of_nat k) `mod` 1000 =? 1000 - 1) with false.
      2:{ symmetry. apply Z.eqb_neq. rewrite Z.mod_small; lia. }
      apply returns_bind, returns_ret, returns_ret.
      unfold Inv. simpl. split; [congruence|]. split; [done|].
      rewrite !app_nil_r.
      destruct k as [|k].
      + destruct Hinv as [-> ->]. simpl in *.
        replace (if negb (i =? 2) then 2 else 1) with (stage_stride i)
          in Hlog2 by (unfold stage_stride; by destruct (i =? 2)).
        eapply stage_blocks_first; [exact Hlog2|].
        unfold projects, stage_stride.
        destruct (i =? 2) eqn:Ei; [|by rewrite orb_true_r].
        apply Z.eqb_eq in Ei. simpl.
        destruct (Z.ltb_spec (layers self) 50) as [Hlt50|Hge50].
        * by rewrite orb_true_r.
        * assert (kind = self_bottleneck) as ->.
          { destruct kind; [|done]. destruct Hkind as [Hk _].
            specialize (Hk eq_refl). lia. }
          rewrite Ei in Hnf.
          injection Hnf as <-. simpl.
          change (64 * 4) with 256.
          by rewrite (proj2 (Z.eqb_neq _ _) (Hin Ei Hge50)).
      + destruct Hinv as [Hsh Hblocks].
        replace ((0 + Z.of_nat (S k) =? 0) && negb (i =? 2)) with false
          in Hlog2
          by (symmetry; apply andb_false_iff; left; apply Z.eqb_neq; lia).
        eapply stage_blocks_next; [exact Hblocks|exact Hlog2|].
        unfold projects. simpl in Hsh. rewrite Hsh, Z.eqb_refl. simpl.
        destruct (Z.ltb_spec (layers self) 50) as [Hlt50|Hge50]; [|done].
        simpl in Hlog2 |- *.
        replace (0 + Z.of_nat (S k) =? 0) with false
          by (symmetry; apply Z.eqb_neq; lia).
        done. }
  simpl. intros [conv isf] st' evs (Hcs' & Hinv).
  apply returns_ret. rewrite range_length, Z.sub_0_r in *.
  destruct (Z.to_nat count) as [|n] eqn:En; [lia|].
  destruct Hinv as [Hsh Hblocks]. simpl in *. rewrite app_nil_r.
  destruct (stage_blocks_length _ _ _ _ _ _ _ _ _ _ Hblocks) as [Hl1 Hl2].
  exists lr_mult, sched, kind, count, nf.
  rewrite (ok_layers_cfg _ Hc), (ok_stage_filters _ Hc), En. done.
Qed.

(** In a stage only the first block projects.  [layer_warp] builds the
    first block of stage [i] with the stride of the stage (1 for stage 2, 2
    for the stages 3 to 5) and a projection shortcut, and every other block
    with stride 1 and the identity shortcut, adding the block's input
    itself; the stage has one convolution more than its blocks have outside
    the shortcut.  On stage 2 of bottlenecks this takes an input that does
    not already have the 256 channels of the stage, as the stem's 64. *)
Theorem stage_projects_once adapter a self input i st :
  ResNet__init__ adapter a = Ok self →
  buildable self i →
  (curr_stage st < 5)%nat →
  (i = 2 → 50 ≤ layers self → shape1 input ≠ 256) →
  returns (layer_warp self input i) st
    (layer_warp_structure self input i st).
Proof.
  intros Hinit. apply layer_warp_structure_returns.
  by eapply init_constructed.
Qed.

Lemma stage_projects_once_witness :
  ResNet__init__ sample_adapter default_args = Ok (instance_of default_args) ∧
  buildable (instance_of default_args) 2 ∧
  returns (layer_warp (instance_of default_args) stem_out 2) new_state
    (layer_warp_structure (instance_of default_args) stem_out 2 new_state).
Proof.
  assert (buildable (instance_of default_args) 2) as Hb.
  { apply (proj2 default_callable 2 5); [by_decide|lia]. }
  split; [reflexivity|]. split; [exact Hb|].
  apply (stage_projects_once sample_adapter default_args);
    [reflexivity|exact Hb|vm_compute; lia|].
  intros _ _. vm_compute. discriminate.
Defined.

(** ** The depth of the network *)









(** ** Channel counts of the residual additions *)

Section value_invariants.

Variable P : list event → Prop.
Hypothesis P_nil : P [].
Hypothesis P_app : ∀ e1 e2, P e1 → P e2 → P (e1 ++ e2).

Lemma yields_with_ret {A} (a : A) (R : A → Prop) :
  R a → yields_with P (mret a) R.
Proof. by intros H st a' st' evs [= <- _ <-]. Qed.

Lemma yields_with_raise {A} e (R : A → Prop) :
  yields_with P (raise e : M A) R.
Proof. by intros st a st' evs H. Qed.

Lemma yields_with_bind {A B} (m : M A) (k : A → M B) R R' :
  yields_with P m R → (∀ a, R a → yields_with P (k a) R') →
  yields_with P (m ≫= k) R'.
Proof.
  intros Hm Hk st b st' evs H.
  apply bind_Ok_inv in H as (a & st1 & ev1 & ev2 & H1 & H2 & ->).
  destruct (Hm _ _ _ _ H1) as [HP1 HR].
  destruct (Hk a HR _ _ _ _ H2) as [HP2 HR'].
  split; [by apply P_app|done].
Qed.

Lemma yields_with_mono {A} (m : M A) (R R' : A → Prop) :
  yields_with P m R → (∀ a, R a → R' a) → yields_with P m R'.
Proof. intros Hm HR st a st' evs H. destruct (Hm _ _ _ _ H). auto. Qed.

Lemma yields_with_for_each {A B} (body : A → B → M B) l (R : B → Prop) :
  (∀ x acc, x ∈ l → R acc → yields_with P (body x acc) R) →
  ∀ acc, R acc → yields_with P (for_each l body acc) R.
Proof.
  induction l as [|y l IH]; intros Hb acc Hacc; simpl.
  - by apply yields_with_ret.
  - eapply yields_with_bind.
    + apply Hb; [apply elem_of_cons; by left|done].
    + intros acc' Hacc'. apply IH; [|done]. intros x acc'' Hx.
      apply Hb, elem_of_cons. by right.
Qed.

Lemma yields_yields_with {A} (m : M A) :
  yields P m → yields_with P m (λ _, True).
Proof. intros Hm st a st' evs H. split; [by eapply Hm|done]. Qed.

Lemma yields_with_yields {A} (m : M A) R :
  yields_with P m R → yields P m.
Proof. intros Hm st a st' evs H. by destruct (Hm _ _ _ _ H). Qed.

End value_invariants.

Lemma _conv_norm_add_event_ok self input nf k s g act name dcn :
  yields_with (Forall add_event_ok)
    (_conv_norm self input nf k s g act name dcn)
    (λ out, shape1 out = nf).
Proof.
  intros st out st' evs H.
  conv_norm_cases H; (split; [by each_event|done]).
Qed.

Lemma fluid_pool2d_add_event_ok a :
  yields_with (Forall add_event_ok) (fluid_pool2d a) (λ _, True).
Proof. intros st out st' evs [= _ _ <-]. split; [by each_event|done]. Qed.

Lemma _shortcut_add_event_ok self input ch_out stride is_first name :
  yields_with (Forall add_event_ok)
    (_shortcut self input ch_out stride is_first name)
    (λ out, shape1 out = ch_out).
Proof.
  unfold _shortcut.
  destruct (negb (shape1 input =? ch_out)) eqn:E; simpl.
  2:{ apply negb_false_iff, Z.eqb_eq in E.
      destruct (_ || _).
      - destruct (getattr (std_senet self) false);
          [destruct is_first; apply _conv_norm_add_event_ok|].
        destruct (_ && _); [|apply _conv_norm_add_event_ok].
        eapply yields_with_bind;
          [apply Forall_app_2|apply fluid_pool2d_add_event_ok|].
        intros pooled _. apply _conv_norm_add_event_ok.
      - by apply yields_with_ret. }
  destruct (getattr (std_senet self) false);
    [destruct is_first; apply _conv_norm_add_event_ok|].
  destruct (_ && _); [|apply _conv_norm_add_event_ok].
  eapply yields_with_bind;
    [apply Forall_app_2|apply fluid_pool2d_add_event_ok|].
  intros pooled _. apply _conv_norm_add_event_ok.
Qed.

Lemma fluid_elementwise_add_ok x y act name :
  shape1 x = shape1 y →
  yields_with (Forall add_event_ok) (fluid_elementwise_add x y act name)
    (λ out, shape1 out = shape1 y).
Proof.
  intros Hxy st out st' evs [= <- _ <-].
  split; [|done]. by each_event.
Qed.

Lemma bottleneck_add_event_ok self input nf stride is_first name dcn gcb
    gcb_name :
  constructed self →
  yields_with (Forall add_event_ok)
    (bottleneck self input nf stride is_first name dcn gcb gcb_name)
    (λ out, shape1 out = nf * 4).
Proof.
  intros Hc. unfold bottleneck.
  rewrite (ok_groups _ Hc), (ok_group_width _ Hc), (ok_std_senet _ Hc),
    (ok_squeeze_excitation _ Hc).
  simpl getattr. cbv iota.
  destruct (fix_bottleneck_name (na self) name) as [[[n1 n2] n3] n4].
  destruct (String.eqb (variant self) "a"); simpl;
    (eapply yields_with_bind; [apply Forall_app_2| |];
     [eapply yields_with_bind; [apply Forall_app_2| |];
      [apply _conv_norm_add_event_ok|];
      intros r1 _;
      eapply yields_with_bind; [apply Forall_app_2| |];
      [apply _conv_norm_add_event_ok|];
      intros r2 _;
      eapply yields_with_bind; [apply Forall_app_2| |];
      [apply _conv_norm_add_event_ok|];
      intros r3 Hr3; apply yields_with_ret; [apply Forall_nil_2|exact Hr3]
     |]);
    (intros residual Hres;
     eapply yields_with_bind; [apply Forall_app_2| |];
     [apply _shortcut_add_event_ok|];
     intros short Hshort;
     eapply yields_with_bind; [apply Forall_app_2| |];
     [apply (yields_with_ret _ (Forall_nil_2 _) residual
               (λ r, shape1 r = nf * 4) Hres)|];
     intros residual' Hres';
     eapply yields_with_bind; [apply Forall_app_2| |];
     [destruct gcb;
      [apply yields_with_raise
      |apply (yields_with_ret _ (Forall_nil_2 _) residual'
                (λ r, shape1 r = nf * 4) Hres')]|];
     intros residual'' Hres'';
     eapply yields_with_mono;
     [apply fluid_elementwise_add_ok; congruence|];
     intros out ->; done).
Qed.

Lemma basicblock_add_event_ok self input nf stride is_first name dcn gcb
    gcb_name :
  yields_with (Forall add_event_ok)
    (basicblock self input nf stride is_first name dcn gcb gcb_name)
    (λ out, shape1 out = nf).
Proof.
  unfold basicblock.
  eapply yields_with_bind; [apply Forall_app_2| |].
  { apply yields_yields_with, yields_assert. apply Forall_nil_2. }
  intros _ _.
  eapply yields_with_bind; [apply Forall_app_2| |].
  { apply yields_yields_with, yields_assert. apply Forall_nil_2. }
  intros _ _.
  eapply yields_with_bind; [apply Forall_app_2| |];
    [apply _conv_norm_add_event_ok|]. intros conv0 _.
  eapply yields_with_bind; [apply Forall_app_2| |];
    [apply _conv_norm_add_event_ok|]. intros conv1 Hc1.
  eapply yields_with_bind; [apply Forall_app_2| |];
    [apply _shortcut_add_event_ok|]. intros short Hs.
  eapply yields_with_mono; [apply fluid_elementwise_add_ok; congruence|].
  by intros out ->.
Qed.

(** In every call that returns, the shortcut and the residual branch of
    each residual addition have the same number of channels. *)
Lemma __call___add_event_ok self input :
  constructed self → yields (Forall add_event_ok) (__call__ self input).
Proof.
  intros Hc. apply yields___call___stages.
  - apply Forall_nil_2.
  - apply Forall_app_2.
  - intros kind x nf stride is_first name dcn gcb gcb_name _.
    destruct kind; simpl.
    + eapply yields_with_yields, basicblock_add_event_ok.
    + by eapply yields_with_yields, bottleneck_add_event_ok.
  - intros x. apply yields_c1_stage.
    + apply Forall_nil_2.
    + apply Forall_app_2.
    + intros. eapply yields_with_yields, _conv_norm_add_event_ok.
    + intros. by each_event.
  - intros. by each_event.
  - intros. by each_event.
  - intros. by each_event.
Qed.

(** Every residual addition that a call builds is well formed: the
    shortcut, projected or not, and the residual branch have the same
    number of channels, and so has their sum. *)
Theorem residual_additions_well_formed adapter a self input st :
  ResNet__init__ adapter a = Ok self →
  callable self →
  curr_stage st = 0%nat →
  returns (__call__ self input) st (λ _ _ evs, Forall add_event_ok evs).
Proof.
  intros Hinit Hcall Hcs.
  pose proof (init_constructed _ _ _ Hinit) as Hc.
  apply ResNet__init___Ok in Hinit as (_ & Hsev & _).
  eapply returns_yields; [by apply __call___returns|].
  by apply __call___add_event_ok.
Qed.

Lemma residual_additions_well_formed_witness :
  ResNet__init__ sample_adapter prefixed_args
  = Ok (instance_of prefixed_args) ∧
  returns (__call__ (instance_of prefixed_args) image) new_state
    (λ _ _ evs, Forall add_event_ok evs).
Proof.
  split; [reflexivity|].
  apply (residual_additions_well_formed sample_adapter prefixed_args);
    [reflexivity|exact prefixed_callable|reflexivity].
Defined.
